(** * natprobe: the client's result analysis, anonymisation, probe loops and
    the reflection codec, as a shallow embedding of the Go sources.

    Conventions of the embedding.
    - A Go [int] is a [Z]; a [byte] is a [Byte.byte], with the wrap-around of
      its arithmetic written out ([byte_inc]); a [uint16] is a [Z] reduced
      modulo 65536.
    - [net.IP] is a byte slice: [list byte].  A nil slice and an empty slice
      are both the empty list; the sources only ever test [len(ip) == 0] on
      an IP, and test a map value against nil where every stored value is a
      16-byte slice.
    - A [*net.UDPAddr] held by a probe is a record of IP and port.  The zone
      is left out: [copyUDPAddr] drops it and the sockets are udp4.
      [Local] and [Remote] are set by every [MappingProbe] literal of the
      prober, so they are plain addresses; [Mapped] is left nil in the
      timeout literal, so it is an [option].
    - Go maps are [gmap]s; reading a missing key yields the zero value.
    - A nil-pointer dereference is a run-time panic: functions that can reach
      one return [option], [None] standing for the panic. *)

From Stdlib Require Import ZArith Ascii Strings.Byte Lia Bool.
From Stdlib Require Import DecimalString Floats.SpecFloat.
From stdpp Require Import gmap strings list sorting.

Local Open Scope Z_scope.

(** ** Bytes *)

Definition byte_val (b : byte) : Z := Z.of_N (Byte.to_N b).

Definition byte_of_Z (z : Z) : byte :=
  match Byte.of_N (Z.to_N (z mod 256)) with
  | Some b => b
  | None => x00
  end.

(** [b++] on a Go [byte]. *)
Definition byte_inc (b : byte) : byte := byte_of_Z (byte_val b + 1).

Definition byte_eqb (x y : byte) : bool := Byte.eqb x y.

Fixpoint bytes_eqb (x y : list byte) : bool :=
  match x, y with
  | [], [] => true
  | a :: x', b :: y' => byte_eqb a b && bytes_eqb x' y'
  | _, _ => false
  end.

(** ** Package net: IP addresses *)

Definition net_IP := list byte.

Definition v4InV6Prefix : list byte :=
  [x00; x00; x00; x00; x00; x00; x00; x00; x00; x00; xff; xff].

(** [net.IPv4(a, b, c, d)]: the 16-byte form. *)
Definition IPv4 (a b c d : byte) : net_IP := v4InV6Prefix ++ [a; b; c; d].

Definition IPv4zero : net_IP := IPv4 x00 x00 x00 x00.
Definition IPv6unspecified : net_IP := repeat x00 16.

Definition isZeros (p : list byte) : bool := forallb (byte_eqb x00) p.

(** [ip.To4()]; nil when [ip] is not an IPv4 address. *)
Definition To4 (ip : net_IP) : net_IP :=
  if (Z.of_nat (length ip) =? 4) then ip
  else if (Z.of_nat (length ip) =? 16)
          && isZeros (firstn 10 ip)
          && byte_eqb (nth 10 ip x00) xff
          && byte_eqb (nth 11 ip x00) xff
       then firstn 4 (skipn 12 ip)
       else [].

(** [ip.To16()]; nil when [ip] has neither length. *)
Definition To16 (ip : net_IP) : net_IP :=
  if (Z.of_nat (length ip) =? 4)
  then IPv4 (nth 0 ip x00) (nth 1 ip x00) (nth 2 ip x00) (nth 3 ip x00)
  else if (Z.of_nat (length ip) =? 16) then ip
  else [].

(** [ip.Equal(x)]: an IPv4 address and its IPv6-mapped form are equal. *)
Definition IP_Equal (ip x : net_IP) : bool :=
  if (length ip =? length x)%nat then bytes_eqb ip x
  else if (Z.of_nat (length ip) =? 4) && (Z.of_nat (length x) =? 16)
       then bytes_eqb (firstn 12 x) v4InV6Prefix && bytes_eqb ip (skipn 12 x)
  else if (Z.of_nat (length ip) =? 16) && (Z.of_nat (length x) =? 4)
       then bytes_eqb (firstn 12 ip) v4InV6Prefix && bytes_eqb (skipn 12 ip) x
  else false.

Definition IsUnspecified (ip : net_IP) : bool :=
  IP_Equal ip IPv4zero || IP_Equal ip IPv6unspecified.

(** ** Textual forms *)

(** [strconv.Itoa]. *)
Definition itoa (z : Z) : string := NilZero.string_of_int (Z.to_int z).

Definition hexdigit (n : Z) : string :=
  String (nth (Z.to_nat n)
            ["0"; "1"; "2"; "3"; "4"; "5"; "6"; "7"; "8"; "9";
             "a"; "b"; "c"; "d"; "e"; "f"]%char "0"%char) EmptyString.

(** [hexString]: two lower-case digits per byte. *)
Fixpoint hexString (p : list byte) : string :=
  match p with
  | [] => ""
  | b :: p' => hexdigit (byte_val b / 16) +:+ hexdigit (byte_val b mod 16) +:+ hexString p'
  end.

(** Lower-case hexadecimal without leading zeros, for a 16-bit group. *)
Definition appendHex (v : Z) : string :=
  if v =? 0 then "0"
  else
    (if 4096 <=? v then hexdigit (v / 4096) else "") ++
    (if 256 <=? v then hexdigit (v / 256 mod 16) else "") ++
    (if 16 <=? v then hexdigit (v / 16 mod 16) else "") ++
    hexdigit (v mod 16).

(** The [i]-th 16-bit group of a 16-byte address. *)
Definition v6u16 (ip : net_IP) (i : nat) : Z :=
  byte_val (nth (2 * i) ip x00) * 256 + byte_val (nth (2 * i + 1) ip x00).

(** Length of the run of zero groups that starts at group [i]. *)
Fixpoint zero_run (ip : net_IP) (i n : nat) : nat :=
  match n with
  | O => O
  | S n' => if v6u16 ip i =? 0 then S (zero_run ip (S i) n') else O
  end.

(** The longest run of at least two zero groups, leftmost on ties, as
    [(zeroStart, zeroEnd)]; [(255, 255)] when there is none. *)
Fixpoint longest_zero_run (ip : net_IP) (i n : nat) (best : nat * nat) : nat * nat :=
  match n with
  | O => best
  | S n' =>
      let l := zero_run ip i (8 - i) in
      let best' :=
        if (2 <=? l)%nat && (snd best - fst best <? l)%nat then (i, (i + l)%nat) else best in
      longest_zero_run ip (S i) n' best'
  end.

Fixpoint string6_from (ip : net_IP) (zs ze : nat) (i n : nat) : string :=
  match n with
  | O => ""
  | S n' =>
      if (8 <=? i)%nat then ""
      else if (i =? zs)%nat then
        "::" +:+ (if (8 <=? ze)%nat then ""
                 else appendHex (v6u16 ip ze)
                        +:+ string6_from ip zs ze (S ze) n')
      else
        (if (0 <? i)%nat then ":" else "") +:+ appendHex (v6u16 ip i)
          +:+ string6_from ip zs ze (S i) n'
  end.

(** The text of a 16-byte address that is not IPv4-mapped. *)
Definition string6 (ip : net_IP) : string :=
  let '(zs, ze) := longest_zero_run ip 0 8 (255%nat, 255%nat) in
  string6_from ip zs ze 0 9.

Definition byte_dec (b : byte) : string := itoa (byte_val b).

(** [ip.String()]. *)
Definition IP_String (ip : net_IP) : string :=
  if (Z.of_nat (length ip) =? 0) then "<nil>"
  else if negb (Z.of_nat (length ip) =? 4) && negb (Z.of_nat (length ip) =? 16)
  then "?" +:+ hexString ip
  else
    match To4 ip with
    | [a; b; c; d] => byte_dec a +:+ "." +:+ byte_dec b +:+ "." +:+ byte_dec c +:+ "." +:+ byte_dec d
    | _ => string6 ip
    end.

(** ** Package net: UDP addresses *)

Record UDPAddr := mkUDPAddr { IP : net_IP; Port : Z }.

Fixpoint has_colon (s : string) : bool :=
  match s with
  | EmptyString => false
  | String c s' => Ascii.eqb c ":"%char || has_colon s'
  end.

(** [net.JoinHostPort]. *)
Definition JoinHostPort (host port : string) : string :=
  if has_colon host then "[" +:+ host +:+ "]:" +:+ port
  else host +:+ ":" +:+ port.

Definition ipEmptyString (ip : net_IP) : string :=
  if (Z.of_nat (length ip) =? 0) then "" else IP_String ip.

(** [a.String()] for a non-nil address. *)
Definition UDPAddr_String (a : UDPAddr) : string :=
  JoinHostPort (ipEmptyString (IP a)) (itoa (Port a)).

(** [%s] of a possibly nil [*net.UDPAddr]. *)
Definition UDPAddr_ptr_String (a : option UDPAddr) : string :=
  match a with
  | None => "<nil>"
  | Some a => UDPAddr_String a
  end.

(** [copyUDPAddr]: a fresh address with a copy of the IP bytes. *)
Definition copyUDPAddr (a : UDPAddr) : UDPAddr :=
  {| IP := [] ++ IP a; Port := Port a |}.

(** ** The raw result of a probe *)

Record MappingProbe := mkMappingProbe {
  Local : UDPAddr;
  Mapped : option UDPAddr;
  Remote : UDPAddr;
  Timeout : bool
}.

Record FirewallProbe := mkFirewallProbe {
  FLocal : UDPAddr;
  FRemote : UDPAddr;
  Received : list UDPAddr
}.

Record Result := mkResult {
  LocalIPs : list net_IP;
  MappingProbes : list MappingProbe;
  FirewallProbes : option FirewallProbe
}.

Definition bool_String (b : bool) : string := if b then "true" else "false".

(** [p.key()]: the probe's identity for deduplication. *)
Definition key (p : MappingProbe) : string :=
  UDPAddr_String (Local p) +:+ " " +:+ UDPAddr_ptr_String (Mapped p) +:+ " "
    +:+ UDPAddr_String (Remote p) +:+ " " +:+ bool_String (Timeout p).

(** Reading a [map[K]bool] at a key: [false] when the key is absent. *)
Definition get_bool `{Countable K} (m : gmap K bool) (k : K) : bool :=
  default false (m !! k).

(** ** The analyzer *)

Definition noData (r : Result) : bool :=
  if (Z.of_nat (length (MappingProbes r)) =? 0) then true
  else forallb Timeout (MappingProbes r).

Fixpoint noNAT_loop (ips : gmap string bool) (ps : list MappingProbe) : option bool :=
  match ps with
  | [] => Some true
  | probe :: rest =>
      if Timeout probe then noNAT_loop ips rest
      else
        match Mapped probe with
        | None => None
        | Some mapped =>
            if negb (get_bool ips (IP_String (IP mapped))) then Some false
            else noNAT_loop ips rest
        end
  end.

Definition noNAT (r : Result) : option bool :=
  let ips := foldl (fun ips ip => <[IP_String ip := true]> ips) ∅ (LocalIPs r) in
  noNAT_loop ips (MappingProbes r).

(** The loop of [mappingVariesByDestIP], with its four variables. *)
Fixpoint mappingVariesByDestIP_loop (ps : list MappingProbe)
    (local : string) (remoteIP mappedIP : net_IP) (mappedPort : Z) : option bool :=
  match ps with
  | [] => Some false
  | probe :: rest =>
      if Timeout probe then
        mappingVariesByDestIP_loop rest local remoteIP mappedIP mappedPort
      else if negb (String.eqb (UDPAddr_String (Local probe)) local) then
        match Mapped probe with
        | None => None
        | Some mapped =>
            mappingVariesByDestIP_loop rest (UDPAddr_String (Local probe))
              (IP (Remote probe)) (IP mapped) (Port mapped)
        end
      else if IP_Equal (IP (Remote probe)) remoteIP then
        mappingVariesByDestIP_loop rest local remoteIP mappedIP mappedPort
      else
        match Mapped probe with
        | None => None
        | Some mapped =>
            if negb (IP_Equal (IP mapped) mappedIP) || negb (Port mapped =? mappedPort)
            then Some true
            else mappingVariesByDestIP_loop rest local remoteIP mappedIP mappedPort
        end
  end.

Definition mappingVariesByDestIP (r : Result) : option bool :=
  mappingVariesByDestIP_loop (MappingProbes r) "" [] [] 0.

Fixpoint mappingVariesByDestPort_loop (ps : list MappingProbe)
    (local : string) (remotePort : Z) (mappedIP : net_IP) (mappedPort : Z) : option bool :=
  match ps with
  | [] => Some false
  | probe :: rest =>
      if Timeout probe then
        mappingVariesByDestPort_loop rest local remotePort mappedIP mappedPort
      else if negb (String.eqb (UDPAddr_String (Local probe)) local) then
        match Mapped probe with
        | None => None
        | Some mapped =>
            mappingVariesByDestPort_loop rest (UDPAddr_String (Local probe))
              (Port (Remote probe)) (IP mapped) (Port mapped)
        end
      else if Port (Remote probe) =? remotePort then
        mappingVariesByDestPort_loop rest local remotePort mappedIP mappedPort
      else
        match Mapped probe with
        | None => None
        | Some mapped =>
            if negb (IP_Equal (IP mapped) mappedIP) || negb (Port mapped =? mappedPort)
            then Some true
            else mappingVariesByDestPort_loop rest local remotePort mappedIP mappedPort
        end
  end.

Definition mappingVariesByDestPort (r : Result) : option bool :=
  mappingVariesByDestPort_loop (MappingProbes r) "" 0 [] 0.

Definition firewallEnforcesDestIP (r : Result) : bool :=
  match FirewallProbes r with
  | None => false
  | Some fw =>
      let outIP := IP (FRemote fw) in
      forallb (fun recv => IP_Equal (IP recv) outIP) (Received fw)
  end.

Definition firewallEnforcesDestPort (r : Result) : bool :=
  match FirewallProbes r with
  | None => false
  | Some fw =>
      let outPort := Port (FRemote fw) in
      forallb (fun recv => Port recv =? outPort) (Received fw)
  end.

Fixpoint multiplePublicIPs_loop (ips : gmap string bool) (ps : list MappingProbe)
    : option (gmap string bool) :=
  match ps with
  | [] => Some ips
  | probe :: rest =>
      if Timeout probe then multiplePublicIPs_loop ips rest
      else
        match Mapped probe with
        | None => None
        | Some mapped => multiplePublicIPs_loop (<[IP_String (IP mapped) := true]> ips) rest
        end
  end.

Definition multiplePublicIPs (r : Result) : option bool :=
  match multiplePublicIPs_loop ∅ (MappingProbes r) with
  | None => None
  | Some ips => Some (1 <? Z.of_nat (size ips))
  end.

(** [sort.Ints]: the ascending rearrangement of the slice. *)
Definition sort_Ints (l : list Z) : list Z := merge_sort Z.le l.

Definition filteredEgress_working (ps : list MappingProbe) : gmap Z bool :=
  foldl (fun working probe =>
           if negb (Timeout probe) then <[Port (Remote probe) := true]> working
           else working) ∅ ps.

Fixpoint filteredEgress_loop (ps : list MappingProbe) (working : gmap Z bool)
    (ret : list Z) : list Z :=
  match ps with
  | [] => ret
  | probe :: rest =>
      if Timeout probe && negb (get_bool working (Port (Remote probe))) then
        filteredEgress_loop rest (<[Port (Remote probe) := true]> working)
          (ret ++ [Port (Remote probe)])
      else filteredEgress_loop rest working ret
  end.

Definition filteredEgress (r : Result) : list Z :=
  let working := filteredEgress_working (MappingProbes r) in
  sort_Ints (filteredEgress_loop (MappingProbes r) working []).


(** ** float64 arithmetic (IEEE 754 binary64, round to nearest even) *)

Module Float64.

Definition prec : Z := 53.
Definition emax : Z := 1024.

Definition float64 := spec_float.

(** [float64(n)] for an integer [n]. *)
Definition of_int (n : Z) : float64 := binary_normalize prec emax n 0 false.

Definition div (x y : float64) : float64 := SFdiv prec emax x y.

(** [x >= y]; false when either side is NaN. *)
Definition geb (x y : float64) : bool := SFleb y x.

(** The constant [0.8] as a float64: 0x3FE999999999999A. *)
Definition lit_0_8 : float64 := S754_finite false 7205759403792794 (-53).

End Float64.

(** Number of binary digits of a positive number. *)
Definition digits (p : positive) : Z := Z.pos (digits2_pos p).

(** The rounding position after one bit of [q] has been shifted out. *)
Definition shifted_loc (q : Z) (loc : location) : location :=
  loc_of_shr_record (shr_1 (shr_record_of_loc q loc)).

Fixpoint mappingPreservesSourcePort_loop (ps : list MappingProbe)
    (total preserved : Z) : option (Z * Z) :=
  match ps with
  | [] => Some (total, preserved)
  | probe :: rest =>
      if Timeout probe then mappingPreservesSourcePort_loop rest total preserved
      else
        match Mapped probe with
        | None => None
        | Some mapped =>
            mappingPreservesSourcePort_loop rest (total + 1)
              (if Port (Local probe) =? Port mapped then preserved + 1 else preserved)
        end
  end.

Definition mappingPreservesSourcePort (r : Result) : option bool :=
  match mappingPreservesSourcePort_loop (MappingProbes r) 0 0 with
  | None => None
  | Some (total, preserved) =>
      Some (Float64.geb (Float64.div (Float64.of_int preserved) (Float64.of_int total))
              Float64.lit_0_8)
  end.

Record Analysis := mkAnalysis {
  NoData : bool;
  NoNAT : bool;
  MappingVariesByDestIP : bool;
  MappingVariesByDestPort : bool;
  FirewallEnforcesDestIP : bool;
  FirewallEnforcesDestPort : bool;
  MappingPreservesSourcePort : bool;
  MultiplePublicIPs : bool;
  FilteredEgress : list Z
}.

(** [r.Analyze()]; it panics when one of its nine parts does. *)
Definition Analyze (r : Result) : option Analysis :=
  nn ← noNAT r;
  vi ← mappingVariesByDestIP r;
  vp ← mappingVariesByDestPort r;
  ps ← mappingPreservesSourcePort r;
  mp ← multiplePublicIPs r;
  Some {| NoData := noData r;
          NoNAT := nn;
          MappingVariesByDestIP := vi;
          MappingVariesByDestPort := vp;
          FirewallEnforcesDestIP := firewallEnforcesDestIP r;
          FirewallEnforcesDestPort := firewallEnforcesDestPort r;
          MappingPreservesSourcePort := ps;
          MultiplePublicIPs := mp;
          FilteredEgress := filteredEgress r |}.

(** ** The textual form of a result *)

Definition nl : string := String "010"%char EmptyString.

Definition MappingProbe_line (probe : MappingProbe) : string :=
  if Timeout probe then
    "    " +:+ UDPAddr_String (Local probe) +:+ " -> ??? -> "
      +:+ UDPAddr_String (Remote probe) +:+ " (timeout)" +:+ nl
  else
    "    " +:+ UDPAddr_String (Local probe) +:+ " -> "
      +:+ UDPAddr_ptr_String (Mapped probe) +:+ " -> "
      +:+ UDPAddr_String (Remote probe) +:+ nl.

Fixpoint write_lines {A : Type} (line : A → string) (l : list A) : string :=
  match l with
  | [] => ""
  | x :: l' => line x +:+ write_lines line l'
  end.

(** [r.String()]. *)
Definition Result_String (r : Result) : string :=
  if (Z.of_nat (length (MappingProbes r)) =? 0) then "No data (did the probe fail?)"
  else
    "Local IPs on the client:" +:+ nl
    +:+ write_lines (fun ip => "    " +:+ IP_String ip +:+ nl) (LocalIPs r)
    +:+ "Mapping probes:" +:+ nl
    +:+ write_lines MappingProbe_line (MappingProbes r)
    +:+ match FirewallProbes r with
        | None => "No firewall probe data." +:+ nl
        | Some fw =>
            "Firewall probe with outbound traffic " +:+ UDPAddr_String (FLocal fw)
              +:+ " -> " +:+ UDPAddr_String (FRemote fw) +:+ nl
              +:+ write_lines (fun addr => "    " +:+ UDPAddr_String addr +:+ nl) (Received fw)
        end.

(** ** Anonymisation *)

(** The variables captured by the [anonymize] closure. *)
Record anon_state := mkAnonState {
  ips : gmap string net_IP;
  ctr_a : byte;
  ctr_b : byte
}.

(** The closure [anonymize], threading the captured variables. *)
Definition anonymize (ip : net_IP) (st : anon_state) : net_IP * anon_state :=
  if (Z.of_nat (length ip) =? 0) || IsUnspecified ip then (ip, st)
  else
    let ret := default [] (ips st !! IP_String ip) in
    if negb (Z.of_nat (length ret) =? 0) then (ret, st)
    else
      let ret := IPv4 (ctr_a st) (ctr_a st) (ctr_b st) (ctr_b st) in
      let b := byte_inc (ctr_b st) in
      let a := if byte_eqb b x00 then byte_inc (ctr_a st) else ctr_a st in
      (ret, {| ips := <[IP_String ip := ret]> (ips st); ctr_a := a; ctr_b := b |}).

(** Statements of [Anonymize] run in a state monad over the captured
    variables, with failure for the nil-pointer panic. *)
Definition Anon (A : Type) : Type := anon_state → option (A * anon_state).

Definition anon_ret {A : Type} (x : A) : Anon A := fun st => Some (x, st).

Definition anon_bind {A B : Type} (m : Anon A) (k : A → Anon B) : Anon B :=
  fun st => match m st with
            | None => None
            | Some (x, st') => k x st'
            end.

Definition anon_panic {A : Type} : Anon A := fun _ => None.

Definition anon_call (ip : net_IP) : Anon net_IP := fun st => Some (anonymize ip st).

#[global] Instance Anon_ret : MRet Anon := @anon_ret.
#[global] Instance Anon_bind : MBind Anon := fun A B k m => anon_bind m k.

Fixpoint anon_for {A B : Type} (body : A → Anon B) (l : list A) : Anon (list B) :=
  match l with
  | [] => anon_ret []
  | x :: l' => y ← body x; ys ← anon_for body l'; anon_ret (y :: ys)
  end.

Definition anon_addr (addr : UDPAddr) : Anon UDPAddr :=
  ip ← anon_call (IP addr); anon_ret {| IP := ip; Port := Port addr |}.

Definition anon_probe (probe : MappingProbe) : Anon MappingProbe :=
  local ← anon_addr (Local probe);
  match Mapped probe with
  | None => anon_panic
  | Some m =>
      mapped ← anon_addr m;
      remote ← anon_addr (Remote probe);
      anon_ret {| Local := local; Mapped := Some mapped; Remote := remote;
                  Timeout := Timeout probe |}
  end.

Definition anon_firewall (fw : FirewallProbe) : Anon FirewallProbe :=
  local ← anon_addr (FLocal fw);
  remote ← anon_addr (FRemote fw);
  received ← anon_for anon_addr (Received fw);
  anon_ret {| FLocal := local; FRemote := remote; Received := received |}.

Definition Anonymize_body (r : Result) : Anon Result :=
  localIPs ← anon_for anon_call (LocalIPs r);
  probes ← anon_for anon_probe (MappingProbes r);
  match FirewallProbes r with
  | None => anon_ret {| LocalIPs := localIPs; MappingProbes := probes; FirewallProbes := None |}
  | Some fw =>
      fw' ← anon_firewall fw;
      anon_ret {| LocalIPs := localIPs; MappingProbes := probes; FirewallProbes := Some fw' |}
  end.

Definition anon_init : anon_state := {| ips := ∅; ctr_a := x01; ctr_b := x01 |}.

(** [r.Anonymize()]: the result as it stands afterwards, [None] on a panic. *)
Definition Anonymize (r : Result) : option Result :=
  match Anonymize_body r anon_init with
  | None => None
  | Some (r', _) => Some r'
  end.

(** ** The reflection codec *)

(** [uint16(n)] of a Go [int]. *)
Definition uint16 (n : Z) : Z := n mod 65536.

(** [binary.BigEndian.PutUint16]: [b[0] = byte(v >> 8); b[1] = byte(v)]. *)
Definition PutUint16 (v : Z) : list byte :=
  [byte_of_Z (Z.shiftr v 8); byte_of_Z v].

(** [binary.BigEndian.Uint16]: [uint16(b[1]) | uint16(b[0])<<8]. *)
Definition Uint16 (b : list byte) : Z :=
  Z.lor (byte_val (nth 1 b x00)) (uint16 (Z.shiftl (byte_val (nth 0 b x00)) 8)).

(** [copy(dst, src)]: the contents of [dst] afterwards. *)
Definition copy (dst src : list byte) : list byte :=
  firstn (length dst) src ++ skipn (length src) dst.

Module Server.

(** The payload [handle] sends back for a datagram read into [buf] (the
    bytes of the datagram, at the front of the 1500-byte buffer) from
    [addr]; [None] when the datagram is ignored.  The reply is built in
    place, over the request. *)
Definition handle_payload (buf : list byte) (addr : UDPAddr) : option (list byte) :=
  if negb (Z.of_nat (length buf) =? 180) then None
  else
    let buf1 := copy (firstn 16 buf) (To16 (IP addr)) ++ skipn 16 buf in
    let buf2 := firstn 16 buf1
                  ++ copy (firstn 2 (skipn 16 buf1)) (PutUint16 (uint16 (Port addr)))
                  ++ skipn 18 buf1 in
    Some (firstn 18 buf2).

End Server.

(** ** The prober *)

(** What one successful [conn.ReadFromUDP] delivers: the datagram's bytes
    (so [n] is their number) and its source address. *)
Record datagram := mkDatagram { payload : list byte; source : UDPAddr }.

(** How the read that ends the receive loop fails. *)
Inductive read_error := ReadTimeout | ReadFailed.

(** The mapped endpoint decoded from a reflection. *)
Definition decode_mapped (buf : list byte) : UDPAddr :=
  {| IP := firstn 16 buf; Port := Uint16 (firstn 2 (skipn 16 buf)) |}.

(** The variables of [probeOneMapping] that its loop and its deferred
    closure assign. *)
Record mapping_vars := mkMappingVars {
  seenByDest : gmap string bool;
  ret : list MappingProbe;
  seen : gmap string bool
}.

(** One iteration of the receive loop, for a datagram read on the socket
    bound to [conn_local].  The non-blocking offer of the source address on
    the working-address channel does not touch these variables. *)
Definition receive (conn_local : UDPAddr) (d : datagram) (v : mapping_vars) : mapping_vars :=
  if negb (Z.of_nat (length (payload d)) =? 18) then v
  else
    let mapped := decode_mapped (payload d) in
    let probe := {| Local := copyUDPAddr conn_local;
                    Mapped := Some (copyUDPAddr mapped);
                    Remote := copyUDPAddr (source d);
                    Timeout := false |} in
    if negb (get_bool (seen v) (key probe)) then
      {| seenByDest := <[UDPAddr_String (source d) := true]> (seenByDest v);
         ret := ret v ++ [probe];
         seen := <[key probe := true]> (seen v) |}
    else v.

(** The deferred closure: one timeout record per destination not yet seen,
    appended to the variable [ret]. *)
Definition deferred (conn_local : UDPAddr) (dests : list UDPAddr) (v : mapping_vars)
    : mapping_vars :=
  foldl (fun v dest =>
           if negb (get_bool (seenByDest v) (UDPAddr_String dest)) then
             {| seenByDest := seenByDest v;
                ret := ret v ++ [ {| Local := copyUDPAddr conn_local;
                                     Mapped := None;
                                     Remote := copyUDPAddr dest;
                                     Timeout := true |} ];
                seen := seen v |}
           else v) v dests.

(** [probeOneMapping] on a socket bound to [conn_local] whose reads deliver
    [reads] and then fail with [final].  The function's results are
    unnamed: [return ret, nil] copies the value of the variable [ret] into
    the result, and only afterwards does the deferred closure run and
    assign the variable.  The pair is the returned probe list ([None] for
    [nil, err]) and the variables as the closure leaves them. *)
Definition probeOneMapping_run (conn_local : UDPAddr) (dests : list UDPAddr)
    (reads : list datagram) (final : read_error)
    : option (list MappingProbe) * mapping_vars :=
  let v := foldl (fun v d => receive conn_local d v)
             {| seenByDest := ∅; ret := []; seen := ∅ |} reads in
  let results := match final with
                 | ReadTimeout => Some (ret v)
                 | ReadFailed => None
                 end in
  let v' := deferred conn_local dests v in
  (results, v').

Definition probeOneMapping (conn_local : UDPAddr) (dests : list UDPAddr)
    (reads : list datagram) (final : read_error) : option (list MappingProbe) :=
  fst (probeOneMapping_run conn_local dests reads final).

(** What happens on one of the sockets of [probeMapping]. *)
Record socket_run := mkSocketRun {
  conn_local : UDPAddr;
  reads : list datagram;
  final : read_error
}.

(** [probeMapping], with the sockets listed in the order in which their
    results arrive on [done]: the first error aborts, otherwise the probe
    lists are appended. *)
Fixpoint probeMapping_collect (dests : list UDPAddr) (sockets : list socket_run)
    (acc : list MappingProbe) : option (list MappingProbe) :=
  match sockets with
  | [] => Some acc
  | s :: rest =>
      match probeOneMapping (conn_local s) dests (reads s) (final s) with
      | None => None
      | Some probes => probeMapping_collect dests rest (acc ++ probes)
      end
  end.

Definition probeMapping (dests : list UDPAddr) (sockets : list socket_run)
    : option (list MappingProbe) :=
  probeMapping_collect dests sockets [].

(** ** The transmitter *)

(** The body of a transmitter goroutine's loop up to the write: with
    [cycle], [req[0] = (req[0] + 1) % 4]; then the frame is sent. *)
Definition transmit_step (cycle : bool) (req : list byte) : list byte :=
  if cycle then
    <[0%nat := byte_of_Z (byte_val (byte_inc (nth 0 req x00)) mod 4)]> req
  else req.

(** [transmit]: the frames written, in order, when the goroutines of the
    destinations take their turns in the order [turns]; each turn is one
    pass through the loop body of that destination's goroutine over the
    shared array [req]. *)
Fixpoint transmit_from (cycle : bool) (req : list byte) (turns : list UDPAddr)
    : list (UDPAddr * list byte) :=
  match turns with
  | [] => []
  | dest :: rest =>
      let req' := transmit_step cycle req in
      (dest, req') :: transmit_from cycle req' rest
  end.

Definition transmit (cycle : bool) (turns : list UDPAddr) : list (UDPAddr * list byte) :=
  transmit_from cycle (repeat x00 180) turns.

(** Byte 0 of a request frame, as a number. *)
Definition byte0 (frame : list byte) : Z := byte_val (nth 0 frame x00).

(** The byte-0 values the specification words for the first [n] firewall
    transmissions: 0, 1, 2, 3, 0, 1, ... *)
Definition spec_firewall_byte0 (n : nat) : list Z :=
  map (fun k => Z.of_nat k mod 4) (seq 0 n).

(** ** The data-model invariant on mapping probes *)

(** Every non-timeout probe carries a mapped endpoint. *)
Definition mapped_if_replied (probe : MappingProbe) : Prop :=
  Timeout probe = false → is_Some (Mapped probe).

(** The non-timeout probes of a list, as (local, mapped, remote) triples. *)
Definition reply_of (probe : MappingProbe) : option (UDPAddr * UDPAddr * UDPAddr) :=
  if Timeout probe then None
  else match Mapped probe with
       | None => None
       | Some mapped => Some (Local probe, mapped, Remote probe)
       end.

Definition replies (ps : list MappingProbe) : list (UDPAddr * UDPAddr * UDPAddr) :=
  omap reply_of ps.

(** ** The varies-by-destination scan, as the specification words it *)

(** Two endpoints are the same when their textual forms agree. *)
Definition same_endpoint (x y : UDPAddr) : bool :=
  String.eqb (UDPAddr_String x) (UDPAddr_String y).

Section SpecScan.
(** The axis under test: the remote IP, or the remote port. *)
Context {Axis : Type} (axis : UDPAddr → Axis) (same_axis : Axis → Axis → bool).

Record anchor := mkAnchor {
  anchor_local : UDPAddr;
  anchor_axis : Axis;
  anchor_mapped_ip : net_IP;
  anchor_mapped_port : Z
}.

Definition anchor_at (reply : UDPAddr * UDPAddr * UDPAddr) : anchor :=
  let '(local, mapped, remote) := reply in
  {| anchor_local := local; anchor_axis := axis remote;
     anchor_mapped_ip := IP mapped; anchor_mapped_port := Port mapped |}.

(** Scan the non-timeout probes in order.  The first one establishes the
    anchor; a probe with another local endpoint resets it; a probe on the
    anchor's axis value is skipped; any other probe whose mapped IP or
    port differs from the anchor's ends the scan with true. *)
Fixpoint spec_scan (anc : option anchor) (rs : list (UDPAddr * UDPAddr * UDPAddr)) : bool :=
  match rs with
  | [] => false
  | reply :: rest =>
      let '(local, mapped, remote) := reply in
      match anc with
      | None => spec_scan (Some (anchor_at reply)) rest
      | Some a =>
          if negb (same_endpoint local (anchor_local a)) then
            spec_scan (Some (anchor_at reply)) rest
          else if same_axis (axis remote) (anchor_axis a) then
            spec_scan anc rest
          else if negb (IP_Equal (IP mapped) (anchor_mapped_ip a))
                  || negb (Port mapped =? anchor_mapped_port a) then true
          else spec_scan anc rest
      end
  end.
End SpecScan.

Definition spec_mapping_varies_by_dest_ip (r : Result) : bool :=
  spec_scan IP IP_Equal None (replies (MappingProbes r)).

Definition spec_mapping_varies_by_dest_port (r : Result) : bool :=
  spec_scan Port Z.eqb None (replies (MappingProbes r)).

(** ** Port preservation, in exact terms *)

Definition port_preserved (reply : UDPAddr * UDPAddr * UDPAddr) : bool :=
  let '(local, mapped, _) := reply in Port local =? Port mapped.

(** The number of non-timeout probes, and of those among them whose
    mapped port is the local port. *)
Definition replied_total (r : Result) : Z :=
  Z.of_nat (length (replies (MappingProbes r))).

Definition replied_preserved (r : Result) : Z :=
  Z.of_nat (length (List.filter port_preserved (replies (MappingProbes r)))).

(** An IPv4 address, in either form. *)
Definition is_IPv4 (ip : net_IP) : Prop := length (To4 ip) = 4%nat.

(** ** What anonymisation computes *)

(** The IPs that [anonymize] replaces: non-empty and not unspecified. *)
Definition anonymizable (ip : net_IP) : bool :=
  negb ((Z.of_nat (length ip) =? 0) || IsUnspecified ip).

(** The address handed out by the [n]-th fresh assignment, counting from
    zero: [a.a.b.b], where [b] is the low byte and [a] the next byte of
    [257 + n]. *)
Definition generated (n : nat) : net_IP :=
  let c := 257 + Z.of_nat n in
  IPv4 (byte_of_Z (c / 256)) (byte_of_Z (c / 256)) (byte_of_Z c) (byte_of_Z c).

(** The IPs of a result, in the order in which [Anonymize] visits them. *)
Definition probe_IPs (probe : MappingProbe) : list net_IP :=
  IP (Local probe)
    :: match Mapped probe with
       | Some mapped => [IP mapped]
       | None => []
       end ++ [IP (Remote probe)].

Definition firewall_IPs (fw : FirewallProbe) : list net_IP :=
  IP (FLocal fw) :: IP (FRemote fw) :: map IP (Received fw).

Definition Result_IPs (r : Result) : list net_IP :=
  LocalIPs r ++ flat_map probe_IPs (MappingProbes r)
    ++ match FirewallProbes r with
       | Some fw => firewall_IPs fw
       | None => []
       end.

(** The textual forms of the IPs that are replaced, each once, in the
    order of their first occurrence. *)
Definition note_key (ks : list string) (ip : net_IP) : list string :=
  if anonymizable ip && negb (bool_decide (IP_String ip ∈ ks))
  then ks ++ [IP_String ip] else ks.

Definition first_keys (l : list net_IP) : list string := foldl note_key [] l.

Fixpoint index_of (k : string) (ks : list string) : option nat :=
  match ks with
  | [] => None
  | k' :: ks' => if String.eqb k k' then Some O else S <$> index_of k ks'
  end.

(** The substitution determined by a list of keys. *)
Definition substitute (ks : list string) (ip : net_IP) : net_IP :=
  if anonymizable ip then
    match index_of (IP_String ip) ks with
    | Some n => generated n
    | None => ip
    end
  else ip.

(** A result with every IP replaced through [f], everything else kept. *)
Definition map_addr (f : net_IP → net_IP) (addr : UDPAddr) : UDPAddr :=
  {| IP := f (IP addr); Port := Port addr |}.

Definition map_probe (f : net_IP → net_IP) (probe : MappingProbe) : MappingProbe :=
  {| Local := map_addr f (Local probe);
     Mapped := map_addr f <$> Mapped probe;
     Remote := map_addr f (Remote probe);
     Timeout := Timeout probe |}.

Definition map_firewall (f : net_IP → net_IP) (fw : FirewallProbe) : FirewallProbe :=
  {| FLocal := map_addr f (FLocal fw);
     FRemote := map_addr f (FRemote fw);
     Received := map (map_addr f) (Received fw) |}.

Definition map_Result (f : net_IP → net_IP) (r : Result) : Result :=
  {| LocalIPs := map f (LocalIPs r);
     MappingProbes := map (map_probe f) (MappingProbes r);
     FirewallProbes := map_firewall f <$> FirewallProbes r |}.

(** The captured variables after the keys [ks] have been assigned, in
    that order. *)
Definition anon_inv (ks : list string) (st : anon_state) : Prop :=
  NoDup ks
  ∧ (∀ k, ips st !! k = generated <$> index_of k ks)
  ∧ ctr_a st = byte_of_Z ((257 + Z.of_nat (length ks)) / 256)
  ∧ ctr_b st = byte_of_Z (257 + Z.of_nat (length ks)).

(** [m] visits the IPs [occ] and yields [f σ], for the substitution [σ] of
    the keys assigned so far or of any later extension of them. *)
Definition anon_correct {A : Type} (m : Anon A) (occ : list net_IP)
    (f : (net_IP → net_IP) → A) : Prop :=
  ∀ ks st, anon_inv ks st →
    ∃ x st', m st = Some (x, st')
      ∧ anon_inv (foldl note_key ks occ) st'
      ∧ ∀ ks', foldl note_key ks occ `prefix_of` ks' → x = f (substitute ks').

(** The form the specification words for a generated address. *)
Definition spec_generated_form (ip : net_IP) : Prop :=
  ∃ b1 b2 : byte,
    1 ≤ byte_val b1 ≤ 255 ∧ 1 ≤ byte_val b2 ≤ 255 ∧ ip = IPv4 x01 x01 b1 b2.

(** ** Reading dotted decimals *)

Fixpoint no_dot (s : string) : bool :=
  match s with
  | EmptyString => true
  | String c s' => negb (Ascii.eqb c "."%char) && no_dot s'
  end.

(** The number written by a string of decimal digits, after [acc]. *)
Fixpoint decimal_value (acc : Z) (s : string) : Z :=
  match s with
  | EmptyString => acc
  | String c s' => decimal_value (10 * acc + (Z.of_nat (nat_of_ascii c) - 48)) s'
  end.

(** ** The completeness of a probe list, as the specification words it *)

(** [probe] is the record of socket [s] and destination [d] with timeout
    flag [t]. *)
Definition record_of (s d : UDPAddr) (t : bool) (probe : MappingProbe) : bool :=
  same_endpoint (Local probe) s && same_endpoint (Remote probe) d
  && Bool.eqb (Timeout probe) t.

(** The list holds exactly one timeout record for [(s, d)] if and only if
    it holds no non-timeout record for [(s, d)]. *)
Definition spec_timeout_iff_no_reply (probes : list MappingProbe) (s d : UDPAddr) : Prop :=
  length (filter (fun p => record_of s d true p = true) probes) = 1%nat
  ↔ filter (fun p => record_of s d false p = true) probes = [].

(** ** Sample inputs *)

Definition all_timeouts_example : Result :=
  {| LocalIPs := [[xc0; xa8; x00; x02]];
     MappingProbes :=
       [ {| Local := {| IP := [x00; x00; x00; x00]; Port := 40000 |};
            Mapped := None;
            Remote := {| IP := [x08; x08; x08; x08]; Port := 443 |};
            Timeout := true |} ];
     FirewallProbes := None |}.

Definition two_sockets_example : Result :=
  {| LocalIPs := [[xc0; xa8; x00; x02]];
     MappingProbes :=
       [ {| Local := {| IP := [x00; x00; x00; x00]; Port := 5000 |};
            Mapped := Some {| IP := IPv4 xcb x00 x71 x01; Port := 6000 |};
            Remote := {| IP := [x08; x08; x08; x08]; Port := 443 |};
            Timeout := false |};
         {| Local := {| IP := [x00; x00; x00; x00]; Port := 5000 |};
            Mapped := Some {| IP := IPv4 xcb x00 x71 x02; Port := 6000 |};
            Remote := {| IP := [x08; x08; x04; x04]; Port := 443 |};
            Timeout := false |};
         {| Local := {| IP := [x00; x00; x00; x00]; Port := 5000 |};
            Mapped := None;
            Remote := {| IP := [x08; x08; x04; x04]; Port := 5060 |};
            Timeout := true |};
         {| Local := {| IP := [x00; x00; x00; x00]; Port := 5001 |};
            Mapped := Some {| IP := IPv4 xcb x00 x71 x01; Port := 5001 |};
            Remote := {| IP := [x08; x08; x08; x08]; Port := 80 |};
            Timeout := false |} ];
     FirewallProbes := None |}.

(** One socket, one destination, and no datagram before the deadline. *)
Definition silent_destination : UDPAddr := {| IP := [x08; x08; x08; x08]; Port := 443 |}.

Definition silent_socket : socket_run :=
  {| conn_local := {| IP := [x00; x00; x00; x00]; Port := 40000 |};
     reads := [];
     final := ReadTimeout |}.

(** A host with the [n] local addresses 10.0.0.0, 10.0.0.1, ..., counting
    upwards through the last three bytes, and no probe data. *)
Definition local_ip (k : Z) : net_IP :=
  [x0a; byte_of_Z (k / 65536); byte_of_Z (k / 256); byte_of_Z k].

Fixpoint local_ips_from (n : nat) (k : Z) : list net_IP :=
  match n with
  | O => []
  | S n' => local_ip k :: local_ips_from n' (k + 1)
  end.

Definition many_locals (n : nat) : Result :=
  {| LocalIPs := local_ips_from n 0; MappingProbes := []; FirewallProbes := None |}.

(** A run in which every destination answered. *)
Definition replied_example : Result :=
  {| LocalIPs := [[xc0; xa8; x00; x02]; IPv6unspecified];
     MappingProbes :=
       [ {| Local := {| IP := [x00; x00; x00; x00]; Port := 5000 |};
            Mapped := Some {| IP := IPv4 xcb x00 x71 x01; Port := 6000 |};
            Remote := {| IP := [x08; x08; x08; x08]; Port := 443 |};
            Timeout := false |};
         {| Local := {| IP := [x00; x00; x00; x00]; Port := 5000 |};
            Mapped := Some {| IP := IPv4 xcb x00 x71 x01; Port := 6000 |};
            Remote := {| IP := [x08; x08; x04; x04]; Port := 443 |};
            Timeout := false |} ];
     FirewallProbes :=
       Some {| FLocal := {| IP := [x00; x00; x00; x00]; Port := 5002 |};
               FRemote := {| IP := [x08; x08; x08; x08]; Port := 443 |};
               Received := [ {| IP := [x08; x08; x08; x08]; Port := 443 |};
                             {| IP := [x08; x08; x04; x04]; Port := 443 |} ] |} |}.

(** The same host, with one probe sent from an unspecified local address
    and answered by another host of the network. *)
Definition many_locals_probed (n : nat) : Result :=
  {| LocalIPs := local_ips_from n 0;
     MappingProbes :=
       [ {| Local := {| IP := [x00; x00; x00; x00]; Port := 5000 |};
            Mapped := Some {| IP := local_ip 0; Port := 5000 |};
            Remote := {| IP := local_ip 1; Port := 443 |};
            Timeout := false |} ];
     FirewallProbes := None |}.

(** * The rest of the client and the server *)

From Stdlib Require DecimalPos DecimalZ.

#[global] Instance byte_eq_decision : EqDecision byte.
Proof.
  intros x y. destruct (Byte.eqb x y) eqn:E.
  - left. by apply Byte.byte_dec_bl.
  - right. intros ->. by rewrite Byte.byte_dec_lb in E.
Defined.

(** ** The analyzer's generic scan *)

(** The loop of [mappingVariesBy], with its three variables.  [mappedIP]
    is nil until a first answered probe has been seen; it is only ever
    assigned the [Mapped.IP] of a probe. *)
Fixpoint mappingVariesBy_loop (keyFunc : MappingProbe → string) (ps : list MappingProbe)
    (key : string) (mappedIP : net_IP) (mappedPort : Z) : option bool :=
  match ps with
  | [] => Some false
  | probe :: rest =>
      if Timeout probe then mappingVariesBy_loop keyFunc rest key mappedIP mappedPort
      else if (Z.of_nat (length mappedIP) =? 0) then
        match Mapped probe with
        | None => None
        | Some mapped =>
            mappingVariesBy_loop keyFunc rest (keyFunc probe) (IP mapped) (Port mapped)
        end
      else if String.eqb (keyFunc probe) key then
        mappingVariesBy_loop keyFunc rest key mappedIP mappedPort
      else
        match Mapped probe with
        | None => None
        | Some mapped =>
            if negb (IP_Equal mappedIP (IP mapped)) || negb (Port mapped =? mappedPort)
            then Some true
            else mappingVariesBy_loop keyFunc rest key mappedIP mappedPort
        end
  end.

Definition mappingVariesBy (r : Result) (keyFunc : MappingProbe → string) : option bool :=
  mappingVariesBy_loop keyFunc (MappingProbes r) "" [] 0.

(** ** The textual form of an analysis *)

(** [strings.Join]. *)
Fixpoint Join (elems : list string) (sep : string) : string :=
  match elems with
  | [] => ""
  | x :: rest =>
      match rest with
      | [] => x
      | _ :: _ => x +:+ sep +:+ Join rest sep
      end
  end.

Definition dquote : string := String "034"%char EmptyString.

Definition msg_no_data : string :=
  "Probing got no useful data at all. Either the probe servers are down, or extremely strict UDP filtering is in place on your LAN.".

Definition msg_no_nat : string :=
  "There doesn't seem to be a NAT between you and the internet. Good for you!".

(** [a.String()]. *)
Definition Analysis_String (a : Analysis) : string :=
  if NoData a then msg_no_data
  else if NoNAT a then msg_no_nat
  else
    let ret : list string := [] in
    let ret :=
      if MappingVariesByDestPort a && MappingVariesByDestIP a then
        ret ++ ["NAT allocates a new ip:port for every unique 5-tuple (protocol, source ip, source port, destination ip, destination port)."
                +:+ nl +:+ "    This makes NAT traversal more difficult."]
      else if MappingVariesByDestIP a then
        ret ++ ["NAT allocates a new ip:port for every unique IP 4-tuple (protocol, source ip, source port, destination ip)."
                +:+ nl +:+ "    This makes NAT traversal more difficult."]
      else if MappingVariesByDestPort a then
        ret ++ ["NAT allocates a new ip:port for every unique port 4-tuple (protocol, source ip, source port, destination port)."
                +:+ nl +:+ "    This is unusual!"
                +:+ nl +:+ "    This makes NAT traversal more difficult."]
      else
        ret ++ ["NAT allocates a new ip:port for every unique 3-tuple (protocol, source ip, source ports)."
                +:+ nl +:+ "    This is best practice for NAT devices."
                +:+ nl +:+ "    This makes NAT traversal easier."] in
    let ret :=
      if FirewallEnforcesDestIP a && FirewallEnforcesDestPort a then
        ret ++ ["Firewall requires outbound traffic to an ip:port before allowing inbound traffic from that ip:port."
                +:+ nl +:+ "    This is common practice for NAT gateways."
                +:+ nl +:+ "    This makes NAT traversal more difficult."]
      else if FirewallEnforcesDestIP a then
        ret ++ ["Firewall requires outbound traffic to an ip before allowing inbound traffic from that ip, but the ports don't have to match."
                +:+ nl +:+ "    This makes NAT traversal more difficult."]
      else if FirewallEnforcesDestPort a then
        ret ++ ["Firewall requires outbound traffic to a port before allowing inbound traffic from that port, but the IPs don't have to match."
                +:+ nl +:+ "    This is unusual!"
                +:+ nl +:+ "    This makes NAT traversal more difficult."]
      else
        ret ++ ["Firewall allows inbound traffic from any source, with no prerequisites."
                +:+ nl +:+ "    This is best practice for " +:+ dquote +:+ "traversal-friendly"
                +:+ dquote +:+ " NAT devices."] in
    let ret :=
      if MappingPreservesSourcePort a then
        ret ++ ["NAT seems to try and make the public port number match the LAN port number."]
      else
        ret ++ ["NAT seems to randomize the public port when allocating a new mapping."] in
    let ret :=
      if MultiplePublicIPs a then
        ret ++ ["NAT seems to use different public IPs for different mappings."
                +:+ nl +:+ "    This makes NAT traversal more difficult."]
      else
        ret ++ ["NAT seems to only use one public IP for this client."] in
    let ret :=
      match FilteredEgress a with
      | [] => ret
      | [p] => ret ++ ["Outbound UDP port " +:+ itoa p +:+ " seems to be blocked."]
      | _ =>
          let ports := foldl (fun ports p => ports ++ [itoa p]) [] (FilteredEgress a) in
          ret ++ ["Outbound UDP ports " +:+ Join ports ", " +:+ " seem to be blocked."]
      end in
    Join ret nl.

(** ** The client's options and destinations *)

Module internal.

(** The default ports of client and server. *)
Definition Ports : list Z :=
  [60000; 80; 443; 500; 1701; 4500; 1723; 1194; 51820; 3478; 5060; 5061].

End internal.

(** A [time.Duration] is a number of nanoseconds. *)
Definition Millisecond : Z := 1000000.
Definition Second : Z := 1000 * Millisecond.

Record Options := mkOptions {
  ServerAddrs : list string;
  Ports : list Z;
  ResolveDuration : Z;
  MappingDuration : Z;
  MappingTransmitInterval : Z;
  MappingSockets : Z;
  FirewallDuration : Z;
  FirewallTransmitInterval : Z
}.

(** The statements of [addDefaults], one per option: an option at its zero
    value is assigned its default. *)
Definition addDefaults_ServerAddrs (o : Options) : Options :=
  if (Z.of_nat (length (ServerAddrs o)) =? 0)
  then {| ServerAddrs := ["natprobe1.universe.tf."; "natprobe2.universe.tf."];
          Ports := Ports o;
          ResolveDuration := ResolveDuration o;
          MappingDuration := MappingDuration o;
          MappingTransmitInterval := MappingTransmitInterval o;
          MappingSockets := MappingSockets o;
          FirewallDuration := FirewallDuration o;
          FirewallTransmitInterval := FirewallTransmitInterval o |}
  else o.

Definition addDefaults_Ports (o : Options) : Options :=
  if (Z.of_nat (length (Ports o)) =? 0)
  then {| ServerAddrs := ServerAddrs o;
          Ports := internal.Ports;
          ResolveDuration := ResolveDuration o;
          MappingDuration := MappingDuration o;
          MappingTransmitInterval := MappingTransmitInterval o;
          MappingSockets := MappingSockets o;
          FirewallDuration := FirewallDuration o;
          FirewallTransmitInterval := FirewallTransmitInterval o |}
  else o.

Definition addDefaults_ResolveDuration (o : Options) : Options :=
  if (ResolveDuration o =? 0)
  then {| ServerAddrs := ServerAddrs o;
          Ports := Ports o;
          ResolveDuration := 3 * Second;
          MappingDuration := MappingDuration o;
          MappingTransmitInterval := MappingTransmitInterval o;
          MappingSockets := MappingSockets o;
          FirewallDuration := FirewallDuration o;
          FirewallTransmitInterval := FirewallTransmitInterval o |}
  else o.

Definition addDefaults_MappingDuration (o : Options) : Options :=
  if (MappingDuration o =? 0)
  then {| ServerAddrs := ServerAddrs o;
          Ports := Ports o;
          ResolveDuration := ResolveDuration o;
          MappingDuration := 3 * Second;
          MappingTransmitInterval := MappingTransmitInterval o;
          MappingSockets := MappingSockets o;
          FirewallDuration := FirewallDuration o;
          FirewallTransmitInterval := FirewallTransmitInterval o |}
  else o.

Definition addDefaults_MappingTransmitInterval (o : Options) : Options :=
  if (MappingTransmitInterval o =? 0)
  then {| ServerAddrs := ServerAddrs o;
          Ports := Ports o;
          ResolveDuration := ResolveDuration o;
          MappingDuration := MappingDuration o;
          MappingTransmitInterval := 200 * Millisecond;
          MappingSockets := MappingSockets o;
          FirewallDuration := FirewallDuration o;
          FirewallTransmitInterval := FirewallTransmitInterval o |}
  else o.

Definition addDefaults_MappingSockets (o : Options) : Options :=
  if (MappingSockets o =? 0)
  then {| ServerAddrs := ServerAddrs o;
          Ports := Ports o;
          ResolveDuration := ResolveDuration o;
          MappingDuration := MappingDuration o;
          MappingTransmitInterval := MappingTransmitInterval o;
          MappingSockets := 3;
          FirewallDuration := FirewallDuration o;
          FirewallTransmitInterval := FirewallTransmitInterval o |}
  else o.

Definition addDefaults_FirewallDuration (o : Options) : Options :=
  if (FirewallDuration o =? 0)
  then {| ServerAddrs := ServerAddrs o;
          Ports := Ports o;
          ResolveDuration := ResolveDuration o;
          MappingDuration := MappingDuration o;
          MappingTransmitInterval := MappingTransmitInterval o;
          MappingSockets := MappingSockets o;
          FirewallDuration := 3 * Second;
          FirewallTransmitInterval := FirewallTransmitInterval o |}
  else o.

Definition addDefaults_FirewallTransmitInterval (o : Options) : Options :=
  if (FirewallTransmitInterval o =? 0)
  then {| ServerAddrs := ServerAddrs o;
          Ports := Ports o;
          ResolveDuration := ResolveDuration o;
          MappingDuration := MappingDuration o;
          MappingTransmitInterval := MappingTransmitInterval o;
          MappingSockets := MappingSockets o;
          FirewallDuration := FirewallDuration o;
          FirewallTransmitInterval := 50 * Millisecond |}
  else o.

(** [o.addDefaults()]: the options as they stand afterwards. *)
Definition addDefaults (o : Options) : Options :=
  let o := addDefaults_ServerAddrs o in
  let o := addDefaults_Ports o in
  let o := addDefaults_ResolveDuration o in
  let o := addDefaults_MappingDuration o in
  let o := addDefaults_MappingTransmitInterval o in
  let o := addDefaults_MappingSockets o in
  let o := addDefaults_FirewallDuration o in
  let o := addDefaults_FirewallTransmitInterval o in
  o.

(** Every option on its own: its default when it is at its zero value,
    and its value otherwise. *)
Definition filled (o : Options) : Options :=
  {| ServerAddrs := if (Z.of_nat (length (ServerAddrs o)) =? 0) then ["natprobe1.universe.tf."; "natprobe2.universe.tf."] else ServerAddrs o;
     Ports := if (Z.of_nat (length (Ports o)) =? 0) then internal.Ports else Ports o;
     ResolveDuration := if (ResolveDuration o =? 0) then 3 * Second else ResolveDuration o;
     MappingDuration := if (MappingDuration o =? 0) then 3 * Second else MappingDuration o;
     MappingTransmitInterval := if (MappingTransmitInterval o =? 0) then 200 * Millisecond else MappingTransmitInterval o;
     MappingSockets := if (MappingSockets o =? 0) then 3 else MappingSockets o;
     FirewallDuration := if (FirewallDuration o =? 0) then 3 * Second else FirewallDuration o;
     FirewallTransmitInterval := if (FirewallTransmitInterval o =? 0) then 50 * Millisecond else FirewallTransmitInterval o |}.

(** No option is left at its zero value. *)
Definition all_set (o : Options) : Prop :=
  ServerAddrs o ≠ [] ∧ Ports o ≠ []
  ∧ ResolveDuration o ≠ 0 ∧ MappingDuration o ≠ 0 ∧ MappingTransmitInterval o ≠ 0
  ∧ MappingSockets o ≠ 0 ∧ FirewallDuration o ≠ 0 ∧ FirewallTransmitInterval o ≠ 0.

(** [dests]: one address per resolved IP and port, the ports of one IP
    together. *)
Definition dests (ips : list net_IP) (ports : list Z) : list UDPAddr :=
  foldl (fun ret ip =>
           foldl (fun ret port => ret ++ [ {| IP := ip; Port := port |} ]) ret ports)
        [] ips.

(** [resolveServerAddrs], over a resolver that answers a name with its
    addresses, or fails ([None]).  Only IPv4 addresses are kept, in their
    4-byte form. *)
Fixpoint resolveServerAddrs_loop (lookup : string → option (list net_IP))
    (addrs : list string) (ips : list net_IP) : option (list net_IP) :=
  match addrs with
  | [] => Some ips
  | addr :: rest =>
      match lookup addr with
      | None => None
      | Some results =>
          resolveServerAddrs_loop lookup rest
            (foldl (fun ips result =>
                      let ip := To4 result in
                      if (Z.of_nat (length ip) =? 0) then ips else ips ++ [ip])
                   ips results)
      end
  end.

Definition resolveServerAddrs (lookup : string → option (list net_IP))
    (addrs : list string) : option (list net_IP) :=
  resolveServerAddrs_loop lookup addrs [].

(** ** The server *)

(** The variation a request asks for: [buf[0]&1 != 0] and [buf[0]&2 != 0]. *)
Definition varyAddr (buf : list byte) : bool :=
  negb (Z.land (byte_val (nth 0 buf x00)) 1 =? 0).

Definition varyPort (buf : list byte) : bool :=
  negb (Z.land (byte_val (nth 0 buf x00)) 2 =? 0).

(** The search of [handle] for the connection to answer from.  [conns]
    holds the local addresses of [s.conns], in order, and [myaddr] the one
    of the connection the request came in on; the result is the position of
    the connection chosen, [None] when [respConn] stays nil. *)
Fixpoint respConn_from (conns : list UDPAddr) (myaddr : UDPAddr) (va vp : bool) (i : nat)
    : option nat :=
  match conns with
  | [] => None
  | uaddr :: rest =>
      if Bool.eqb (IP_Equal (IP uaddr) (IP myaddr)) va then
        respConn_from rest myaddr va vp (S i)
      else if Bool.eqb (Port uaddr =? Port myaddr) vp then
        respConn_from rest myaddr va vp (S i)
      else Some i
  end.

Definition respConn (conns : list UDPAddr) (myaddr : UDPAddr) (buf : list byte) : option nat :=
  respConn_from conns myaddr (varyAddr buf) (varyPort buf) 0.

(** [isrfc1918]; [None] when [ip.To4()] is nil and indexing it panics. *)
Definition isrfc1918 (ip : net_IP) : option bool :=
  match To4 ip with
  | ip0 :: ip1 :: _ =>
      Some ((byte_val ip0 =? 10)
            || ((byte_val ip0 =? 172) && (Z.land (byte_val ip1) 240 =? 16))
            || ((byte_val ip0 =? 192) && (byte_val ip1 =? 168)))
  | _ => None
  end.

(** How a call ends: it returns a value, returns an error, or panics. *)
Inductive outcome (A : Type) : Type :=
  | Returned (x : A)
  | Failed
  | Panicked.
Arguments Returned {A} x.
Arguments Failed {A}.
Arguments Panicked {A}.

(** The inner loop of [publicIPs] over the addresses of one interface.  An
    address that is not a [*net.IPNet] is [None].  [IsGlobalUnicast] is the
    method of package net. *)
Fixpoint publicIPs_addrs (IsGlobalUnicast : net_IP → bool) (addrs : list (option net_IP))
    (ret : list net_IP) : option (list net_IP) :=
  match addrs with
  | [] => Some ret
  | genAddr :: rest =>
      match genAddr with
      | None => publicIPs_addrs IsGlobalUnicast rest ret
      | Some ip =>
          if (Z.of_nat (length (To4 ip)) =? 0) then publicIPs_addrs IsGlobalUnicast rest ret
          else if negb (IsGlobalUnicast ip) then publicIPs_addrs IsGlobalUnicast rest ret
          else
            match isrfc1918 ip with
            | None => None
            | Some true => publicIPs_addrs IsGlobalUnicast rest ret
            | Some false => publicIPs_addrs IsGlobalUnicast rest (ret ++ [To4 ip])
            end
      end
  end.

(** The outer loop: an interface is the outcome of its [Addrs()], [None]
    for an error. *)
Fixpoint publicIPs_ifaces (IsGlobalUnicast : net_IP → bool)
    (ifaces : list (option (list (option net_IP)))) (ret : list net_IP)
    : outcome (list net_IP) :=
  match ifaces with
  | [] => Returned ret
  | iface :: rest =>
      match iface with
      | None => Failed
      | Some addrs =>
          match publicIPs_addrs IsGlobalUnicast addrs ret with
          | None => Panicked
          | Some ret => publicIPs_ifaces IsGlobalUnicast rest ret
          end
      end
  end.

(** [publicIPs], over the outcome of [net.Interfaces()]. *)
Definition publicIPs (IsGlobalUnicast : net_IP → bool)
    (interfaces : option (list (option (list (option net_IP))))) : outcome (list net_IP) :=
  match interfaces with
  | None => Failed
  | Some ifaces => publicIPs_ifaces IsGlobalUnicast ifaces []
  end.

(** The listening loops of [newServer]: [listen] tells whether
    [net.ListenUDP] succeeds on an address; the result is the local
    addresses of [ret.conns], in order. *)
Fixpoint newServer_ports (listen : UDPAddr → bool) (ip : net_IP) (ports : list Z)
    (conns : list UDPAddr) : option (list UDPAddr) :=
  match ports with
  | [] => Some conns
  | port :: rest =>
      let addr := {| IP := ip; Port := port |} in
      if listen addr then newServer_ports listen ip rest (conns ++ [addr]) else None
  end.

Fixpoint newServer_ips (listen : UDPAddr → bool) (ips : list net_IP) (ports : list Z)
    (conns : list UDPAddr) : option (list UDPAddr) :=
  match ips with
  | [] => Some conns
  | ip :: rest =>
      match newServer_ports listen ip ports conns with
      | None => None
      | Some conns => newServer_ips listen rest ports conns
      end
  end.

(** [newServer], over the outcomes of [publicIPs()] and [parsePorts()]
    ([None] for an error). *)
Definition newServer (ips : option (list net_IP)) (ports : option (list Z))
    (listen : UDPAddr → bool) : option (list UDPAddr) :=
  match ips with
  | None => None
  | Some ips =>
      if (Z.of_nat (length ips) <? 2) then None
      else
        match ports with
        | None => None
        | Some ports => newServer_ips listen ips ports []
        end
  end.

(** ** Evidence for a verdict of the analyzer *)

(** The probes that were answered. *)
Definition answered (ps : list MappingProbe) : list MappingProbe :=
  List.filter (fun p => negb (Timeout p)) ps.

(** The mapped endpoint of [p] is not the endpoint [mappedIP]:[mappedPort]. *)
Definition differs_from (mappedIP : net_IP) (mappedPort : Z) (p : MappingProbe) : bool :=
  match Mapped p with
  | Some m => negb (IP_Equal mappedIP (IP m)) || negb (Port m =? mappedPort)
  | None => false
  end.

Definition mapped_differs (p0 p : MappingProbe) : bool :=
  match Mapped p0 with
  | Some m0 => differs_from (IP m0) (Port m0) p
  | None => false
  end.

(** Two answered probes of [ps], sent from the same local endpoint to
    destinations that [same_dest] tells apart, came back with different
    mapped endpoints. *)
Definition varies_evidence (same_dest : UDPAddr → UDPAddr → bool)
    (ps : list MappingProbe) : Prop :=
  ∃ p q mp mq,
    p ∈ ps ∧ q ∈ ps
    ∧ Timeout p = false ∧ Timeout q = false
    ∧ Mapped p = Some mp ∧ Mapped q = Some mq
    ∧ UDPAddr_String (Local p) = UDPAddr_String (Local q)
    ∧ same_dest (Remote p) (Remote q) = false
    ∧ (IP_Equal (IP mq) (IP mp) = false ∨ Port mq ≠ Port mp).

(** The connection at [uaddr] is one that [handle] may answer from, for a
    request [buf] that came in on [myaddr]. *)
Definition answers_from (myaddr : UDPAddr) (buf : list byte) (uaddr : UDPAddr) : bool :=
  Bool.eqb (IP_Equal (IP uaddr) (IP myaddr)) (negb (varyAddr buf))
  && Bool.eqb (Port uaddr =? Port myaddr) (negb (varyPort buf)).

(** The variations asked for by the requests of the firewall phase, in
    turn: another address, another port, both, neither. *)
Definition firewall_variations : list (bool * bool) :=
  [(true, false); (false, true); (true, true); (false, false)].

(** ** More sample inputs *)

Definition two_servers : list net_IP := [[x08; x08; x08; x08]; [x08; x08; x04; x04]].

Definition two_servers_conns : list UDPAddr :=
  [ {| IP := [x08; x08; x08; x08]; Port := 80 |};
    {| IP := [x08; x08; x08; x08]; Port := 443 |};
    {| IP := [x08; x08; x04; x04]; Port := 80 |};
    {| IP := [x08; x08; x04; x04]; Port := 443 |} ].

(** ** The characters of a text *)

Fixpoint mem_char (c : ascii) (alphabet : string) : bool :=
  match alphabet with
  | EmptyString => false
  | String c' rest => Ascii.eqb c c' || mem_char c rest
  end.

(** Every character of [s] is one of [alphabet]. *)
Fixpoint chars_in (alphabet : string) (s : string) : bool :=
  match s with
  | EmptyString => true
  | String c s' => mem_char c alphabet && chars_in alphabet s'
  end.

(** The characters that the text of an address or of a number is made of. *)
Definition addr_alphabet : string := "0123456789abcdef.:?[]-<nil>".

(** ** The firewall prober *)

(** The variables of [probeFirewall] that its loop assigns. *)
Record firewall_vars := mkFirewallVars {
  fw_ret : FirewallProbe;
  fw_seen : gmap string bool
}.

(** One iteration of the receive loop of [probeFirewall]. *)
Definition firewall_receive (d : datagram) (v : firewall_vars) : firewall_vars :=
  if negb (Z.of_nat (length (payload d)) =? 18) then v
  else if negb (get_bool (fw_seen v) (UDPAddr_String (source d))) then
    {| fw_ret := {| FLocal := FLocal (fw_ret v);
                    FRemote := FRemote (fw_ret v);
                    Received := Received (fw_ret v) ++ [source d] |};
       fw_seen := <[UDPAddr_String (source d) := true]> (fw_seen v) |}
  else v.

(** [probeFirewall]: [dest] is what the working-address channel delivers
    (nil once it is closed empty), [listen] the local address of the socket
    ([None] when [net.ListenUDP] fails); the reads of the socket deliver
    [reads] and then fail with [final].  [None] stands for [nil, err]. *)
Definition probeFirewall (dest : option UDPAddr) (listen : option UDPAddr)
    (reads : list datagram) (final : read_error) : option FirewallProbe :=
  match dest with
  | None => None
  | Some dest =>
      match listen with
      | None => None
      | Some conn_local =>
          let v := foldl (fun v d => firewall_receive d v)
                     {| fw_ret := {| FLocal := copyUDPAddr conn_local;
                                     FRemote := copyUDPAddr dest;
                                     Received := [] |};
                        fw_seen := ∅ |} reads in
          match final with
          | ReadTimeout => Some (fw_ret v)
          | ReadFailed => None
          end
      end
  end.

(** ** Recording each answer once *)

(** A datagram of the length of a reflection. *)
Definition is_reflection (d : datagram) : bool := Z.of_nat (length (payload d)) =? 18.

(** The record [probeOneMapping] makes of a reflection read on the socket
    bound to [conn_local]. *)
Definition probe_of (conn_local : UDPAddr) (d : datagram) : MappingProbe :=
  {| Local := copyUDPAddr conn_local;
     Mapped := Some (copyUDPAddr (decode_mapped (payload d)));
     Remote := copyUDPAddr (source d);
     Timeout := false |}.

(** After the datagrams [processed], the list [ret] holds the item of every
    reflection among them, once per key and in the order of first arrival,
    and [seen] holds the keys of [ret]. *)
Definition recorded_once {B : Type} (item : datagram → B) (keyf : B → string)
    (processed : list datagram) (seen : gmap string bool) (ret : list B) : Prop :=
  (∀ k, get_bool seen k = true ↔ k ∈ map keyf ret)
  ∧ NoDup (map keyf ret)
  ∧ (∀ p, p ∈ ret → ∃ d, d ∈ processed ∧ is_reflection d = true ∧ p = item d)
  ∧ (∀ d, d ∈ processed → is_reflection d = true → keyf (item d) ∈ map keyf ret)
  ∧ ret `sublist_of` map item (List.filter is_reflection processed).

(** ** The probe as a whole *)

(** The addresses a mapping socket offers on the working-address channel:
    the remote address of every record it makes, in order. *)
Definition offers (s : socket_run) : list UDPAddr :=
  map Remote
    (ret (foldl (fun v d => receive (conn_local s) d v)
            {| seenByDest := ∅; ret := []; seen := ∅ |} (reads s))).

(** What [probeFirewall] receives from the channel: the first address that
    some socket offered, or nil when [probeMapping] closes the channel
    before any offer. *)
Inductive working_address (sockets : list socket_run) : option UDPAddr → Prop :=
  | working_none :
      Forall (fun s => offers s = []) sockets → working_address sockets None
  | working_first (s : socket_run) (a : UDPAddr) (rest : list UDPAddr) :
      s ∈ sockets → offers s = a :: rest → working_address sockets (Some a).

(** What a run of [Probe] meets: the outcome of [net.InterfaceAddrs] (an
    address that is a [*net.IPNet] is [Some] of its IP), the resolver, the
    mapping sockets in the order in which they report on [done], what the
    working-address channel delivers, and the socket of the firewall
    prober. *)
Record probe_env := mkProbeEnv {
  env_interface_addrs : option (list (option net_IP));
  env_lookup : string → option (list net_IP);
  env_sockets : nat → socket_run;
  env_working : option UDPAddr;
  env_fw_listen : option UDPAddr;
  env_fw_reads : list datagram;
  env_fw_final : read_error
}.

(** [&Options{}]. *)
Definition Options_zero : Options :=
  {| ServerAddrs := []; Ports := []; ResolveDuration := 0; MappingDuration := 0;
     MappingTransmitInterval := 0; MappingSockets := 0; FirewallDuration := 0;
     FirewallTransmitInterval := 0 |}.

(** The loop of [Probe] over the interface addresses. *)
Definition Probe_localIPs (addrs : list (option net_IP)) : list net_IP :=
  foldl (fun localIPs addr =>
           match addr with
           | Some ip =>
               if negb (Z.of_nat (length (To4 ip)) =? 0) then localIPs ++ [ip]
               else localIPs
           | None => localIPs
           end) [] addrs.

(** The options [Probe] works with. *)
Definition Probe_opts (opts : option Options) : Options :=
  addDefaults (default Options_zero opts).

(** The mapping sockets of a run: [for i := 0; i < sockets; i++]. *)
Definition Probe_sockets (env : probe_env) (opts : option Options) : list socket_run :=
  map (env_sockets env) (seq 0 (Z.to_nat (MappingSockets (Probe_opts opts)))).

(** [Probe]; [None] stands for [nil, err]. *)
Definition Probe (env : probe_env) (opts : option Options) : option Result :=
  let o := Probe_opts opts in
  match env_interface_addrs env with
  | None => None
  | Some addrs =>
      let localIPs := Probe_localIPs addrs in
      match resolveServerAddrs (env_lookup env) (ServerAddrs o) with
      | None => None
      | Some ips =>
          let dests := dests ips (Ports o) in
          let firewall :=
            probeFirewall (env_working env) (env_fw_listen env) (env_fw_reads env)
              (env_fw_final env) in
          match probeMapping dests (Probe_sockets env opts) with
          | None => None
          | Some probes =>
              match firewall with
              | None => None
              | Some firewall =>
                  Some {| LocalIPs := localIPs;
                          MappingProbes := probes;
                          FirewallProbes := Some firewall |}
              end
          end
      end
  end.

(** A run in which one server answers every socket once. *)
Definition answering_server : UDPAddr := {| IP := [x08; x08; x08; x08]; Port := 80 |}.

Definition answered_env : probe_env :=
  {| env_interface_addrs := Some [Some [xc0; xa8; x00; x02]; None];
     env_lookup := fun _ => Some [[x08; x08; x08; x08]];
     env_sockets := fun i =>
       {| conn_local := {| IP := [x00; x00; x00; x00]; Port := 40000 + Z.of_nat i |};
          reads := [ {| payload := IPv4 xcb x00 x71 x01 ++ [x9c; x40];
                        source := answering_server |} ];
          final := ReadTimeout |};
     env_working := Some answering_server;
     env_fw_listen := Some {| IP := [x00; x00; x00; x00]; Port := 40100 |};
     env_fw_reads := [];
     env_fw_final := ReadTimeout |}.

(** ** The server's ports *)

(** [strings.Split(s, sep)] for a separator of one character. *)
Fixpoint Split (s : string) (sep : ascii) : list string :=
  match s with
  | EmptyString => [""]
  | String c s' =>
      if Ascii.eqb c sep then "" :: Split s' sep
      else match Split s' sep with
           | field :: fields => String c field :: fields
           | [] => [String c ""]
           end
  end.

(** The digits of [strconv.Atoi]: [n = n*10 + int(ch - '0')], and a syntax
    error on any other character. *)
Fixpoint Atoi_digits (s : string) (n : Z) : option Z :=
  match s with
  | EmptyString => Some n
  | String ch s' =>
      let d := Z.of_nat (nat_of_ascii ch) - 48 in
      if (0 <=? d) && (d <=? 9) then Atoi_digits s' (n * 10 + d) else None
  end.

(** [strconv.Atoi] on a 64-bit platform: an optional sign and at least one
    decimal digit; [None] for a syntax error and for a value out of the
    range of [int]. *)
Definition Atoi (s : string) : option Z :=
  match s with
  | EmptyString => None
  | String c rest =>
      let digits := if Ascii.eqb c "-" || Ascii.eqb c "+" then rest else s in
      match digits with
      | EmptyString => None
      | String _ _ =>
          match Atoi_digits digits 0 with
          | None => None
          | Some n =>
              let n := if Ascii.eqb c "-" then - n else n in
              if (- 2 ^ 63 <=? n) && (n <=? 2 ^ 63 - 1) then Some n else None
          end
      end
  end.

Fixpoint parsePorts_loop (fields : list string) (ret : list Z) : option (list Z) :=
  match fields with
  | [] => Some ret
  | port :: rest =>
      match Atoi port with
      | None => None
      | Some i => parsePorts_loop rest (ret ++ [i])
      end
  end.

(** [parsePorts], over the value of the [-ports] flag; [None] stands for
    [nil, err]. *)
Definition parsePorts (ports : string) : option (list Z) :=
  if String.eqb ports "" then Some internal.Ports
  else parsePorts_loop (Split ports ","%char) [].

(** ** Renaming the IPs of a result *)

(** An IPv4 address, in either form, or no address. *)
Definition v4_or_empty (ip : net_IP) : Prop := ip = [] ∨ is_IPv4 ip.

(** [f] renames the addresses [D] faithfully: it yields IPv4 addresses,
    keeps the empty address and yields no other empty one, and lets
    [IP.Equal] tell apart exactly the addresses it told apart. *)
Definition renames (f : net_IP → net_IP) (D : list net_IP) : Prop :=
  (∀ x, x ∈ D → v4_or_empty (f x) ∧ (f x = [] ↔ x = []))
  ∧ (∀ x y, x ∈ D → y ∈ D → IP_Equal (f x) (f y) = IP_Equal x y).

(** The characters of a dotted decimal. *)
Definition dotted_alphabet : string := "0123456789.".

(** ** The command *)

(** What [run] writes to standard output, in order, and how it ends.
    [format] and the three flags are the values of [--format],
    [--anonymize-results], [--print-results] and [--print-analysis];
    [probe] is the outcome of [client.Probe]; [json_Result] and
    [json_Analysis] stand for [json.MarshalIndent] on a result and on an
    analysis.  [fmt.Println] writes the text of its argument and a newline. *)
Definition run (format : string) (anonymize_results print_results print_analysis : bool)
    (json_Result : Result → string) (json_Analysis : Analysis → string)
    (probe : option Result) : list string * outcome unit :=
  let printer :=
    if String.eqb format "text" then
      Some (fun r => Result_String r +:+ nl, fun a => Analysis_String a +:+ nl)
    else if String.eqb format "json" then
      Some (fun r => json_Result r +:+ nl, fun a => json_Analysis a +:+ nl)
    else None in
  match printer with
  | None => ([], Failed)
  | Some (print_Result, print_Analysis) =>
      match probe with
      | None => ([], Failed)
      | Some result =>
          match (if anonymize_results then Anonymize result else Some result) with
          | None => ([], Panicked)
          | Some result =>
              let out := if print_results then [print_Result result] else [] in
              if print_analysis then
                match Analyze result with
                | None => (out, Panicked)
                | Some a => (out ++ [print_Analysis a], Returned tt)
                end
              else (out, Returned tt)
          end
      end
  end.

(** ** One exchange with the server *)

(** The reply of [handle] to the datagram [buf] that came in from [addr] on
    the connection bound to [myaddr], as the client's read delivers it:
    the payload, and as its source the address of the connection it was
    sent from.  [None] when no reply is sent. *)
Definition handle_datagram (conns : list UDPAddr) (myaddr : UDPAddr) (buf : list byte)
    (addr : UDPAddr) : option datagram :=
  match Server.handle_payload buf addr with
  | None => None
  | Some reply =>
      match respConn conns myaddr buf with
      | None => None
      | Some i =>
          match conns !! i with
          | None => None
          | Some uaddr => Some {| payload := reply; source := uaddr |}
          end
      end
  end.

(** ** The lines of a text *)

Fixpoint count_lines (s : string) : nat :=
  match s with
  | EmptyString => O
  | String c s' => (if Ascii.eqb c "010" then 1 else 0) + count_lines s'
  end.

(** A run that is asked for a negative number of sockets. *)
Definition negative_sockets_options : Options :=
  {| ServerAddrs := []; Ports := []; ResolveDuration := 0; MappingDuration := 0;
     MappingTransmitInterval := 0; MappingSockets := -1; FirewallDuration := 0;
     FirewallTransmitInterval := 0 |}.

Definition unanswered_env : probe_env :=
  {| env_interface_addrs := Some [Some [xc0; xa8; x00; x02]];
     env_lookup := fun _ => Some [[x08; x08; x08; x08]];
     env_sockets := fun i =>
       {| conn_local := {| IP := [x00; x00; x00; x00]; Port := 40000 + Z.of_nat i |};
          reads := [];
          final := ReadTimeout |};
     env_working := None;
     env_fw_listen := Some {| IP := [x00; x00; x00; x00]; Port := 40100 |};
     env_fw_reads := [];
     env_fw_final := ReadTimeout |}.

(** * Properties *)

(** ** Textual forms, on examples *)

Example IP_String_v4 : IP_String [x08; x08; x08; x08] = "8.8.8.8".
Proof. reflexivity. Qed.

Example IP_String_v4in6 : IP_String (IPv4 xc0 xa8 x00 x01) = "192.168.0.1".
Proof. reflexivity. Qed.

Example IP_String_v6 :
  IP_String [x20; x01; x0d; xb8; x00; x00; x00; x00; x00; x00; x00; x00; x00; x00; x00; x01]
  = "2001:db8::1".
Proof. reflexivity. Qed.

Example IP_String_v6_unspec : IP_String IPv6unspecified = "::".
Proof. reflexivity. Qed.

Example IP_String_v6_tail :
  IP_String [xfe; x80; x00; x00; x00; x00; x00; x00; x00; x01; x00; x00; x00; x00; x00; x00]
  = "fe80::1:0:0:0".
Proof. reflexivity. Qed.

Example UDPAddr_String_v4 :
  UDPAddr_String {| IP := [x08; x08; x08; x08]; Port := 443 |} = "8.8.8.8:443".
Proof. reflexivity. Qed.

Example UDPAddr_String_v6 :
  UDPAddr_String {| IP := IPv6unspecified; Port := 80 |} = "[::]:80".
Proof. reflexivity. Qed.

Example UDPAddr_String_noip :
  UDPAddr_String {| IP := []; Port := 0 |} = ":0".
Proof. reflexivity. Qed.

(** ** Firewall predicates *)

(** C3. With no firewall probe both predicates are false; with one,
    [firewallEnforcesDestIP] holds exactly when every received endpoint has
    an IP equal to the probed remote's, [firewallEnforcesDestPort] exactly
    when every received endpoint has the probed remote's port, and both
    hold when nothing was received. *)
Theorem firewallEnforces_spec (localIPs : list net_IP) (probes : list MappingProbe) :
  (firewallEnforcesDestIP (mkResult localIPs probes None) = false
   ∧ firewallEnforcesDestPort (mkResult localIPs probes None) = false)
  ∧ ∀ fw : FirewallProbe,
      (firewallEnforcesDestIP (mkResult localIPs probes (Some fw)) = true
       ↔ Forall (fun recv => IP_Equal (IP recv) (IP (FRemote fw)) = true) (Received fw))
      ∧ (firewallEnforcesDestPort (mkResult localIPs probes (Some fw)) = true
         ↔ Forall (fun recv => Port recv = Port (FRemote fw)) (Received fw))
      ∧ (Received fw = [] →
         firewallEnforcesDestIP (mkResult localIPs probes (Some fw)) = true
         ∧ firewallEnforcesDestPort (mkResult localIPs probes (Some fw)) = true).
Proof.
  split; [split; reflexivity|].
  intros fw. unfold firewallEnforcesDestIP, firewallEnforcesDestPort. simpl.
  split; [|split].
  - rewrite forallb_forall, Forall_forall.
    split; intros H recv Hin; apply H; by apply list_elem_of_In.
  - rewrite forallb_forall, Forall_forall.
    split; intros H recv Hin; [apply Z.eqb_eq|apply Z.eqb_eq]; apply H;
      by apply list_elem_of_In.
  - intros ->. split; reflexivity.
Qed.

(** ** No data and no NAT *)

Lemma noData_true_iff (r : Result) :
  noData r = true ↔ Forall (fun p => Timeout p = true) (MappingProbes r).
Proof.
  unfold noData. destruct (MappingProbes r) as [|p ps] eqn:E.
  - simpl. split; [constructor|reflexivity].
  - change (Z.of_nat (length (p :: ps)) =? 0) with false. cbv iota.
    rewrite forallb_forall, Forall_forall.
    split; intros H x Hin; apply H; by apply list_elem_of_In.
Qed.

Lemma noNAT_loop_timeouts (m : gmap string bool) (ps : list MappingProbe) :
  Forall (fun p => Timeout p = true) ps → noNAT_loop m ps = Some true.
Proof.
  induction 1 as [|p ps Hp _ IH]; simpl; [reflexivity|]. by rewrite Hp.
Qed.

Lemma mappingVariesByDestIP_loop_timeouts ps local remoteIP mappedIP mappedPort :
  Forall (fun p => Timeout p = true) ps →
  mappingVariesByDestIP_loop ps local remoteIP mappedIP mappedPort = Some false.
Proof.
  induction 1 as [|p ps Hp _ IH]; simpl; [reflexivity|]. by rewrite Hp.
Qed.

Lemma mappingVariesByDestPort_loop_timeouts ps local remotePort mappedIP mappedPort :
  Forall (fun p => Timeout p = true) ps →
  mappingVariesByDestPort_loop ps local remotePort mappedIP mappedPort = Some false.
Proof.
  induction 1 as [|p ps Hp _ IH]; simpl; [reflexivity|]. by rewrite Hp.
Qed.

Lemma mappingPreservesSourcePort_loop_timeouts ps total preserved :
  Forall (fun p => Timeout p = true) ps →
  mappingPreservesSourcePort_loop ps total preserved = Some (total, preserved).
Proof.
  induction 1 as [|p ps Hp _ IH]; simpl; [reflexivity|]. by rewrite Hp.
Qed.

Lemma multiplePublicIPs_loop_timeouts (m : gmap string bool) ps :
  Forall (fun p => Timeout p = true) ps → multiplePublicIPs_loop m ps = Some m.
Proof.
  induction 1 as [|p ps Hp _ IH]; simpl; [reflexivity|]. by rewrite Hp.
Qed.

(** C10. When every mapping probe is a timeout (in particular when there
    is none), [noData] is true, [noNAT] is true, and [Analyze] returns an
    analysis with both [NoData] and [NoNAT] set. *)
Theorem Analyze_no_data_no_nat (r : Result)
    (Hall : Forall (fun p => Timeout p = true) (MappingProbes r)) :
  noData r = true
  ∧ noNAT r = Some true
  ∧ ∃ a : Analysis, Analyze r = Some a ∧ NoData a = true ∧ NoNAT a = true.
Proof.
  assert (Hnd : noData r = true) by by apply noData_true_iff.
  assert (Hnn : noNAT r = Some true) by by apply noNAT_loop_timeouts.
  split; [exact Hnd|]. split; [exact Hnn|].
  unfold Analyze. rewrite Hnn. simpl.
  unfold mappingVariesByDestIP, mappingVariesByDestPort,
    mappingPreservesSourcePort, multiplePublicIPs.
  rewrite mappingVariesByDestIP_loop_timeouts, mappingVariesByDestPort_loop_timeouts,
    mappingPreservesSourcePort_loop_timeouts, multiplePublicIPs_loop_timeouts by done.
  simpl. eexists. split; [reflexivity|]. simpl. by rewrite Hnd.
Qed.

Lemma Analyze_no_data_no_nat_witness :
  noData all_timeouts_example = true
  ∧ noNAT all_timeouts_example = Some true
  ∧ ∃ a : Analysis,
      Analyze all_timeouts_example = Some a ∧ NoData a = true ∧ NoNAT a = true.
Proof.
  apply (Analyze_no_data_no_nat all_timeouts_example).
  repeat constructor.
Defined.

(** ** Filtered egress ports *)

Lemma get_bool_insert `{Countable K} (m : gmap K bool) (k k' : K) :
  get_bool (<[k := true]> m) k' = true ↔ k = k' ∨ get_bool m k' = true.
Proof.
  unfold get_bool. destruct (decide (k = k')) as [->|Hne].
  - rewrite lookup_insert_eq. simpl. tauto.
  - rewrite lookup_insert_ne by done. split; [tauto|]. by intros [?|?].
Qed.

Lemma get_bool_empty `{Countable K} (k : K) : get_bool (∅ : gmap K bool) k = false.
Proof. unfold get_bool. by rewrite lookup_empty. Qed.

Lemma filteredEgress_working_from (ps : list MappingProbe) (m : gmap Z bool) (p : Z) :
  get_bool (foldl (fun working probe =>
                     if negb (Timeout probe) then <[Port (Remote probe) := true]> working
                     else working) m ps) p = true
  ↔ get_bool m p = true
    ∨ ∃ probe, probe ∈ ps ∧ Timeout probe = false ∧ Port (Remote probe) = p.
Proof.
  revert m. induction ps as [|q ps IH]; intros m; simpl.
  - split; [tauto|]. intros [?|(probe & Hin & _)]; [done|]. by apply elem_of_nil in Hin.
  - rewrite IH. destruct (Timeout q) eqn:Hq; simpl.
    + split.
      * intros [?|(probe & Hin & ?)]; [tauto|]. right. exists probe.
        split; [by apply elem_of_cons; right|done].
      * intros [?|(probe & Hin & Ht & Hp)]; [tauto|].
        apply elem_of_cons in Hin as [->|Hin]; [congruence|].
        right. by exists probe.
    + rewrite get_bool_insert. split.
      * intros [ [ <- | ? ] | (probe & Hin & ?) ]; [|tauto|].
        -- right. exists q. split; [by apply elem_of_cons; left|done].
        -- right. exists probe. split; [by apply elem_of_cons; right|done].
      * intros [?|(probe & Hin & Ht & Hp)]; [tauto|].
        apply elem_of_cons in Hin as [->|Hin]; [tauto|].
        right. by exists probe.
Qed.

Lemma filteredEgress_working_spec (ps : list MappingProbe) (p : Z) :
  get_bool (filteredEgress_working ps) p = true
  ↔ ∃ probe, probe ∈ ps ∧ Timeout probe = false ∧ Port (Remote probe) = p.
Proof.
  unfold filteredEgress_working. rewrite filteredEgress_working_from, get_bool_empty.
  split; [by intros [?|?]|tauto].
Qed.

Lemma filteredEgress_loop_elem_of (ps : list MappingProbe) (working : gmap Z bool)
    (acc : list Z) (p : Z) :
  p ∈ filteredEgress_loop ps working acc
  ↔ p ∈ acc
    ∨ (get_bool working p = false
       ∧ ∃ probe, probe ∈ ps ∧ Timeout probe = true ∧ Port (Remote probe) = p).
Proof.
  revert working acc. induction ps as [|q ps IH]; intros working acc; simpl.
  - split; [tauto|]. intros [?|(_ & probe & Hin & _)]; [done|]. by apply elem_of_nil in Hin.
  - destruct (Timeout q && negb (get_bool working (Port (Remote q)))) eqn:Hc.
    + apply andb_true_iff in Hc as [Hq Hw]. apply negb_true_iff in Hw.
      rewrite IH, elem_of_app, list_elem_of_singleton. split.
      * intros [ [ ? | -> ] | (Hg & probe & Hin & Ht & Hp) ]; [tauto| |].
        -- right. split; [done|]. exists q. split; [by apply elem_of_cons; left|done].
        -- destruct (decide (Port (Remote q) = p)) as [Heq|Hne].
           ++ exfalso. assert (get_bool (<[Port (Remote q):=true]> working) p = true)
                by (apply get_bool_insert; tauto). congruence.
           ++ right. split.
              ** destruct (get_bool working p) eqn:Hgp; [|done].
                 assert (get_bool (<[Port (Remote q):=true]> working) p = true)
                   by (apply get_bool_insert; tauto). congruence.
              ** exists probe. split; [by apply elem_of_cons; right|done].
      * intros [?|(Hg & probe & Hin & Ht & Hp)]; [tauto|].
        destruct (decide (Port (Remote q) = p)) as [Heq|Hne]; [left; by right|].
        apply elem_of_cons in Hin as [->|Hin]; [done|].
        right. split.
        -- destruct (get_bool (<[Port (Remote q):=true]> working) p) eqn:Hgp; [|done].
           apply get_bool_insert in Hgp as [?|?]; congruence.
        -- by exists probe.
    + rewrite IH. apply andb_false_iff in Hc. split.
      * intros [?|(Hg & probe & Hin & Ht & Hp)]; [tauto|].
        right. split; [done|]. exists probe. split; [by apply elem_of_cons; right|done].
      * intros [?|(Hg & probe & Hin & Ht & Hp)]; [tauto|].
        apply elem_of_cons in Hin as [->|Hin].
        -- destruct Hc as [?|Hc]; [congruence|]. apply negb_false_iff in Hc. congruence.
        -- right. split; [done|]. by exists probe.
Qed.

Lemma filteredEgress_loop_NoDup (ps : list MappingProbe) (working : gmap Z bool)
    (acc : list Z) :
  NoDup acc → (∀ p, p ∈ acc → get_bool working p = true) →
  NoDup (filteredEgress_loop ps working acc).
Proof.
  revert working acc. induction ps as [|q ps IH]; intros working acc Hnd Hacc; simpl.
  - done.
  - destruct (Timeout q && negb (get_bool working (Port (Remote q)))) eqn:Hc.
    + apply andb_true_iff in Hc as [Hq Hw]. apply negb_true_iff in Hw.
      apply IH.
      * apply NoDup_app. split; [done|]. split; [|apply NoDup_singleton].
        intros x Hx Hx'. apply list_elem_of_singleton in Hx' as ->.
        apply Hacc in Hx. congruence.
      * intros p Hp. apply get_bool_insert.
        apply elem_of_app in Hp as [Hp|Hp]; [right; by apply Hacc|].
        apply list_elem_of_singleton in Hp. by left.
    + by apply IH.
Qed.

(** C4. [filteredEgress] is sorted in ascending order, has no duplicates,
    and holds exactly the remote ports that some mapping probe targets and
    on which every mapping probe is a timeout. *)
Theorem filteredEgress_spec (r : Result) :
  Sorted Z.le (filteredEgress r)
  ∧ NoDup (filteredEgress r)
  ∧ ∀ p : Z,
      p ∈ filteredEgress r
      ↔ (∃ probe, probe ∈ MappingProbes r ∧ Port (Remote probe) = p)
        ∧ (∀ probe, probe ∈ MappingProbes r → Port (Remote probe) = p →
           Timeout probe = true).
Proof.
  unfold filteredEgress, sort_Ints. split; [|split].
  - apply Sorted_merge_sort. apply _.
  - rewrite merge_sort_Permutation.
    apply filteredEgress_loop_NoDup; [apply NoDup_nil_2|].
    intros p Hp. by apply elem_of_nil in Hp.
  - intros p. rewrite merge_sort_Permutation, filteredEgress_loop_elem_of.
    split.
    + intros [Hp|(Hw & probe & Hin & Ht & Hp)]; [by apply elem_of_nil in Hp|].
      split; [by exists probe|].
      intros probe' Hin' Hp'. destruct (Timeout probe') eqn:Ht'; [done|].
      assert (get_bool (filteredEgress_working (MappingProbes r)) p = true)
        by (apply filteredEgress_working_spec; by exists probe').
      congruence.
    + intros [(probe & Hin & Hp) Hall]. right. split.
      * destruct (get_bool (filteredEgress_working (MappingProbes r)) p) eqn:Hw; [|done].
        apply filteredEgress_working_spec in Hw as (probe' & Hin' & Ht' & Hp').
        rewrite (Hall probe' Hin' Hp') in Ht'. done.
      * exists probe. split; [done|]. split; [by apply Hall|done].
Qed.

(** ** Mapping varies by destination *)

Lemma JoinHostPort_nonempty (host port : string) : JoinHostPort host port ≠ "".
Proof.
  unfold JoinHostPort. destruct (has_colon host); [discriminate|].
  destruct host; discriminate.
Qed.

Lemma UDPAddr_String_nonempty (a : UDPAddr) :
  String.eqb (UDPAddr_String a) "" = false.
Proof. apply String.eqb_neq, JoinHostPort_nonempty. Qed.

Lemma replies_cons_timeout (p : MappingProbe) (ps : list MappingProbe) :
  Timeout p = true → replies (p :: ps) = replies ps.
Proof. intros H. unfold replies, reply_of. simpl. by rewrite H. Qed.

Lemma replies_cons_reply (p : MappingProbe) (m : UDPAddr) (ps : list MappingProbe) :
  Timeout p = false → Mapped p = Some m →
  replies (p :: ps) = (Local p, m, Remote p) :: replies ps.
Proof. intros H Hm. unfold replies, reply_of. simpl. by rewrite H, Hm. Qed.

Lemma mappingVariesByDestIP_loop_anchored (ps : list MappingProbe) (a : anchor) :
  Forall mapped_if_replied ps →
  mappingVariesByDestIP_loop ps (UDPAddr_String (anchor_local a)) (anchor_axis a)
    (anchor_mapped_ip a) (anchor_mapped_port a)
  = Some (spec_scan IP IP_Equal (Some a) (replies ps)).
Proof.
  intros Hwf. revert a. induction Hwf as [|p ps Hp _ IH]; intros a; [reflexivity|].
  cbn [mappingVariesByDestIP_loop mappingVariesByDestPort_loop]. destruct (Timeout p) eqn:Ht.
  - rewrite replies_cons_timeout by done. apply IH.
  - destruct (Hp Ht) as [m Hm]. rewrite (replies_cons_reply p m) by done.
    rewrite Hm. simpl. unfold same_endpoint.
    destruct (String.eqb (UDPAddr_String (Local p)) (UDPAddr_String (anchor_local a))); simpl.
    + destruct (IP_Equal (IP (Remote p)) (anchor_axis a)); [apply IH|].
      destruct (negb (IP_Equal (IP m) (anchor_mapped_ip a))
                || negb (Port m =? anchor_mapped_port a)); [reflexivity|apply IH].
    + apply (IH (anchor_at IP (Local p, m, Remote p))).
Qed.

Lemma mappingVariesByDestIP_loop_initial (ps : list MappingProbe)
    (remoteIP mappedIP : net_IP) (mappedPort : Z) :
  Forall mapped_if_replied ps →
  mappingVariesByDestIP_loop ps "" remoteIP mappedIP mappedPort
  = Some (spec_scan IP IP_Equal None (replies ps)).
Proof.
  induction 1 as [|p ps Hp Hwf IH]; [reflexivity|].
  cbn [mappingVariesByDestIP_loop mappingVariesByDestPort_loop]. destruct (Timeout p) eqn:Ht.
  - rewrite replies_cons_timeout by done. apply IH.
  - destruct (Hp Ht) as [m Hm]. rewrite (replies_cons_reply p m) by done.
    rewrite UDPAddr_String_nonempty, Hm. simpl.
    apply (mappingVariesByDestIP_loop_anchored ps (anchor_at IP (Local p, m, Remote p)) Hwf).
Qed.

Lemma mappingVariesByDestPort_loop_anchored (ps : list MappingProbe) (a : anchor) :
  Forall mapped_if_replied ps →
  mappingVariesByDestPort_loop ps (UDPAddr_String (anchor_local a)) (anchor_axis a)
    (anchor_mapped_ip a) (anchor_mapped_port a)
  = Some (spec_scan Port Z.eqb (Some a) (replies ps)).
Proof.
  intros Hwf. revert a. induction Hwf as [|p ps Hp _ IH]; intros a; [reflexivity|].
  cbn [mappingVariesByDestIP_loop mappingVariesByDestPort_loop]. destruct (Timeout p) eqn:Ht.
  - rewrite replies_cons_timeout by done. apply IH.
  - destruct (Hp Ht) as [m Hm]. rewrite (replies_cons_reply p m) by done.
    rewrite Hm. simpl. unfold same_endpoint.
    destruct (String.eqb (UDPAddr_String (Local p)) (UDPAddr_String (anchor_local a))); simpl.
    + destruct (Port (Remote p) =? anchor_axis a); [apply IH|].
      destruct (negb (IP_Equal (IP m) (anchor_mapped_ip a))
                || negb (Port m =? anchor_mapped_port a)); [reflexivity|apply IH].
    + apply (IH (anchor_at Port (Local p, m, Remote p))).
Qed.

Lemma mappingVariesByDestPort_loop_initial (ps : list MappingProbe)
    (remotePort : Z) (mappedIP : net_IP) (mappedPort : Z) :
  Forall mapped_if_replied ps →
  mappingVariesByDestPort_loop ps "" remotePort mappedIP mappedPort
  = Some (spec_scan Port Z.eqb None (replies ps)).
Proof.
  induction 1 as [|p ps Hp Hwf IH]; [reflexivity|].
  cbn [mappingVariesByDestIP_loop mappingVariesByDestPort_loop]. destruct (Timeout p) eqn:Ht.
  - rewrite replies_cons_timeout by done. apply IH.
  - destruct (Hp Ht) as [m Hm]. rewrite (replies_cons_reply p m) by done.
    rewrite UDPAddr_String_nonempty, Hm. simpl.
    apply (mappingVariesByDestPort_loop_anchored ps (anchor_at Port (Local p, m, Remote p)) Hwf).
Qed.

(** C2. On a result whose non-timeout probes carry their mapped endpoint,
    [mappingVariesByDestIP] and [mappingVariesByDestPort] return what the
    anchor scan of the specification computes over the non-timeout probes,
    with the remote IP, respectively the remote port, as the axis. *)
Theorem mappingVariesByDest_refines_spec (r : Result)
    (Hwf : Forall mapped_if_replied (MappingProbes r)) :
  mappingVariesByDestIP r = Some (spec_mapping_varies_by_dest_ip r)
  ∧ mappingVariesByDestPort r = Some (spec_mapping_varies_by_dest_port r).
Proof.
  split.
  - by apply mappingVariesByDestIP_loop_initial.
  - by apply mappingVariesByDestPort_loop_initial.
Qed.

Lemma two_sockets_example_wf : Forall mapped_if_replied (MappingProbes two_sockets_example).
Proof.
  repeat constructor; unfold mapped_if_replied; simpl; intros; by eauto.
Defined.

Lemma mappingVariesByDest_refines_spec_witness :
  Forall mapped_if_replied (MappingProbes two_sockets_example)
  ∧ mappingVariesByDestIP two_sockets_example = Some true
  ∧ mappingVariesByDestPort two_sockets_example = Some false.
Proof.
  split; [exact two_sockets_example_wf|].
  exact (mappingVariesByDest_refines_spec two_sockets_example two_sockets_example_wf).
Defined.

(** ** Bytes *)

Lemma byte_val_range (b : byte) : 0 ≤ byte_val b < 256.
Proof.
  unfold byte_val. pose proof (Byte.to_N_bounded b) as H. lia.
Qed.

Lemma byte_val_of_Z (z : Z) : byte_val (byte_of_Z z) = z mod 256.
Proof.
  unfold byte_val, byte_of_Z.
  pose proof (Z.mod_pos_bound z 256 eq_refl) as Hr.
  destruct (Byte.of_N (Z.to_N (z mod 256))) as [b|] eqn:E.
  - apply Byte.to_of_N in E. rewrite E. lia.
  - apply Byte.of_N_None_iff in E. lia.
Qed.

Lemma byte_of_Z_val (b : byte) : byte_of_Z (byte_val b) = b.
Proof.
  unfold byte_of_Z, byte_val. pose proof (Byte.to_N_bounded b) as H.
  rewrite Z.mod_small by lia. rewrite N2Z.id. by rewrite Byte.of_to_N.
Qed.

Lemma byte_val_inj (x y : byte) : byte_val x = byte_val y → x = y.
Proof. intros H. rewrite <- (byte_of_Z_val x), <- (byte_of_Z_val y). by rewrite H. Qed.

Lemma byte_eqb_eq (x y : byte) : byte_eqb x y = true ↔ x = y.
Proof. unfold byte_eqb. split; [apply Byte.byte_dec_bl|apply Byte.byte_dec_lb]. Qed.

(** ** The transmitter *)

Lemma transmit_step_cycle_byte0 (req : list byte) :
  (0 < length req)%nat →
  byte0 (transmit_step true req) = ((byte0 req + 1) mod 256) mod 4.
Proof.
  intros Hlen. unfold transmit_step, byte0, byte_inc.
  destruct req as [|b req]; [simpl in Hlen; lia|]. simpl.
  rewrite !byte_val_of_Z.
  pose proof (Z.mod_pos_bound ((byte_val b + 1) mod 256) 4 eq_refl).
  rewrite (Z.mod_small _ 256); lia.
Qed.

Lemma transmit_step_length (cycle : bool) (req : list byte) :
  length (transmit_step cycle req) = length req.
Proof. unfold transmit_step. destruct cycle; [apply length_insert|reflexivity]. Qed.

Lemma transmit_from_cycle_byte0 (dest : UDPAddr) (n : nat) (req : list byte) :
  (0 < length req)%nat → 0 ≤ byte0 req < 4 →
  map (fun tx => byte0 tx.2) (transmit_from true req (replicate n dest))
  = map (fun k => (byte0 req + 1 + Z.of_nat k) mod 4) (seq 0 n).
Proof.
  revert req. induction n as [|n IH]; intros req Hlen Hb; [reflexivity|].
  cbn [replicate transmit_from map seq snd]. f_equal.
  - rewrite transmit_step_cycle_byte0 by done. simpl.
    rewrite (Z.mod_small _ 256) by lia. f_equal. lia.
  - rewrite IH.
    + rewrite <- fmap_S_seq. rewrite <- list_fmap_compose.
      apply list_fmap_ext. intros _ k _. unfold compose.
      rewrite transmit_step_cycle_byte0 by done.
      rewrite (Z.mod_small _ 256) by lia.
      rewrite Nat2Z.inj_succ, <- Z.add_assoc, Z.add_mod_idemp_l by lia.
      f_equal. lia.
    + by rewrite transmit_step_length.
    + rewrite transmit_step_cycle_byte0 by done.
      apply Z.mod_pos_bound. lia.
Qed.

Lemma transmit_from_length (cycle : bool) (req : list byte) (turns : list UDPAddr) :
  Forall (fun tx => length tx.2 = length req) (transmit_from cycle req turns).
Proof.
  revert req. induction turns as [|d turns IH]; intros req; simpl; constructor.
  - apply transmit_step_length.
  - simpl. rewrite <- (transmit_step_length cycle req). apply IH.
Qed.

Lemma transmit_from_no_cycle (req : list byte) (turns : list UDPAddr) :
  Forall (fun tx => tx.2 = req) (transmit_from false req turns).
Proof.
  induction turns as [|d turns IH]; simpl; constructor; [reflexivity|exact IH].
Qed.

(** C6, as the code has it.  In the firewall phase (one destination, with
    cycling) the [k]-th frame written, counting from zero, has byte 0 equal
    to [(k + 1) mod 4]: 1, 2, 3, 0, 1, ...; every frame is 180 bytes long;
    in the mapping phase (no cycling) every frame written is all zeros,
    whatever the order in which the transmitters take their turns. *)
Theorem transmit_byte0_spec (dest : UDPAddr) (n : nat) (turns : list UDPAddr) :
  map (fun tx => byte0 tx.2) (transmit true (replicate n dest))
  = map (fun k => (Z.of_nat k + 1) mod 4) (seq 0 n)
  ∧ Forall (fun tx => length tx.2 = 180%nat) (transmit true (replicate n dest))
  ∧ Forall (fun tx => tx.2 = repeat x00 180 ∧ byte0 tx.2 = 0) (transmit false turns).
Proof.
  unfold transmit. split; [|split].
  - rewrite transmit_from_cycle_byte0; [|simpl; lia|by compute].
    apply list_fmap_ext. intros _ k _. cbv beta.
    change (byte0 (repeat x00 180)) with 0. f_equal. lia.
  - apply (transmit_from_length true (repeat x00 180)).
  - eapply Forall_impl; [apply transmit_from_no_cycle|].
    intros tx ->. split; reflexivity.
Qed.

(** C6, as stated, fails on the first firewall transmission: its byte 0 is
    1, and the first five values are 1, 2, 3, 0, 1 rather than
    0, 1, 2, 3, 0. *)
Lemma transmit_first_byte0_not_zero :
  let dest := {| IP := [x08; x08; x08; x08]; Port := 443 |} in
  map (fun tx => byte0 tx.2) (transmit true (replicate 5 dest)) = [1; 2; 3; 0; 1]
  ∧ map (fun tx => byte0 tx.2) (transmit true (replicate 5 dest)) ≠ spec_firewall_byte0 5.
Proof.
  simpl. split; [reflexivity|]. discriminate.
Qed.

(** ** The reflection codec *)

Lemma land_low_high (lo hi : Z) : 0 ≤ lo < 2 ^ 8 → Z.land lo (hi * 2 ^ 8) = 0.
Proof.
  intros Hlo. apply Z.bits_inj'. intros n Hn. rewrite Z.land_spec, Z.bits_0.
  destruct (Z.lt_ge_cases n 8) as [Hlt|Hge].
  - rewrite Z.mul_pow2_bits_low by lia. apply andb_false_r.
  - rewrite <- (Z.mod_small lo (2 ^ 8)) by lia.
    rewrite Z.mod_pow2_bits_high by lia. reflexivity.
Qed.

Lemma Uint16_PutUint16 (v : Z) (rest : list byte) :
  0 ≤ v < 65536 → Uint16 (PutUint16 v ++ rest) = v.
Proof.
  intros Hv. unfold Uint16, PutUint16, uint16. simpl.
  rewrite !byte_val_of_Z, Z.shiftr_div_pow2, Z.shiftl_mul_pow2 by lia.
  assert (Hhi : 0 ≤ v / 2 ^ 8 < 256)
    by (split; [apply Z.div_pos; lia|apply Z.div_lt_upper_bound; lia]).
  pose proof (Z.mod_pos_bound v 256 eq_refl) as Hlo.
  rewrite (Z.mod_small (v / 2 ^ 8)) by lia.
  rewrite (Z.mod_small (v / 2 ^ 8 * 2 ^ 8)) by lia.
  rewrite <- Z.lxor_lor, <- Z.add_nocarry_lxor by (apply land_low_high; lia).
  pose proof (Z.div_mod v 256). change (2 ^ 8) with 256. lia.
Qed.

Lemma bytes_eqb_eq (x y : list byte) : bytes_eqb x y = true ↔ x = y.
Proof.
  revert y. induction x as [|a x IH]; intros [|b y]; simpl; try (split; done).
  rewrite andb_true_iff, byte_eqb_eq, IH. split; [by intros [-> ->]|].
  intros [= -> ->]. done.
Qed.

Lemma bytes_eqb_refl (x : list byte) : bytes_eqb x x = true.
Proof. by apply bytes_eqb_eq. Qed.

Lemma To16_length (ip : net_IP) :
  length ip = 4%nat ∨ length ip = 16%nat → length (To16 ip) = 16%nat.
Proof.
  intros [H|H]; unfold To16; rewrite H; simpl; [reflexivity|done].
Qed.

Lemma IP_Equal_To16 (ip : net_IP) :
  length ip = 4%nat ∨ length ip = 16%nat → IP_Equal (To16 ip) ip = true.
Proof.
  intros [H|H].
  - destruct ip as [|a [|b [|c [|d [|? ?]]]]]; try discriminate H.
    unfold IP_Equal, To16. simpl. rewrite !(proj2 (byte_eqb_eq _ _) eq_refl). reflexivity.
  - unfold IP_Equal, To16. rewrite H. simpl. rewrite H, Nat.eqb_refl.
    apply bytes_eqb_refl.
Qed.

Lemma To4_IPv4 (a b c d : byte) : To4 (IPv4 a b c d) = [a; b; c; d].
Proof. reflexivity. Qed.

Lemma IP_String_To16 (ip : net_IP) :
  length ip = 4%nat ∨ length ip = 16%nat → IP_String (To16 ip) = IP_String ip.
Proof.
  intros [H|H].
  - destruct ip as [|a [|b [|c [|d [|? ?]]]]]; try discriminate H. reflexivity.
  - unfold To16. rewrite H. reflexivity.
Qed.

Lemma handle_payload_frame (buf : list byte) (addr : UDPAddr) :
  length buf = 180%nat →
  length (IP addr) = 4%nat ∨ length (IP addr) = 16%nat →
  Server.handle_payload buf addr
  = Some (To16 (IP addr) ++ PutUint16 (uint16 (Port addr))).
Proof.
  intros Hbuf Hip. unfold Server.handle_payload. rewrite Hbuf. simpl negb. cbv iota.
  pose proof (To16_length _ Hip) as H16.
  assert (Hc1 : copy (firstn 16 buf) (To16 (IP addr)) = To16 (IP addr)).
  { unfold copy. rewrite length_take, Hbuf, H16. simpl Nat.min.
    rewrite firstn_all2 by lia. rewrite skipn_all2 by (rewrite length_take; lia).
    apply app_nil_r. }
  rewrite Hc1.
  rewrite (take_app_length' (To16 (IP addr))) by done.
  rewrite (drop_app_length' (To16 (IP addr)) _ 16) by done.
  generalize (skipn 18 (To16 (IP addr) ++ skipn 16 buf)). intros tail.
  assert (Hc2 : copy (firstn 2 (skipn 16 buf)) (PutUint16 (uint16 (Port addr)))
                = PutUint16 (uint16 (Port addr))).
  { unfold copy. rewrite length_take, length_drop, Hbuf. simpl. 
    rewrite skipn_all2 by (rewrite length_take, length_drop; lia). reflexivity. }
  rewrite Hc2.
  rewrite app_assoc. rewrite take_app_length'; [reflexivity|].
  rewrite length_app, H16. reflexivity.
Qed.

(** C8. For a client endpoint whose IP is a 4- or 16-byte address and
    whose port is in 0..65535, the server answers a 180-byte request with
    an 18-byte frame, and the client decodes from that frame the 16-byte
    form of the IP and the same port.  The decoded IP is equal to the
    original under [IP.Equal] and has the same text; when the original is
    the IPv6-mapped form of [a.b.c.d], the decoded address is the IPv4
    address [a.b.c.d]. *)
Theorem reflection_roundtrip (buf : list byte) (ip : net_IP) (port : Z)
    (Hbuf : length buf = 180%nat)
    (Hip : length ip = 4%nat ∨ length ip = 16%nat)
    (Hport : 0 ≤ port ≤ 65535) :
  ∃ frame : list byte,
    Server.handle_payload buf {| IP := ip; Port := port |} = Some frame
    ∧ length frame = 18%nat
    ∧ copyUDPAddr (decode_mapped frame) = {| IP := To16 ip; Port := port |}
    ∧ IP_Equal (IP (decode_mapped frame)) ip = true
    ∧ IP_String (IP (decode_mapped frame)) = IP_String ip
    ∧ Port (decode_mapped frame) = port
    ∧ ∀ a b c d : byte, ip = IPv4 a b c d → To4 (IP (decode_mapped frame)) = [a; b; c; d].
Proof.
  pose proof (To16_length _ Hip) as H16.
  exists (To16 ip ++ PutUint16 (uint16 port)).
  assert (Hdec : decode_mapped (To16 ip ++ PutUint16 (uint16 port))
                 = {| IP := To16 ip; Port := port |}).
  { unfold decode_mapped. rewrite take_app_length', drop_app_length' by done.
    f_equal. change (firstn 2 (PutUint16 (uint16 port))) with (PutUint16 (uint16 port) ++ []).
    unfold uint16. rewrite Z.mod_small by lia. apply Uint16_PutUint16. lia. }
  split; [by apply handle_payload_frame|].
  split; [rewrite length_app, H16; reflexivity|].
  rewrite Hdec. simpl. split; [reflexivity|].
  split; [by apply IP_Equal_To16|].
  split; [by apply IP_String_To16|].
  split; [reflexivity|].
  intros a b c d ->. reflexivity.
Qed.

Lemma reflection_roundtrip_witness :
  ∃ frame : list byte,
    Server.handle_payload (repeat x00 180) {| IP := [xcb; x00; x71; x07]; Port := 51820 |}
    = Some frame
    ∧ length frame = 18%nat
    ∧ copyUDPAddr (decode_mapped frame)
      = {| IP := To16 [xcb; x00; x71; x07]; Port := 51820 |}
    ∧ IP_Equal (IP (decode_mapped frame)) [xcb; x00; x71; x07] = true
    ∧ IP_String (IP (decode_mapped frame)) = IP_String [xcb; x00; x71; x07]
    ∧ Port (decode_mapped frame) = 51820
    ∧ ∀ a b c d : byte,
        [xcb; x00; x71; x07] = IPv4 a b c d → To4 (IP (decode_mapped frame)) = [a; b; c; d].
Proof.
  apply (reflection_roundtrip (repeat x00 180) [xcb; x00; x71; x07] 51820).
  - reflexivity.
  - left. reflexivity.
  - lia.
Defined.

(** ** The mapping prober *)

Lemma receive_no_timeouts (local : UDPAddr) (d : datagram) (v : mapping_vars) :
  Forall (fun p => Timeout p = false) (ret v) →
  Forall (fun p => Timeout p = false) (ret (receive local d v)).
Proof.
  intros H. unfold receive.
  destruct (negb (Z.of_nat (length (payload d)) =? 18)); [done|].
  match goal with |- context [if ?c then _ else _] => destruct c end; [|done].
  simpl. apply Forall_app. split; [done|]. by constructor.
Qed.

Lemma receive_loop_no_timeouts (local : UDPAddr) (ds : list datagram) (v : mapping_vars) :
  Forall (fun p => Timeout p = false) (ret v) →
  Forall (fun p => Timeout p = false)
    (ret (foldl (fun v d => receive local d v) v ds)).
Proof.
  revert v. induction ds as [|d ds IH]; intros v H; simpl; [done|].
  apply IH. by apply receive_no_timeouts.
Qed.

(** No list returned by [probeOneMapping] holds a timeout record. *)
Lemma probeOneMapping_no_timeouts (local : UDPAddr) (dests : list UDPAddr)
    (ds : list datagram) (e : read_error) (probes : list MappingProbe) :
  probeOneMapping local dests ds e = Some probes →
  Forall (fun p => Timeout p = false) probes.
Proof.
  unfold probeOneMapping, probeOneMapping_run. simpl.
  destruct e; [|discriminate]. intros [= <-].
  apply receive_loop_no_timeouts. constructor.
Qed.

Lemma probeMapping_collect_no_timeouts (dests : list UDPAddr) (sockets : list socket_run)
    (acc probes : list MappingProbe) :
  Forall (fun p => Timeout p = false) acc →
  probeMapping_collect dests sockets acc = Some probes →
  Forall (fun p => Timeout p = false) probes.
Proof.
  revert acc. induction sockets as [|s sockets IH]; intros acc Hacc; simpl.
  - by intros [= <-].
  - destruct (probeOneMapping (conn_local s) dests (reads s) (final s)) as [ps|] eqn:E;
      [|discriminate].
    apply IH. apply Forall_app. split; [done|].
    by apply probeOneMapping_no_timeouts in E.
Qed.

(** No list returned by [probeMapping] holds a timeout record. *)
Lemma probeMapping_no_timeouts (dests : list UDPAddr) (sockets : list socket_run)
    (probes : list MappingProbe) :
  probeMapping dests sockets = Some probes →
  Forall (fun p => Timeout p = false) probes.
Proof. apply probeMapping_collect_no_timeouts. constructor. Qed.

(** C1, on the code.  With one socket, one destination and no reply before
    the deadline, the deferred closure does append the timeout record to
    the variable [ret], but [probeOneMapping] has already returned the
    empty list, and so does [probeMapping]: the returned list holds no
    timeout record and no reply for the pair, against the stated
    equivalence. *)
Theorem probeMapping_loses_timeout_records :
  ret (probeOneMapping_run (conn_local silent_socket) [silent_destination]
         (reads silent_socket) (final silent_socket)).2
  = [ {| Local := conn_local silent_socket; Mapped := None;
         Remote := silent_destination; Timeout := true |} ]
  ∧ probeOneMapping (conn_local silent_socket) [silent_destination]
      (reads silent_socket) (final silent_socket) = Some []
  ∧ probeMapping [silent_destination] [silent_socket] = Some []
  ∧ ¬ spec_timeout_iff_no_reply [] (conn_local silent_socket) silent_destination.
Proof.
  split; [reflexivity|]. split; [reflexivity|]. split; [reflexivity|].
  unfold spec_timeout_iff_no_reply. simpl. intros [_ H].
  specialize (H eq_refl). discriminate H.
Qed.

(** ** Anonymisation: keys and the substitution *)

Lemma index_of_None (k : string) (ks : list string) :
  index_of k ks = None ↔ k ∉ ks.
Proof.
  induction ks as [|k' ks IH]; simpl.
  - split; [intros _; apply not_elem_of_nil|done].
  - rewrite not_elem_of_cons. destruct (String.eqb_spec k k') as [->|Hne].
    + split; [done|]. intros [? _]. done.
    + destruct (index_of k ks); simpl.
      * split; [done|]. intros [_ H]. by apply IH in H.
      * split; [|done]. intros _. split; [done|]. by apply IH.
Qed.

Lemma index_of_Some_lookup (k : string) (ks : list string) (n : nat) :
  index_of k ks = Some n → ks !! n = Some k.
Proof.
  revert n. induction ks as [|k' ks IH]; intros n; simpl; [done|].
  destruct (String.eqb_spec k k') as [->|Hne].
  - by intros [= <-].
  - destruct (index_of k ks) as [m|]; simpl; [|done]. intros [= <-]. simpl. by apply IH.
Qed.

Lemma index_of_lt (k : string) (ks : list string) (n : nat) :
  index_of k ks = Some n → (n < length ks)%nat.
Proof. intros H. eapply lookup_lt_Some. by apply index_of_Some_lookup. Qed.

Lemma index_of_app_l (k : string) (ks ks' : list string) (n : nat) :
  index_of k ks = Some n → index_of k (ks ++ ks') = Some n.
Proof.
  revert n. induction ks as [|k' ks IH]; intros n; simpl; [done|].
  destruct (String.eqb k k'); [done|].
  destruct (index_of k ks) as [m|]; simpl; [|done].
  intros [= <-]. by rewrite (IH m).
Qed.

Lemma index_of_app_fresh (k : string) (ks ks' : list string) :
  k ∉ ks → index_of k (ks ++ k :: ks') = Some (length ks).
Proof.
  induction ks as [|k' ks IH]; simpl; intros Hk.
  - by rewrite String.eqb_refl.
  - apply not_elem_of_cons in Hk as [Hne Hk].
    destruct (String.eqb_spec k k') as [->|_]; [done|].
    by rewrite IH.
Qed.

Lemma index_of_app_other (k k' : string) (ks : list string) :
  k ≠ k' → index_of k (ks ++ [k']) = index_of k ks.
Proof.
  intros Hne. induction ks as [|k'' ks IH]; simpl.
  - by destruct (String.eqb_spec k k').
  - destruct (String.eqb k k''); [done|]. by rewrite IH.
Qed.

Lemma index_of_NoDup_lookup (k : string) (ks : list string) (n : nat) :
  NoDup ks → ks !! n = Some k → index_of k ks = Some n.
Proof.
  intros Hnd. revert n. induction Hnd as [|k' ks Hk' Hnd IH]; intros n; [done|].
  destruct n as [|n]; simpl.
  - intros [= ->]. by rewrite String.eqb_refl.
  - intros Hl. destruct (String.eqb_spec k k') as [->|_].
    + exfalso. apply Hk'. by eapply list_elem_of_lookup_2.
    + by rewrite (IH n).
Qed.

Lemma note_key_prefix (ks : list string) (ip : net_IP) : ks `prefix_of` note_key ks ip.
Proof.
  unfold note_key. destruct (_ && _); [by apply prefix_app_r|done].
Qed.

Lemma note_keys_prefix (ks : list string) (l : list net_IP) :
  ks `prefix_of` foldl note_key ks l.
Proof.
  revert ks. induction l as [|ip l IH]; intros ks; simpl; [done|].
  etrans; [apply note_key_prefix|apply IH].
Qed.

Lemma note_key_NoDup (ks : list string) (ip : net_IP) :
  NoDup ks → NoDup (note_key ks ip).
Proof.
  intros Hnd. unfold note_key.
  destruct (anonymizable ip); simpl; [|done].
  destruct (bool_decide_reflect (IP_String ip ∈ ks)) as [Hin|Hnin]; simpl; [done|].
  apply NoDup_app. split; [done|]. split; [|apply NoDup_singleton].
  intros k Hk Hk'. apply list_elem_of_singleton in Hk' as ->. done.
Qed.

Lemma note_keys_NoDup (ks : list string) (l : list net_IP) :
  NoDup ks → NoDup (foldl note_key ks l).
Proof.
  revert ks. induction l as [|ip l IH]; intros ks Hnd; simpl; [done|].
  by apply IH, note_key_NoDup.
Qed.

Lemma first_keys_NoDup (l : list net_IP) : NoDup (first_keys l).
Proof. apply note_keys_NoDup, NoDup_nil_2. Qed.

Lemma note_key_covers (ks : list string) (ip : net_IP) :
  anonymizable ip = true → IP_String ip ∈ note_key ks ip.
Proof.
  intros Ha. unfold note_key. rewrite Ha. simpl.
  destruct (bool_decide_reflect (IP_String ip ∈ ks)) as [Hin|Hnin]; simpl; [done|].
  apply elem_of_app. right. by apply list_elem_of_singleton.
Qed.

Lemma note_keys_cover (ks : list string) (l : list net_IP) (ip : net_IP) :
  ip ∈ l → anonymizable ip = true → IP_String ip ∈ foldl note_key ks l.
Proof.
  revert ks. induction l as [|ip' l IH]; intros ks Hin Ha; [by apply elem_of_nil in Hin|].
  simpl. apply elem_of_cons in Hin as [->|Hin]; [|by apply IH].
  destruct (note_keys_prefix (note_key ks ip') l) as [ext ->].
  apply elem_of_app. left. by apply note_key_covers.
Qed.

Lemma substitute_not_anonymizable (ks : list string) (ip : net_IP) :
  anonymizable ip = false → substitute ks ip = ip.
Proof. intros H. unfold substitute. by rewrite H. Qed.

Lemma substitute_prefix (ks ks' : list string) (ip : net_IP) :
  (anonymizable ip = true → IP_String ip ∈ ks) → ks `prefix_of` ks' →
  substitute ks' ip = substitute ks ip.
Proof.
  intros Hcov [ext ->]. unfold substitute.
  destruct (anonymizable ip); [|done].
  destruct (index_of (IP_String ip) ks) as [n|] eqn:E.
  - by rewrite (index_of_app_l _ _ _ _ E).
  - apply index_of_None in E. exfalso. by apply E, Hcov.
Qed.

Lemma substitute_covered (ks : list string) (ip : net_IP) :
  anonymizable ip = true → IP_String ip ∈ ks →
  ∃ n, index_of (IP_String ip) ks = Some n
       ∧ ks !! n = Some (IP_String ip)
       ∧ substitute ks ip = generated n.
Proof.
  intros Ha Hin. unfold substitute. rewrite Ha.
  destruct (index_of (IP_String ip) ks) as [n|] eqn:E.
  - exists n. split; [done|]. split; [by apply index_of_Some_lookup|done].
  - apply index_of_None in E. done.
Qed.

(** ** Anonymisation: the counters *)

Lemma byte_of_Z_mod (z : Z) : byte_of_Z (z mod 256) = byte_of_Z z.
Proof. unfold byte_of_Z. by rewrite Z.mod_mod. Qed.

Lemma byte_of_Z_congr (x y : Z) : x mod 256 = y mod 256 → byte_of_Z x = byte_of_Z y.
Proof. intros H. unfold byte_of_Z. by rewrite H. Qed.

Lemma byte_inc_of_Z (z : Z) : byte_inc (byte_of_Z z) = byte_of_Z (z + 1).
Proof.
  unfold byte_inc. rewrite byte_val_of_Z. apply byte_of_Z_congr.
  by rewrite Z.add_mod_idemp_l.
Qed.

Lemma byte_of_Z_zero (z : Z) : byte_eqb (byte_of_Z z) x00 = true ↔ z mod 256 = 0.
Proof.
  rewrite byte_eqb_eq. split.
  - intros H. rewrite <- byte_val_of_Z, H. reflexivity.
  - intros H. rewrite <- byte_of_Z_mod, H. reflexivity.
Qed.

Lemma counter_carry (c : Z) :
  (if byte_eqb (byte_inc (byte_of_Z c)) x00
   then byte_inc (byte_of_Z (c / 256)) else byte_of_Z (c / 256))
  = byte_of_Z ((c + 1) / 256).
Proof.
  rewrite !byte_inc_of_Z.
  destruct (byte_eqb (byte_of_Z (c + 1)) x00) eqn:E.
  - apply byte_of_Z_zero in E. f_equal. Z.div_mod_to_equations. lia.
  - f_equal. assert ((c + 1) mod 256 ≠ 0).
    { intros H. apply byte_of_Z_zero in H. congruence. }
    Z.div_mod_to_equations. lia.
Qed.

Lemma generated_length (n : nat) : length (generated n) = 16%nat.
Proof. reflexivity. Qed.

(** ** Anonymisation: one call of the closure *)

Lemma anonymize_step (ks : list string) (st : anon_state) (ip : net_IP) :
  anon_inv ks st →
  ∃ st', anonymize ip st = (substitute (note_key ks ip) ip, st')
         ∧ anon_inv (note_key ks ip) st'.
Proof.
  intros (Hnd & Hips & Ha & Hb).
  unfold anonymize, substitute, note_key, anonymizable.
  destruct ((Z.of_nat (length ip) =? 0) || IsUnspecified ip) eqn:Hskip; simpl.
  { exists st. split; [done|]. by repeat split. }
  rewrite Hips.
  destruct (bool_decide_reflect (IP_String ip ∈ ks)) as [Hin|Hnin]; simpl.
  - destruct (index_of (IP_String ip) ks) as [n|] eqn:E.
    + simpl. exists st. split; [done|]. by repeat split.
    + apply index_of_None in E. done.
  - assert (E : index_of (IP_String ip) ks = None) by by apply index_of_None.
    rewrite E. simpl.
    rewrite (index_of_app_fresh _ ks []) by done.
    eexists. split.
    + f_equal. unfold generated. by rewrite Ha, Hb.
    + split; [|split; [|split]]; simpl.
      * apply NoDup_app. split; [done|]. split; [|apply NoDup_singleton].
        intros k Hk Hk'. apply list_elem_of_singleton in Hk' as ->. done.
      * intros k. destruct (decide (IP_String ip = k)) as [<-|Hne].
        -- rewrite lookup_insert_eq, (index_of_app_fresh _ ks []) by done.
           simpl. unfold generated. by rewrite Ha, Hb.
        -- rewrite lookup_insert_ne, index_of_app_other by done. apply Hips.
      * rewrite Ha, Hb, length_app. simpl.
        rewrite counter_carry. f_equal. f_equal. lia.
      * rewrite Hb, length_app, byte_inc_of_Z. simpl. f_equal. lia.
Qed.

Lemma anon_inv_init : anon_inv [] anon_init.
Proof.
  split; [apply NoDup_nil_2|]. split; [|split; reflexivity].
  intros k. simpl. apply lookup_empty.
Qed.

(** ** Anonymisation: the statements of [Anonymize] *)

Lemma anon_correct_ret {A : Type} (x : A) : anon_correct (mret x) [] (fun _ => x).
Proof.
  intros ks st Hinv. exists x, st. split; [done|]. split; [exact Hinv|]. done.
Qed.

Lemma anon_correct_call (ip : net_IP) : anon_correct (anon_call ip) [ip] (fun σ => σ ip).
Proof.
  intros ks st Hinv. destruct (anonymize_step ks st ip Hinv) as (st' & Hrun & Hinv').
  exists (substitute (note_key ks ip) ip), st'. unfold anon_call. rewrite Hrun.
  split; [done|]. split; [done|]. simpl. intros ks' Hpre.
  symmetry. apply substitute_prefix; [|done]. apply note_key_covers.
Qed.

Lemma anon_correct_bind {A B : Type} (m : Anon A) (k : A → Anon B)
    (occ1 occ2 : list net_IP) (f : (net_IP → net_IP) → A)
    (g : A → (net_IP → net_IP) → B) :
  anon_correct m occ1 f → (∀ x, anon_correct (k x) occ2 (g x)) →
  anon_correct (m ≫= k) (occ1 ++ occ2) (fun σ => g (f σ) σ).
Proof.
  intros Hm Hk ks st Hinv.
  destruct (Hm ks st Hinv) as (x & st1 & Hrun1 & Hinv1 & Hx).
  destruct (Hk x _ st1 Hinv1) as (y & st2 & Hrun2 & Hinv2 & Hy).
  exists y, st2. unfold mbind, Anon_bind, anon_bind. rewrite Hrun1, Hrun2.
  rewrite foldl_app. split; [done|]. split; [done|].
  intros ks' Hpre. rewrite (Hy ks' Hpre). f_equal. apply Hx.
  etrans; [apply note_keys_prefix|exact Hpre].
Qed.

Lemma anon_correct_ext {A : Type} (m : Anon A) (occ occ' : list net_IP)
    (f f' : (net_IP → net_IP) → A) :
  occ = occ' → (∀ σ, f σ = f' σ) → anon_correct m occ f → anon_correct m occ' f'.
Proof.
  intros <- Hf Hm ks st Hinv. destruct (Hm ks st Hinv) as (x & st' & ? & ? & Hx).
  exists x, st'. split; [done|]. split; [done|]. intros ks' Hpre.
  rewrite <- Hf. by apply Hx.
Qed.

Lemma anon_correct_for {A B : Type} (body : A → Anon B) (occ : A → list net_IP)
    (f : (net_IP → net_IP) → A → B) (l : list A) :
  Forall (fun x => anon_correct (body x) (occ x) (fun σ => f σ x)) l →
  anon_correct (anon_for body l) (flat_map occ l) (fun σ => map (f σ) l).
Proof.
  induction 1 as [|x l Hx _ IH]; simpl.
  - apply anon_correct_ret.
  - eapply anon_correct_ext;
      [| |apply (anon_correct_bind _ _ (occ x) (flat_map occ l ++ [])
                   (fun σ => f σ x) (fun y σ => y :: map (f σ) l) Hx)].
    + by rewrite app_nil_r.
    + done.
    + intros y. apply (anon_correct_bind _ _ _ _ _ (fun ys _ => y :: ys) IH).
      intros ys. apply anon_correct_ret.
Qed.

Lemma anon_correct_addr (addr : UDPAddr) :
  anon_correct (anon_addr addr) [IP addr] (fun σ => map_addr σ addr).
Proof.
  unfold anon_addr.
  eapply anon_correct_ext;
    [| |apply (anon_correct_bind _ _ [IP addr] [] _
                 (fun ip _ => {| IP := ip; Port := Port addr |})
                 (anon_correct_call (IP addr)))].
  - reflexivity.
  - done.
  - intros ip. apply anon_correct_ret.
Qed.

Lemma anon_correct_probe (probe : MappingProbe) :
  is_Some (Mapped probe) →
  anon_correct (anon_probe probe) (probe_IPs probe) (fun σ => map_probe σ probe).
Proof.
  intros [m Hm]. unfold anon_probe, probe_IPs, map_probe. rewrite Hm. simpl.
  eapply anon_correct_ext;
    [| |apply (anon_correct_bind _ _ [IP (Local probe)] ([IP m] ++ [IP (Remote probe)] ++ []) _
                 (fun local σ => {| Local := local; Mapped := Some (map_addr σ m);
                                    Remote := map_addr σ (Remote probe);
                                    Timeout := Timeout probe |})
                 (anon_correct_addr (Local probe)))].
  - reflexivity.
  - done.
  - intros local.
    apply (anon_correct_bind _ _ [IP m] ([IP (Remote probe)] ++ []) _
             (fun mapped σ => {| Local := local; Mapped := Some mapped;
                                 Remote := map_addr σ (Remote probe);
                                 Timeout := Timeout probe |})
             (anon_correct_addr m)).
    intros mapped.
    apply (anon_correct_bind _ _ [IP (Remote probe)] [] _
             (fun remote _ => {| Local := local; Mapped := Some mapped;
                                 Remote := remote; Timeout := Timeout probe |})
             (anon_correct_addr (Remote probe))).
    intros remote. apply anon_correct_ret.
Qed.

Lemma flat_map_singleton {A B : Type} (f : A → B) (l : list A) :
  flat_map (fun x => [f x]) l = map f l.
Proof. induction l as [|x l IH]; simpl; [done|]. by rewrite IH. Qed.

Lemma anon_correct_firewall (fw : FirewallProbe) :
  anon_correct (anon_firewall fw) (firewall_IPs fw) (fun σ => map_firewall σ fw).
Proof.
  unfold anon_firewall, firewall_IPs, map_firewall.
  eapply anon_correct_ext;
    [| |apply (anon_correct_bind _ _ [IP (FLocal fw)]
                 ([IP (FRemote fw)] ++ flat_map (fun a => [IP a]) (Received fw) ++ []) _
                 (fun local σ => {| FLocal := local; FRemote := map_addr σ (FRemote fw);
                                    Received := map (map_addr σ) (Received fw) |})
                 (anon_correct_addr (FLocal fw)))].
  - simpl. by rewrite app_nil_r, flat_map_singleton.
  - done.
  - intros local.
    apply (anon_correct_bind _ _ [IP (FRemote fw)]
             (flat_map (fun a => [IP a]) (Received fw) ++ []) _
             (fun remote σ => {| FLocal := local; FRemote := remote;
                                 Received := map (map_addr σ) (Received fw) |})
             (anon_correct_addr (FRemote fw))).
    intros remote.
    apply (anon_correct_bind _ _ _ [] _
             (fun received _ => {| FLocal := local; FRemote := remote;
                                   Received := received |})
             (anon_correct_for anon_addr (fun a => [IP a]) map_addr (Received fw)
                (proj2 (Forall_forall _ _) (fun a _ => anon_correct_addr a)))).
    intros received. apply anon_correct_ret.
Qed.

Lemma anon_correct_Anonymize_body (r : Result) :
  Forall (fun probe => is_Some (Mapped probe)) (MappingProbes r) →
  anon_correct (Anonymize_body r) (Result_IPs r) (fun σ => map_Result σ r).
Proof.
  intros Hm. unfold Anonymize_body, Result_IPs, map_Result.
  assert (Hl : anon_correct (anon_for anon_call (LocalIPs r)) (LocalIPs r)
                 (fun σ => map σ (LocalIPs r))).
  { eapply anon_correct_ext;
      [| |apply (anon_correct_for anon_call (fun ip => [ip]) (fun σ ip => σ ip) (LocalIPs r))].
    - rewrite flat_map_singleton. apply map_id.
    - done.
    - apply Forall_forall. intros ip _. apply anon_correct_call. }
  assert (Hp : anon_correct (anon_for anon_probe (MappingProbes r))
                 (flat_map probe_IPs (MappingProbes r))
                 (fun σ => map (map_probe σ) (MappingProbes r))).
  { apply anon_correct_for. eapply Forall_impl; [exact Hm|].
    intros probe. apply anon_correct_probe. }
  destruct (FirewallProbes r) as [fw|]; simpl.
  - apply (anon_correct_bind _ _ _ _ _
             (fun localIPs σ => {| LocalIPs := localIPs;
                                   MappingProbes := map (map_probe σ) (MappingProbes r);
                                   FirewallProbes := Some (map_firewall σ fw) |}) Hl).
    intros localIPs.
    apply (anon_correct_bind _ _ _ _ _
             (fun probes σ => {| LocalIPs := localIPs; MappingProbes := probes;
                                 FirewallProbes := Some (map_firewall σ fw) |}) Hp).
    intros probes.
    eapply anon_correct_ext;
      [| |apply (anon_correct_bind _ _ (firewall_IPs fw) [] _
                   (fun fw' _ => {| LocalIPs := localIPs; MappingProbes := probes;
                                    FirewallProbes := Some fw' |})
                   (anon_correct_firewall fw))].
    + first [reflexivity|apply app_nil_r].
    + done.
    + intros fw'. apply (anon_correct_ret (A := Result)).
  - apply (anon_correct_bind _ _ _ _ _
             (fun localIPs σ => {| LocalIPs := localIPs;
                                   MappingProbes := map (map_probe σ) (MappingProbes r);
                                   FirewallProbes := None |}) Hl).
    intros localIPs.
    eapply anon_correct_ext;
      [| |apply (anon_correct_bind _ _ _ [] _
                   (fun probes _ => {| LocalIPs := localIPs; MappingProbes := probes;
                                       FirewallProbes := None |}) Hp)].
    + first [reflexivity|apply app_nil_r].
    + done.
    + intros probes. apply (anon_correct_ret (A := Result)).
Qed.

(** [Anonymize] applies one substitution throughout: that of the keys of
    the result's IPs. *)
Lemma Anonymize_substitutes (r : Result) :
  Forall (fun probe => is_Some (Mapped probe)) (MappingProbes r) →
  Anonymize r = Some (map_Result (substitute (first_keys (Result_IPs r))) r).
Proof.
  intros Hm.
  destruct (anon_correct_Anonymize_body r Hm [] anon_init anon_inv_init)
    as (r' & st' & Hrun & _ & Hr').
  unfold Anonymize. rewrite Hrun. f_equal. by apply Hr'.
Qed.

(** A timeout record, whose [Mapped] is nil, makes [Anonymize] panic. *)
Lemma Anonymize_panics_on_timeout_record :
  Anonymize all_timeouts_example = None.
Proof. reflexivity. Qed.

(** ** Dotted decimals are unambiguous *)

Lemma dot_split (s1 s2 t1 t2 : string) :
  no_dot s1 = true → no_dot s2 = true →
  s1 +:+ "." +:+ t1 = s2 +:+ "." +:+ t2 → s1 = s2 ∧ t1 = t2.
Proof.
  revert s2. induction s1 as [|c s1 IH]; intros [|c' s2]; simpl; intros H1 H2 E.
  - injection E as E. by subst.
  - injection E as Ec _. subst c'. discriminate H2.
  - injection E as Ec _. subst c. discriminate H1.
  - injection E as Ec E. subst c'.
    apply andb_true_iff in H1 as [_ H1]. apply andb_true_iff in H2 as [_ H2].
    destruct (IH s2 H1 H2 E) as [-> ->]. done.
Qed.

Lemma byte_dec_no_dot (b : byte) : no_dot (byte_dec b) = true.
Proof. destruct b; reflexivity. Qed.

Lemma byte_dec_value (b : byte) : decimal_value 0 (byte_dec b) = byte_val b.
Proof. destruct b; reflexivity. Qed.

Lemma byte_dec_inj (x y : byte) : byte_dec x = byte_dec y → x = y.
Proof.
  intros H. apply byte_val_inj. by rewrite <- !byte_dec_value, H.
Qed.

Lemma dotted_inj (a b c d a' b' c' d' : byte) :
  byte_dec a +:+ "." +:+ byte_dec b +:+ "." +:+ byte_dec c +:+ "." +:+ byte_dec d
  = byte_dec a' +:+ "." +:+ byte_dec b' +:+ "." +:+ byte_dec c' +:+ "." +:+ byte_dec d' →
  a = a' ∧ b = b' ∧ c = c' ∧ d = d'.
Proof.
  intros E.
  apply dot_split in E as [Ea E]; [|apply byte_dec_no_dot..].
  apply dot_split in E as [Eb E]; [|apply byte_dec_no_dot..].
  apply dot_split in E as [Ec Ed]; [|apply byte_dec_no_dot..].
  by rewrite (byte_dec_inj _ _ Ea), (byte_dec_inj _ _ Eb),
    (byte_dec_inj _ _ Ec), (byte_dec_inj _ _ Ed).
Qed.

Lemma IP_String_4 (a b c d : byte) :
  IP_String [a; b; c; d]
  = byte_dec a +:+ "." +:+ byte_dec b +:+ "." +:+ byte_dec c +:+ "." +:+ byte_dec d.
Proof. reflexivity. Qed.

Lemma IP_String_IPv4 (a b c d : byte) :
  IP_String (IPv4 a b c d)
  = byte_dec a +:+ "." +:+ byte_dec b +:+ "." +:+ byte_dec c +:+ "." +:+ byte_dec d.
Proof. reflexivity. Qed.

(** ** IPv4 addresses: equality and text *)

Lemma is_IPv4_forms (ip : net_IP) :
  is_IPv4 ip → ∃ a b c d : byte, ip = [a; b; c; d] ∨ ip = IPv4 a b c d.
Proof.
  unfold is_IPv4, To4. intros H.
  destruct (Z.of_nat (length ip) =? 4) eqn:E4.
  - destruct ip as [|a [|b [|c [|d [|? ?]]]]]; try discriminate H.
    exists a, b, c, d. by left.
  - destruct (_ && _) eqn:E16; [|discriminate H].
    repeat (apply andb_true_iff in E16 as [E16 ?]).
    apply Z.eqb_eq in E16.
    do 17 (destruct ip as [|? ip]; [simpl in E16; try lia|]); [|simpl in E16; lia].
    unfold isZeros in *. simpl in *.
    repeat match goal with
           | H : _ && _ = true |- _ => apply andb_true_iff in H as [? ?]
           | H : byte_eqb _ _ = true |- _ => apply byte_eqb_eq in H
           end.
    subst. eexists _, _, _, _. right. reflexivity.
Qed.

Lemma bytes4_eqb (a b c d a' b' c' d' : byte) :
  byte_eqb a a' && (byte_eqb b b' && (byte_eqb c c' && (byte_eqb d d' && true))) = true
  ↔ a = a' ∧ b = b' ∧ c = c' ∧ d = d'.
Proof.
  rewrite !andb_true_iff, !byte_eqb_eq. tauto.
Qed.

(** On IPv4 addresses, [IP.Equal] holds exactly when the texts agree. *)
Lemma IPv4_Equal_String (ip ip' : net_IP) :
  is_IPv4 ip → is_IPv4 ip' →
  IP_Equal ip ip' = true ↔ IP_String ip = IP_String ip'.
Proof.
  intros H H'.
  destruct (is_IPv4_forms ip H) as (a & b & c & d & [-> | ->]);
    destruct (is_IPv4_forms ip' H') as (a' & b' & c' & d' & [-> | ->]);
    rewrite ?IP_String_4, ?IP_String_IPv4;
    (etrans; [|split; [|apply dotted_inj];
                 intros (-> & -> & -> & ->); reflexivity]);
    unfold IP_Equal, IPv4; simpl; apply bytes4_eqb.
Qed.

(** ** Generated addresses *)

Lemma anonymizable_IPv4 (a b : byte) :
  anonymizable (IPv4 a a b b) = negb (byte_eqb a x00 && byte_eqb b x00).
Proof.
  unfold anonymizable, IsUnspecified, IP_Equal. simpl.
  destruct (byte_eqb a x00), (byte_eqb b x00); reflexivity.
Qed.

Lemma generated_anonymizable (n : nat) :
  (257 + Z.of_nat n) mod 65536 ≠ 0 → anonymizable (generated n) = true.
Proof.
  intros Hn. unfold generated. rewrite anonymizable_IPv4.
  apply negb_true_iff, andb_false_iff.
  destruct (byte_eqb (byte_of_Z ((257 + Z.of_nat n) / 256)) x00) eqn:Ea; [|by left].
  destruct (byte_eqb (byte_of_Z (257 + Z.of_nat n)) x00) eqn:Eb; [|by right].
  apply byte_of_Z_zero in Ea, Eb. exfalso. apply Hn.
  Z.div_mod_to_equations. lia.
Qed.

Lemma generated_String_inj (n m : nat) :
  Z.of_nat n < 65536 → Z.of_nat m < 65536 →
  IP_String (generated n) = IP_String (generated m) → n = m.
Proof.
  intros Hn Hm E. unfold generated in E. rewrite !IP_String_IPv4 in E.
  apply dotted_inj in E as (Ea & _ & Eb & _).
  apply (f_equal byte_val) in Ea, Eb. rewrite !byte_val_of_Z in Ea, Eb.
  Z.div_mod_to_equations. lia.
Qed.


Example generated_0 : generated 0 = IPv4 x01 x01 x01 x01.
Proof. reflexivity. Qed.

Example generated_1 : generated 1 = IPv4 x01 x01 x02 x02.
Proof. reflexivity. Qed.

Example generated_254 : generated 254 = IPv4 x01 x01 xff xff.
Proof. reflexivity. Qed.

Example generated_255 : generated 255 = IPv4 x02 x02 x00 x00.
Proof. reflexivity. Qed.

(** ** Anonymisation: the substitution of a result *)

(** C7, as the code has it.  On a result all of whose mapping probes carry
    a mapped endpoint, [Anonymize] replaces every IP through one
    substitution: empty and unspecified IPs are kept; any other IP of the
    result is replaced by [generated n], that is [a.a.b.b] with [b] the low
    byte and [a] the next byte of [257 + n], where [n] is the rank of the
    IP's text among the texts of the replaced IPs in order of first
    occurrence; IPs with the same text get the same replacement. *)
Theorem Anonymize_spec (r : Result)
    (Hm : Forall (fun probe => is_Some (Mapped probe)) (MappingProbes r)) :
  let keys := first_keys (Result_IPs r) in
  Anonymize r = Some (map_Result (substitute keys) r)
  ∧ NoDup keys
  ∧ (∀ ip, anonymizable ip = false → substitute keys ip = ip)
  ∧ (∀ ip, ip ∈ Result_IPs r → anonymizable ip = true →
       ∃ n, keys !! n = Some (IP_String ip) ∧ substitute keys ip = generated n)
  ∧ (∀ ip ip', ip ∈ Result_IPs r → ip' ∈ Result_IPs r →
       anonymizable ip = true → anonymizable ip' = true →
       IP_String ip = IP_String ip' → substitute keys ip = substitute keys ip').
Proof.
  intros keys. split; [by apply Anonymize_substitutes|].
  split; [apply first_keys_NoDup|].
  split; [apply substitute_not_anonymizable|].
  split.
  - intros ip Hin Ha.
    destruct (substitute_covered keys ip Ha) as (n & _ & Hl & Hs).
    + unfold keys, first_keys. by apply note_keys_cover.
    + by exists n.
  - intros ip ip' Hin Hin' Ha Ha' E.
    destruct (substitute_covered keys ip Ha) as (n & Hi & _ & ->);
      [unfold keys, first_keys; by apply note_keys_cover|].
    destruct (substitute_covered keys ip' Ha') as (n' & Hi' & _ & ->);
      [unfold keys, first_keys; by apply note_keys_cover|].
    rewrite E in Hi. congruence.
Qed.

Lemma replied_example_mapped :
  Forall (fun probe => is_Some (Mapped probe)) (MappingProbes replied_example).
Proof. repeat constructor; by eexists. Defined.

Lemma Anonymize_spec_witness :
  Anonymize replied_example
  = Some {| LocalIPs := [IPv4 x01 x01 x01 x01; IPv6unspecified];
            MappingProbes :=
              [ {| Local := {| IP := [x00; x00; x00; x00]; Port := 5000 |};
                   Mapped := Some {| IP := IPv4 x01 x01 x02 x02; Port := 6000 |};
                   Remote := {| IP := IPv4 x01 x01 x03 x03; Port := 443 |};
                   Timeout := false |};
                {| Local := {| IP := [x00; x00; x00; x00]; Port := 5000 |};
                   Mapped := Some {| IP := IPv4 x01 x01 x02 x02; Port := 6000 |};
                   Remote := {| IP := IPv4 x01 x01 x04 x04; Port := 443 |};
                   Timeout := false |} ];
            FirewallProbes :=
              Some {| FLocal := {| IP := [x00; x00; x00; x00]; Port := 5002 |};
                      FRemote := {| IP := IPv4 x01 x01 x03 x03; Port := 443 |};
                      Received := [ {| IP := IPv4 x01 x01 x03 x03; Port := 443 |};
                                    {| IP := IPv4 x01 x01 x04 x04; Port := 443 |} ] |} |}.
Proof.
  exact (proj1 (Anonymize_spec replied_example replied_example_mapped)).
Defined.

(** ** Anonymising many distinct addresses *)

Lemma note_keys_distinct (ks : list string) (l : list net_IP) :
  Forall (fun ip => anonymizable ip = true) l →
  NoDup (ks ++ (IP_String <$> l)) →
  foldl note_key ks l = ks ++ (IP_String <$> l).
Proof.
  intros Hl. revert ks. induction Hl as [|ip l Ha _ IH]; intros ks Hnd; simpl.
  - by rewrite app_nil_r.
  - assert (Hnin : IP_String ip ∉ ks).
    { apply NoDup_app in Hnd as (_ & Hdisj & _). intros Hin.
      apply (Hdisj _ Hin). rewrite fmap_cons. by apply elem_of_cons; left. }
    unfold note_key at 2. rewrite Ha. rewrite bool_decide_eq_false_2 by done. simpl.
    rewrite IH.
    + by rewrite <- app_assoc.
    + by rewrite <- app_assoc.
Qed.

Lemma local_ips_from_seq (n : nat) (k : Z) :
  local_ips_from n k = (fun i => local_ip (k + Z.of_nat i)) <$> seq 0 n.
Proof.
  revert k. induction n as [|n IH]; intros k; [reflexivity|].
  cbn [local_ips_from seq fmap list_fmap]. f_equal.
  - f_equal. lia.
  - rewrite IH, <- fmap_S_seq, <- list_fmap_compose.
    apply list_fmap_ext. intros _ i _. simpl. f_equal. lia.
Qed.

Lemma local_ip_anonymizable (k : Z) : anonymizable (local_ip k) = true.
Proof. reflexivity. Qed.

Lemma local_ip_String_inj (i j : Z) :
  0 ≤ i < 16777216 → 0 ≤ j < 16777216 →
  IP_String (local_ip i) = IP_String (local_ip j) → i = j.
Proof.
  intros Hi Hj E. unfold local_ip in E. rewrite !IP_String_4 in E.
  apply dotted_inj in E as (_ & Ea & Eb & Ec).
  apply (f_equal byte_val) in Ea, Eb, Ec. rewrite !byte_val_of_Z in Ea, Eb, Ec.
  Z.div_mod_to_equations. lia.
Qed.

Lemma local_ips_keys (n : nat) :
  Z.of_nat n ≤ 16777216 →
  first_keys (local_ips_from n 0) = IP_String <$> local_ips_from n 0
  ∧ NoDup (IP_String <$> local_ips_from n 0).
Proof.
  intros Hn.
  assert (Hnd : NoDup (IP_String <$> local_ips_from n 0)).
  { rewrite local_ips_from_seq, <- list_fmap_compose.
    apply NoDup_fmap_2_strong; [|apply NoDup_seq].
    intros i j Hi Hj E. apply elem_of_seq in Hi, Hj. simpl in E.
    apply local_ip_String_inj in E; lia. }
  split; [|done]. unfold first_keys. rewrite note_keys_distinct; [done| |done].
  rewrite local_ips_from_seq. apply Forall_fmap, Forall_forall.
  intros i _. apply local_ip_anonymizable.
Qed.

(** With [n] distinct local addresses, the [i]-th is replaced by
    [generated i]. *)
Lemma Anonymize_many_locals (n : nat) :
  Z.of_nat n ≤ 16777216 →
  Anonymize (many_locals n)
  = Some {| LocalIPs := generated <$> seq 0 n; MappingProbes := [];
            FirewallProbes := None |}.
Proof.
  intros Hn. rewrite Anonymize_substitutes by constructor.
  unfold map_Result, many_locals, Result_IPs. simpl. rewrite app_nil_r.
  destruct (local_ips_keys n Hn) as [-> Hnd]. do 2 f_equal.
  apply list_eq. intros i. rewrite !list_lookup_fmap.
  destruct (local_ips_from n 0 !! i) as [ip|] eqn:E; simpl.
  - assert (Hi : (i < n)%nat).
    { apply lookup_lt_Some in E. rewrite local_ips_from_seq, length_fmap, length_seq in E.
      done. }
    rewrite lookup_seq_lt by done. simpl. f_equal.
    unfold substitute.
    assert (Ha : anonymizable ip = true).
    { rewrite local_ips_from_seq, list_lookup_fmap, lookup_seq_lt in E by done.
      injection E as <-. apply local_ip_anonymizable. }
    rewrite Ha.
    rewrite (index_of_NoDup_lookup _ _ i Hnd); [done|].
    by rewrite list_lookup_fmap, E.
  - apply lookup_ge_None in E.
    rewrite local_ips_from_seq, length_fmap, length_seq in E.
    rewrite lookup_seq_ge by done. reflexivity.
Qed.

(** C7, as stated, fails on a host with 256 distinct addresses: the last
    one, 10.0.0.255, is replaced by 2.2.0.0, which is not of the form
    1.1.b1.b2 and has bytes outside 1..255. *)
Lemma Anonymize_leaves_1_1 :
  ∃ r' : Result,
    Anonymize (many_locals 256) = Some r'
    ∧ LocalIPs (many_locals 256) !! 255%nat = Some [x0a; x00; x00; xff]
    ∧ anonymizable [x0a; x00; x00; xff] = true
    ∧ LocalIPs r' !! 255%nat = Some (IPv4 x02 x02 x00 x00)
    ∧ ¬ spec_generated_form (IPv4 x02 x02 x00 x00).
Proof.
  eexists. split; [apply Anonymize_many_locals; lia|].
  split; [reflexivity|]. split; [reflexivity|]. split; [reflexivity|].
  intros (b1 & b2 & _ & _ & E). discriminate E.
Qed.

(** ** Anonymising an anonymised result *)






Lemma generated_keys_NoDup (n : nat) :
  Z.of_nat n ≤ 65536 → NoDup ((fun i => IP_String (generated i)) <$> seq 0 n).
Proof.
  intros Hn. apply NoDup_fmap_2_strong; [|apply NoDup_seq].
  intros i j Hi Hj E. apply elem_of_seq in Hi, Hj.
  apply generated_String_inj in E; lia.
Qed.

Lemma generated_keys_index (n i : nat) :
  Z.of_nat n ≤ 65536 → (i < n)%nat →
  index_of (IP_String (generated i)) ((fun i => IP_String (generated i)) <$> seq 0 n)
  = Some i.
Proof.
  intros Hn Hi. apply index_of_NoDup_lookup; [by apply generated_keys_NoDup|].
  by rewrite list_lookup_fmap, lookup_seq_lt.
Qed.

(** The keys of the substituted IPs are the texts of the generated
    addresses, in order. *)
Lemma generated_anonymizable_lt (n : nat) :
  Z.of_nat n < 65279 → anonymizable (generated n) = true.
Proof. intros Hn. apply generated_anonymizable. Z.div_mod_to_equations. lia. Qed.




Lemma generated_is_IPv4 (n : nat) : is_IPv4 (generated n).
Proof. reflexivity. Qed.





(** ** Beyond 65280 distinct addresses, a second run differs *)

Lemma note_key_known (ks : list string) (ip : net_IP) :
  anonymizable ip = false ∨ IP_String ip ∈ ks → note_key ks ip = ks.
Proof.
  intros [Ha|Hin]; unfold note_key.
  - by rewrite Ha.
  - rewrite (bool_decide_eq_true_2 _ Hin). cbn [negb]. by rewrite andb_false_r.
Qed.

Lemma local_ip_substituted (n i : nat) :
  Z.of_nat n ≤ 16777216 → (i < n)%nat →
  substitute (IP_String <$> local_ips_from n 0) (local_ip (Z.of_nat i)) = generated i.
Proof.
  intros Hn Hi. destruct (local_ips_keys n Hn) as [_ Hnd].
  unfold substitute. rewrite local_ip_anonymizable.
  rewrite (index_of_NoDup_lookup _ _ i Hnd); [done|].
  rewrite local_ips_from_seq, <- list_fmap_compose, list_lookup_fmap, lookup_seq_lt by done.
  reflexivity.
Qed.

Lemma append_assoc (s1 s2 s3 : string) : (s1 +:+ s2) +:+ s3 = s1 +:+ (s2 +:+ s3).
Proof.
  induction s1 as [|c s1 IH]; [reflexivity|].
  change (String c ((s1 +:+ s2) +:+ s3) = String c (s1 +:+ (s2 +:+ s3))).
  by rewrite IH.
Qed.

Lemma append_inj_r (s a b : string) : s +:+ a = s +:+ b → a = b.
Proof.
  induction s as [|c s IH]; [done|].
  change (String c (s +:+ a) = String c (s +:+ b) → a = b).
  intros [= E]. by apply IH.
Qed.

Lemma write_lines_app {A : Type} (line : A → string) (l1 l2 : list A) :
  write_lines line (l1 ++ l2) = write_lines line l1 +:+ write_lines line l2.
Proof.
  induction l1 as [|x l1 IH]; [reflexivity|].
  cbn [app write_lines]. by rewrite IH, append_assoc.
Qed.

Lemma Anonymize_many_locals_probed (n : nat) :
  Z.of_nat n ≤ 16777216 → (2 ≤ n)%nat →
  Anonymize (many_locals_probed n)
  = Some {| LocalIPs := generated <$> seq 0 n;
            MappingProbes :=
              [ {| Local := {| IP := [x00; x00; x00; x00]; Port := 5000 |};
                   Mapped := Some {| IP := generated 0; Port := 5000 |};
                   Remote := {| IP := generated 1; Port := 443 |};
                   Timeout := false |} ];
            FirewallProbes := None |}.
Proof.
  intros Hn H2. rewrite Anonymize_substitutes by (repeat constructor; by eexists).
  destruct (local_ips_keys n Hn) as [Hk Hnd].
  assert (Hin : ∀ i : nat, (i < n)%nat →
                  IP_String (local_ip (Z.of_nat i)) ∈ IP_String <$> local_ips_from n 0).
  { intros i Hi. apply list_elem_of_fmap. exists (local_ip (Z.of_nat i)). split; [done|].
    rewrite local_ips_from_seq. apply list_elem_of_fmap. exists i.
    split; [done|]. apply elem_of_seq. lia. }
  assert (Hkeys : first_keys (Result_IPs (many_locals_probed n))
                  = IP_String <$> local_ips_from n 0).
  { unfold first_keys, Result_IPs, many_locals_probed. cbn [LocalIPs MappingProbes
      FirewallProbes flat_map probe_IPs Local Mapped Remote IP app].
    rewrite foldl_app. fold (first_keys (local_ips_from n 0)). rewrite Hk.
    cbn [foldl].
    rewrite (note_key_known _ [x00; x00; x00; x00]) by by left.
    rewrite (note_key_known _ (local_ip 0)) by (right; apply (Hin 0%nat); lia).
    rewrite (note_key_known _ (local_ip 1)) by (right; apply (Hin 1%nat); lia).
    reflexivity. }
  rewrite Hkeys.
  assert (HL : map (substitute (IP_String <$> local_ips_from n 0)) (local_ips_from n 0)
               = generated <$> seq 0 n).
  { apply list_eq. intros i. change (map ?f ?l) with (f <$> l).
    rewrite !list_lookup_fmap. rewrite local_ips_from_seq at 2. rewrite list_lookup_fmap.
    destruct (decide (i < n)%nat) as [Hi|Hi].
    - rewrite lookup_seq_lt by done. cbn [fmap option_fmap option_map].
      f_equal. rewrite Z.add_0_l. apply local_ip_substituted; [done|lia].
    - rewrite lookup_seq_ge by lia. reflexivity. }
  pose proof (local_ip_substituted n 0 Hn ltac:(lia)) as H0.
  pose proof (local_ip_substituted n 1 Hn ltac:(lia)) as H1.
  change (Z.of_nat 0) with 0 in H0. change (Z.of_nat 1) with 1 in H1.
  unfold map_Result, many_locals_probed, map_probe, map_addr.
  cbn [LocalIPs MappingProbes FirewallProbes map Local Mapped Remote
       IP Port Timeout fmap option_fmap option_map].
  rewrite HL, H0, H1.
  rewrite (substitute_not_anonymizable _ [x00; x00; x00; x00]) by reflexivity.
  reflexivity.
Qed.

Lemma generated_fixed (ks : list string) (n i : nat) :
  Z.of_nat n ≤ 65279 → (i < n)%nat →
  substitute (((fun i => IP_String (generated i)) <$> seq 0 n) ++ ks) (generated i)
  = generated i.
Proof.
  intros Hn Hi. unfold substitute. rewrite generated_anonymizable_lt by lia.
  by rewrite (index_of_app_l _ _ _ i) by (apply generated_keys_index; lia).
Qed.

(** With 65281 distinct addresses, the last one is replaced by 0.0.1.1 in
    the first run and by 0.0.0.0 in the second, so the string form of the
    anonymised result changes when it is anonymised again. *)
Lemma Anonymize_twice_differs :
  ∃ r1 r2 : Result,
    Anonymize (many_locals_probed (Z.to_nat 65281)) = Some r1
    ∧ Anonymize r1 = Some r2
    ∧ Result_String r1 ≠ Result_String r2.
Proof.
  eexists. eexists. split; [apply Anonymize_many_locals_probed; lia|].
  split; [apply Anonymize_substitutes; repeat constructor; by eexists|].
  assert (Ha : Z.of_nat (Z.to_nat 65279) = 65279) by lia.
  replace (Z.to_nat 65281) with (Z.to_nat 65279 + 2)%nat by lia.
  generalize dependent (Z.to_nat 65279). intros a Ha.
  assert (Hga : generated a = IPv4 x00 x00 x00 x00)
    by (unfold generated; rewrite Ha; reflexivity).
  assert (HgSa : generated (S a) = IPv4 x00 x00 x01 x01)
    by (unfold generated; rewrite Nat2Z.inj_succ, Ha; reflexivity).
  set (G := fun i => IP_String (generated i)).
  set (C := generated <$> seq 0 a).
  assert (Hseq : generated <$> seq 0 (a + 2) = C ++ [generated a; generated (S a)]).
  { rewrite seq_app, fmap_app. reflexivity. }
  rewrite Hseq.
  match goal with
  | |- Result_String ?r ≠ _ => set (r1 := r)
  end.
  assert (Hkeys : first_keys (Result_IPs r1) = (G <$> seq 0 a) ++ [G (S a)]).
  { unfold first_keys, Result_IPs, r1.
    cbn [LocalIPs MappingProbes FirewallProbes flat_map probe_IPs Local Mapped Remote IP app].
    rewrite !foldl_app.
    assert (HC : foldl note_key [] C = G <$> seq 0 a).
    { unfold C. rewrite note_keys_distinct.
      - by rewrite <- list_fmap_compose.
      - apply Forall_fmap, Forall_forall. intros i Hi. apply elem_of_seq in Hi.
        apply generated_anonymizable_lt. lia.
      - rewrite <- list_fmap_compose. apply generated_keys_NoDup. lia. }
    rewrite HC. cbn [foldl].
    rewrite (note_key_known _ (generated a)) by (left; by rewrite Hga).
    assert (Hfresh : G (S a) ∉ G <$> seq 0 a).
    { intros Hin. apply list_elem_of_fmap in Hin as (j & E & Hj).
      apply elem_of_seq in Hj. apply generated_String_inj in E; lia. }
    unfold note_key at 4. rewrite HgSa at 1.
    change (anonymizable (IPv4 x00 x00 x01 x01)) with true.
    rewrite (bool_decide_eq_false_2 _ Hfresh). cbn [andb negb].
    rewrite (note_key_known _ [x00; x00; x00; x00]) by by left.
    rewrite (note_key_known _ (generated 0)).
    2: { right. apply elem_of_app. left. apply list_elem_of_fmap. exists 0%nat.
         split; [done|]. apply elem_of_seq. lia. }
    rewrite (note_key_known _ (generated 1)).
    2: { right. apply elem_of_app. left. apply list_elem_of_fmap. exists 1%nat.
         split; [done|]. apply elem_of_seq. lia. }
    reflexivity. }
  rewrite Hkeys.
  assert (HL : map (substitute ((G <$> seq 0 a) ++ [G (S a)])) (C ++ [generated a; generated (S a)])
               = C ++ [generated a; generated a]).
  { rewrite map_app. f_equal.
    - unfold C. change (map ?f ?l) with (f <$> l). rewrite <- list_fmap_compose.
      apply list_fmap_ext. intros k i Hi. apply list_elem_of_lookup_2, elem_of_seq in Hi.
      apply generated_fixed; lia.
    - cbn [map]. f_equal.
      + apply substitute_not_anonymizable. by rewrite Hga.
      + f_equal. unfold substitute. rewrite HgSa at 1.
        change (anonymizable (IPv4 x00 x00 x01 x01)) with true.
        rewrite index_of_app_fresh.
        * by rewrite length_fmap, length_seq.
        * intros Hin. apply list_elem_of_fmap in Hin as (j & E & Hj).
          apply elem_of_seq in Hj. apply generated_String_inj in E; lia. }
  unfold Result_String, r1, map_Result.
  cbn [LocalIPs MappingProbes FirewallProbes map length fmap option_fmap option_map].
  change (Z.of_nat 1 =? 0) with false. cbv iota.
  rewrite HL, !write_lines_app. cbn [write_lines]. rewrite Hga, HgSa.
  intros E.
  apply append_inj_r in E. apply append_inj_r in E.
  rewrite !append_assoc in E. apply append_inj_r in E.
  apply append_inj_r in E. apply append_inj_r in E.
  change (IP_String (IPv4 x00 x00 x01 x01)) with "0.0.1.1" in E.
  change (IP_String (IPv4 x00 x00 x00 x00)) with "0.0.0.0" in E.
  discriminate E.
Qed.

(** ** float64: digits, conversion, rounding *)

Lemma digits_bounds (p : positive) : 2 ^ (digits p - 1) ≤ Z.pos p < 2 ^ (digits p).
Proof.
  unfold digits. induction p as [p IH|p IH|]; cbn [digits2_pos].
  - rewrite Pos2Z.inj_succ. replace (Z.succ (Z.pos (digits2_pos p)) - 1) with (Z.succ (Z.pos (digits2_pos p) - 1)) by lia.
    rewrite !Z.pow_succ_r by lia. lia.
  - rewrite Pos2Z.inj_succ. replace (Z.succ (Z.pos (digits2_pos p)) - 1) with (Z.succ (Z.pos (digits2_pos p) - 1)) by lia.
    rewrite !Z.pow_succ_r by lia. lia.
  - simpl. lia.
Qed.

Lemma digits_unique (p : positive) (d : Z) :
  2 ^ (d - 1) ≤ Z.pos p < 2 ^ d → digits p = d.
Proof.
  intros [Hlo Hhi]. pose proof (digits_bounds p) as [Hlo' Hhi'].
  assert (Hd : 0 < digits p) by (unfold digits; lia).
  destruct (Z.lt_trichotomy (digits p) d) as [Hlt|[Heq|Hgt]]; [|done|].
  - assert (2 ^ digits p ≤ 2 ^ (d - 1)) by (apply Z.pow_le_mono_r; lia). lia.
  - assert (d ≤ 0 ∨ 0 < d) as [Hneg|Hpos] by lia.
    + assert (2 ^ d ≤ 1).
      { destruct (Z.eq_dec d 0) as [->|]; [simpl; lia|]. rewrite Z.pow_neg_r by lia. lia. }
      lia.
    + assert (2 ^ d ≤ 2 ^ (digits p - 1)) by (apply Z.pow_le_mono_r; lia). lia.
Qed.

Lemma iter_xO (p k : positive) : Z.pos (Pos.iter xO p k) = Z.pos p * 2 ^ Z.pos k.
Proof.
  induction k as [|k IH] using Pos.peano_ind.
  - simpl. lia.
  - rewrite Pos.iter_succ, Pos2Z.inj_succ, Z.pow_succ_r by lia.
    rewrite Pos2Z.inj_xO, IH. lia.
Qed.

Lemma fexp_small (e : Z) : -1021 ≤ e → fexp Float64.prec Float64.emax e = e - 53.
Proof. intros He. unfold fexp, emin, Float64.prec, Float64.emax. lia. Qed.

Lemma loc_of_shr_record_of_loc (m : Z) (l : location) :
  loc_of_shr_record (shr_record_of_loc m l) = l ∧ shr_m (shr_record_of_loc m l) = m.
Proof. destruct l as [|[]]; done. Qed.


Lemma round_nearest_even_pos (m : positive) (loc : location) :
  ∃ m1 : positive,
    round_nearest_even (Z.pos m) loc = Z.pos m1
    ∧ Z.pos m ≤ Z.pos m1 ≤ Z.pos m + 1.
Proof.
  destruct loc as [|[]]; simpl.
  - exists m. lia.
  - destruct m; simpl; eexists; (split; [reflexivity|lia]).
  - exists m. lia.
  - exists (m + 1)%positive. lia.
Qed.

Lemma Zdigits2_pos (m : positive) : Zdigits2 (Z.pos m) = digits m.
Proof. reflexivity. Qed.

Lemma shr_zero (mrs : shr_record) (e : Z) : shr mrs e 0 = (mrs, e).
Proof. reflexivity. Qed.

Lemma shr_one (mrs : shr_record) (e : Z) : shr mrs e 1 = (shr_1 mrs, e + 1).
Proof. reflexivity. Qed.

(** Rounding a 53-digit mantissa. *)
Lemma binary_round_aux_53 (m : positive) (e : Z) (loc : location) :
  digits m = 53 → -1074 ≤ e ≤ 970 →
  binary_round_aux Float64.prec Float64.emax false (Z.pos m) e loc
  = if round_nearest_even (Z.pos m) loc <? 2 ^ 53
    then S754_finite false (Z.to_pos (round_nearest_even (Z.pos m) loc)) e
    else S754_finite false (Z.to_pos (2 ^ 52)) (e + 1).
Proof.
  intros Hm He. pose proof (digits_bounds m) as Hb. rewrite Hm in Hb.
  unfold binary_round_aux, shr_fexp. rewrite Zdigits2_pos, Hm.
  assert (Hf : fexp Float64.prec Float64.emax (53 + e) - e = 0)
    by (unfold fexp, emin, Float64.prec, Float64.emax; lia).
  rewrite Hf, shr_zero.
  destruct (loc_of_shr_record_of_loc (Z.pos m) loc) as [-> ->].
  destruct (round_nearest_even_pos m loc) as (m1 & -> & Hm1).
  destruct (Z.ltb_spec (Z.pos m1) (2 ^ 53)) as [Hlt|Hge].
  - assert (Hd1 : digits m1 = 53) by (apply digits_unique; lia).
    rewrite Zdigits2_pos, Hd1, Hf, shr_zero. simpl shr_m.
    unfold Float64.emax, Float64.prec.
    destruct (Z.leb_spec e (1024 - 53)); [reflexivity|lia].
  - assert (Hm1' : m1 = Z.to_pos (2 ^ 53)) by lia. subst m1.
    assert (Hf1 : fexp Float64.prec Float64.emax (Zdigits2 (Z.pos (Z.to_pos (2 ^ 53))) + e) - e = 1)
      by (change (Zdigits2 (Z.pos (Z.to_pos (2 ^ 53)))) with 54;
          unfold fexp, emin, Float64.prec, Float64.emax; lia).
    rewrite Hf1, shr_one. simpl shr_m.
    unfold Float64.emax, Float64.prec.
    destruct (Z.leb_spec (e + 1) (1024 - 53)); [reflexivity|lia].
Qed.

(** Rounding a 54-digit mantissa: one bit is shifted out first. *)
Lemma binary_round_aux_54 (q : positive) (e : Z) (loc : location) :
  digits q = 54 → -1074 ≤ e ≤ 969 →
  binary_round_aux Float64.prec Float64.emax false (Z.pos q) e loc
  = let m1 := round_nearest_even (Z.pos q / 2) (shifted_loc (Z.pos q) loc) in
    if m1 <? 2 ^ 53
    then S754_finite false (Z.to_pos m1) (e + 1)
    else S754_finite false (Z.to_pos (2 ^ 52)) (e + 2).
Proof.
  intros Hq He. pose proof (digits_bounds q) as Hb. rewrite Hq in Hb.
  unfold binary_round_aux, shr_fexp at 1. rewrite Zdigits2_pos, Hq.
  assert (Hf : fexp Float64.prec Float64.emax (54 + e) - e = 1)
    by (unfold fexp, emin, Float64.prec, Float64.emax; lia).
  rewrite Hf, shr_one. fold (shifted_loc (Z.pos q) loc).
  assert (Hm : ∃ m : positive,
             shr_m (shr_1 (shr_record_of_loc (Z.pos q) loc)) = Z.pos m
             ∧ Z.pos q / 2 = Z.pos m).
  { destruct q as [q|q|]; [| |simpl in Hb; lia].
    - exists q. split; [by destruct loc as [|[]]|].
      rewrite Pos2Z.inj_xI. Z.div_mod_to_equations. lia.
    - exists q. split; [by destruct loc as [|[]]|].
      rewrite Pos2Z.inj_xO. Z.div_mod_to_equations. lia. }
  destruct Hm as (m & -> & Hm2). rewrite Hm2. cbv zeta.
  assert (Hdm : digits m = 53).
  { apply digits_unique. change (2 ^ 54) with (2 * 2 ^ 53) in Hb.
    change (2 ^ (54 - 1)) with (2 * 2 ^ 52) in Hb. change (2 ^ (53 - 1)) with (2 ^ 52).
    Z.div_mod_to_equations. lia. }
  pose proof (digits_bounds m) as Hbm. rewrite Hdm in Hbm.
  destruct (round_nearest_even_pos m (shifted_loc (Z.pos q) loc)) as (m1 & -> & Hm1).
  unfold shr_fexp.
  assert (Hf0 : fexp Float64.prec Float64.emax (53 + (e + 1)) - (e + 1) = 0)
    by (unfold fexp, emin, Float64.prec, Float64.emax; lia).
  destruct (Z.ltb_spec (Z.pos m1) (2 ^ 53)) as [Hlt|Hge].
  - assert (Hd1 : digits m1 = 53) by (apply digits_unique; lia).
    rewrite Zdigits2_pos, Hd1, Hf0, shr_zero. simpl shr_m.
    unfold Float64.emax, Float64.prec.
    destruct (Z.leb_spec (e + 1) (1024 - 53)); [reflexivity|lia].
  - assert (Hm1' : m1 = Z.to_pos (2 ^ 53)) by lia. subst m1.
    assert (Hf1 : fexp Float64.prec Float64.emax
                    (Zdigits2 (Z.pos (Z.to_pos (2 ^ 53))) + (e + 1)) - (e + 1) = 1)
      by (change (Zdigits2 (Z.pos (Z.to_pos (2 ^ 53)))) with 54;
          unfold fexp, emin, Float64.prec, Float64.emax; lia).
    rewrite Hf1, shr_one. simpl shr_m.
    unfold Float64.emax, Float64.prec.
    replace (e + 1 + 1) with (e + 2) by lia.
    destruct (Z.leb_spec (e + 2) (1024 - 53)); [reflexivity|lia].
Qed.

(** [float64(n)] for a positive [n] below 2^53 is exact: the mantissa is
    [n] shifted left to 53 digits. *)
Lemma of_int_pos (p : positive) :
  Z.pos p < 2 ^ 53 →
  ∃ m : positive,
    Float64.of_int (Z.pos p) = S754_finite false m (digits p - 53)
    ∧ Z.pos m = Z.pos p * 2 ^ (53 - digits p)
    ∧ digits m = 53.
Proof.
  intros Hp. pose proof (digits_bounds p) as [Hlo Hhi].
  assert (Hd : 1 ≤ digits p ≤ 53).
  { split; [unfold digits; lia|].
    destruct (Z.le_gt_cases (digits p) 53) as [|Hgt]; [done|].
    assert (2 ^ 53 ≤ 2 ^ (digits p - 1)) by (apply Z.pow_le_mono_r; lia). lia. }
  unfold Float64.of_int, binary_normalize, binary_round.
  fold (digits p). rewrite Z.add_0_r, fexp_small by lia.
  unfold shl_align. rewrite Z.sub_0_r.
  assert (Hm : ∃ m : positive,
             match digits p - 53 with
             | Z.neg d => (Pos.iter xO p d, digits p - 53)
             | _ => (p, 0)
             end = (m, digits p - 53)
             ∧ Z.pos m = Z.pos p * 2 ^ (53 - digits p)).
  { destruct (digits p - 53) as [|d|d] eqn:E; [|lia|].
    - exists p. split; [reflexivity|]. replace (53 - digits p) with 0 by lia. simpl. lia.
    - exists (Pos.iter xO p d). split; [reflexivity|].
      rewrite iter_xO. do 2 f_equal. lia. }
  destruct Hm as (m & -> & Hm). exists m.
  assert (Hdm : digits m = 53).
  { apply digits_unique. rewrite Hm. split.
    - replace (53 - 1) with ((digits p - 1) + (53 - digits p)) by lia.
      rewrite Z.pow_add_r by lia. apply Z.mul_le_mono_nonneg_r; [apply Z.pow_nonneg|]; lia.
    - replace 53 with (digits p + (53 - digits p)) at 2 by lia.
      rewrite Z.pow_add_r by lia. apply Z.mul_lt_mono_pos_r; [apply Z.pow_pos_nonneg|]; lia. }
  split; [|done].
  rewrite (binary_round_aux_53 m _ loc_Exact Hdm) by lia. simpl round_nearest_even.
  pose proof (digits_bounds m) as Hb. rewrite Hdm in Hb.
  destruct (Z.ltb_spec (Z.pos m) (2 ^ 53)); [reflexivity|lia].
Qed.

Lemma new_location_spec (m r : Z) :
  0 < m → 0 ≤ r < m →
  new_location m r
  = if r =? 0 then loc_Exact else loc_Inexact (2 * r ?= m).
Proof.
  intros Hm Hr. unfold new_location, new_location_even, new_location_odd.
  change IntDef.Z.even with Z.even. change IntDef.Z.eqb with Z.eqb.
  change IntDef.Z.compare with Z.compare. change IntDef.Z.mul with Z.mul.
  change IntDef.Z.add with Z.add.
  destruct (Z.even m) eqn:Ev; cbv beta; destruct (r =? 0); try reflexivity.
  f_equal. destruct (Z.compare_spec (2 * r + 1) m) as [E|E|E];
    symmetry; [apply Z.compare_lt_iff|apply Z.compare_lt_iff|apply Z.compare_gt_iff].
  - lia.
  - lia.
  - assert (m ≠ 2 * r); [|lia]. intros ->.
    rewrite Z.even_mul in Ev. done.
Qed.

(** Dividing two normal numbers. *)
Lemma SFdiv_normal (m1 m2 : positive) (e1 e2 : Z) :
  digits m1 = 53 → digits m2 = 53 → -60 ≤ e1 ≤ 0 → -60 ≤ e2 ≤ 0 →
  Float64.div (S754_finite false m1 e1) (S754_finite false m2 e2)
  = binary_round_aux Float64.prec Float64.emax false
      (Z.pos m1 * 2 ^ 53 / Z.pos m2) (e1 - e2 - 53)
      (new_location (Z.pos m2) (Z.pos m1 * 2 ^ 53 mod Z.pos m2)).
Proof.
  intros H1 H2 He1 He2. unfold Float64.div, SFdiv, SFdiv_core_binary.
  rewrite !Zdigits2_pos, H1, H2.
  replace (53 + e1 - (53 + e2)) with (e1 - e2) by lia.
  rewrite fexp_small by lia.
  replace (Z.min (e1 - e2 - 53) (e1 - e2)) with (e1 - e2 - 53) by lia.
  replace (e1 - e2 - (e1 - e2 - 53)) with 53 by lia.
  rewrite Z.shiftl_mul_pow2 by lia.
  unfold Z.div, Z.modulo.
  destruct (Z.div_eucl (Z.pos m1 * 2 ^ 53) (Z.pos m2)) as [q r]. reflexivity.
Qed.

(** Comparing a normal number with 0.8. *)
Lemma geb_lit_0_8 (m : positive) (e : Z) :
  Float64.geb (S754_finite false m e) Float64.lit_0_8
  = (-53 <? e) || ((e =? -53) && (7205759403792794 <=? Z.pos m)).
Proof.
  unfold Float64.geb, Float64.lit_0_8, SFleb, SFcompare.
  change IntDef.Z.compare with Z.compare.
  change (PosDef.Pos.compare_cont Eq) with Pos.compare.
  destruct (Z.compare_spec (-53) e) as [E|E|E].
  - subst e. change (-53 <? -53) with false. change (-53 =? -53) with true.
    cbv [orb andb].
    change (7205759403792794 ?= m)%positive
      with (7205759403792794 ?= Z.pos m).
    destruct (Z.compare_spec 7205759403792794 (Z.pos m)) as [H|H|H];
      symmetry; [apply Z.leb_le|apply Z.leb_le|apply Z.leb_gt]; lia.
  - destruct (Z.ltb_spec (-53) e); [reflexivity|lia].
  - destruct (Z.ltb_spec (-53) e); [lia|].
    destruct (Z.eqb_spec e (-53)); [lia|reflexivity].
Qed.

Lemma digits_mono (p t : positive) : Z.pos p ≤ Z.pos t → digits p ≤ digits t.
Proof.
  intros Hpt. pose proof (digits_bounds p) as [Hp _]. pose proof (digits_bounds t) as [_ Ht].
  destruct (Z.le_gt_cases (digits p) (digits t)) as [|Hgt]; [done|].
  assert (2 ^ digits t ≤ 2 ^ (digits p - 1))
    by (apply Z.pow_le_mono_r; unfold digits in *; lia).
  lia.
Qed.

(** Where rounding to nearest even reaches an even threshold [c]. *)
Lemma round_nearest_even_threshold (q r m c : Z) :
  0 < m → 0 ≤ r < m → Z.even c = true →
  c ≤ round_nearest_even q (if r =? 0 then loc_Exact else loc_Inexact (2 * r ?= m))
  ↔ (2 * c - 1) * m ≤ 2 * (q * m + r).
Proof.
  intros Hm Hr Hc. apply Z.even_spec in Hc as [c' ->].
  destruct (Z.eqb_spec r 0) as [->|Hr0]; simpl.
  - split; nia.
  - destruct (Z.compare_spec (2 * r) m) as [E|E|E]; simpl.
    + destruct (Z.even q) eqn:Eq.
      * apply Z.even_spec in Eq as [q' ->]. split; nia.
      * rewrite <- Z.negb_odd in Eq. apply negb_false_iff, Z.odd_spec in Eq as [q' ->].
        split; nia.
    + split; nia.
    + split; nia.
Qed.

Lemma round_nearest_even_shifted_threshold (q : positive) (loc : location) (c : Z) :
  Z.even c = true →
  c ≤ round_nearest_even (Z.pos q / 2) (shifted_loc (Z.pos q) loc)
  ↔ 2 * c - 1 ≤ Z.pos q.
Proof.
  intros Hc. apply Z.even_spec in Hc as [c' ->].
  destruct q as [q|q|].
  - replace (Z.pos q~1 / 2) with (Z.pos q)
      by (rewrite Pos2Z.inj_xI; Z.div_mod_to_equations; lia).
    rewrite Pos2Z.inj_xI.
    destruct loc as [|[]]; unfold shifted_loc; simpl.
    + destruct q; simpl; lia.
    + lia.
    + lia.
    + lia.
  - replace (Z.pos q~0 / 2) with (Z.pos q)
      by (rewrite Pos2Z.inj_xO; Z.div_mod_to_equations; lia).
    rewrite Pos2Z.inj_xO.
    destruct loc as [|[]]; unfold shifted_loc; simpl; lia.
  - change (1 / 2) with 0.
    destruct loc as [|[]]; unfold shifted_loc; simpl; lia.
Qed.

(** The quotient of two normal numbers against 0.8, in exact terms. *)
Lemma div_normal_ge_0_8 (m1 m2 : positive) (e1 e2 : Z) :
  digits m1 = 53 → digits m2 = 53 → -52 ≤ e1 ≤ e2 → e2 ≤ 0 →
  Float64.geb (Float64.div (S754_finite false m1 e1) (S754_finite false m2 e2))
    Float64.lit_0_8 = true
  ↔ 14411518807585587 * Z.pos m2 * 2 ^ (e2 - e1) ≤ Z.pos m1 * 2 ^ 54.
Proof.
  intros Hd1 Hd2 He1 He2.
  pose proof (digits_bounds m1) as Hb1. rewrite Hd1 in Hb1.
  pose proof (digits_bounds m2) as Hb2. rewrite Hd2 in Hb2.
  change (2 ^ (53 - 1)) with 4503599627370496 in Hb1, Hb2.
  change (2 ^ 53) with 9007199254740992 in Hb1, Hb2.
  rewrite SFdiv_normal by (done || lia).
  pose proof (Z.div_mod (Z.pos m1 * 2 ^ 53) (Z.pos m2) ltac:(lia)) as Hdm.
  pose proof (Z.mod_pos_bound (Z.pos m1 * 2 ^ 53) (Z.pos m2) ltac:(lia)) as Hr.
  rewrite new_location_spec by lia.
  set (q := Z.pos m1 * 2 ^ 53 / Z.pos m2) in *.
  set (r := Z.pos m1 * 2 ^ 53 mod Z.pos m2) in *.
  set (s := e2 - e1). assert (Hs : 0 ≤ s ≤ 52) by (unfold s; lia).
  replace (e1 - e2 - 53) with (- s - 53) by (unfold s; lia).
  change (2 ^ 53) with 9007199254740992 in Hdm.
  change (2 ^ 54) with 18014398509481984.
  assert (Hq : 4503599627370496 ≤ q < 18014398509481984) by nia.
  assert (HP : s = 0 ∧ 2 ^ s = 1 ∨ s = 1 ∧ 2 ^ s = 2 ∨ 2 ≤ s ∧ 4 ≤ 2 ^ s).
  { destruct (Z.eq_dec s 0) as [->|]; [by left|].
    destruct (Z.eq_dec s 1) as [->|]; [by right; left|].
    right; right. split; [lia|]. change 4 with (2 ^ 2). apply Z.pow_le_mono_r; lia. }
  generalize dependent (2 ^ s). intros P HP.
  destruct q as [|Q|Q] eqn:EQ; [lia| |lia].
  destruct (Z.lt_ge_cases (Z.pos Q) 9007199254740992) as [Hlt|Hge].
  - assert (HdQ : digits Q = 53) by (apply digits_unique; lia).
    rewrite (binary_round_aux_53 Q _ _ HdQ) by lia.
    pose proof (round_nearest_even_threshold (Z.pos Q) r (Z.pos m2) 7205759403792794
                  ltac:(lia) Hr eq_refl) as Hth.
    pose proof (round_nearest_even_threshold (Z.pos Q) r (Z.pos m2) 9007199254740992
                  ltac:(lia) Hr eq_refl) as Hov.
    destruct (round_nearest_even_pos Q
                (if r =? 0 then loc_Exact else loc_Inexact (2 * r ?= Z.pos m2)))
      as (R & HR & HRb).
    rewrite HR in Hth, Hov |- *. change (2 ^ 53) with 9007199254740992.
    destruct (Z.ltb_spec (Z.pos R) 9007199254740992) as [HRlt|HRge].
    + rewrite geb_lit_0_8. simpl Z.to_pos.
      destruct (Z.ltb_spec (-53) (- s - 53)); [lia|]. simpl orb.
      destruct (Z.eqb_spec (- s - 53) (-53)); simpl andb.
      * rewrite Z.leb_le. nia.
      * split; [done|]. nia.
    + rewrite geb_lit_0_8. change (Z.pos (Z.to_pos (2 ^ 52))) with 4503599627370496.
      destruct (Z.ltb_spec (-53) (- s - 53 + 1)); simpl orb.
      * split; [intros _|done]. nia.
      * destruct (Z.eqb_spec (- s - 53 + 1) (-53)); simpl andb.
        -- split; [done|]. nia.
        -- split; [done|]. nia.
  - assert (HdQ : digits Q = 54) by (apply digits_unique; simpl; lia).
    rewrite (binary_round_aux_54 Q _ _ HdQ) by lia. cbv zeta.
    pose proof (round_nearest_even_shifted_threshold Q
                  (if r =? 0 then loc_Exact else loc_Inexact (2 * r ?= Z.pos m2))
                  7205759403792794 eq_refl) as Hth.
    pose proof (round_nearest_even_shifted_threshold Q
                  (if r =? 0 then loc_Exact else loc_Inexact (2 * r ?= Z.pos m2))
                  9007199254740992 eq_refl) as Hov.
    assert (HR : ∃ R : positive,
               round_nearest_even (Z.pos Q / 2)
                 (shifted_loc (Z.pos Q)
                    (if r =? 0 then loc_Exact else loc_Inexact (2 * r ?= Z.pos m2)))
               = Z.pos R).
    { assert (∃ M : positive, Z.pos Q / 2 = Z.pos M) as [M ->].
      { destruct (Z.pos Q / 2) as [|M|M] eqn:E; [|by exists M|];
          Z.div_mod_to_equations; lia. }
      destruct (round_nearest_even_pos M
                  (shifted_loc (Z.pos Q)
                     (if r =? 0 then loc_Exact else loc_Inexact (2 * r ?= Z.pos m2))))
        as (R & HR & _).
      by exists R. }
    destruct HR as [R HR]. rewrite HR in Hth, Hov |- *.
    change (2 ^ 53) with 9007199254740992.
    destruct (Z.ltb_spec (Z.pos R) 9007199254740992) as [HRlt|HRge].
    + rewrite geb_lit_0_8. simpl Z.to_pos.
      destruct (Z.ltb_spec (-53) (- s - 53 + 1)); simpl orb.
      * split; [intros _|done]. nia.
      * destruct (Z.eqb_spec (- s - 53 + 1) (-53)); simpl andb.
        -- rewrite Z.leb_le. nia.
        -- split; [done|]. nia.
    + rewrite geb_lit_0_8. change (Z.pos (Z.to_pos (2 ^ 52))) with 4503599627370496.
      destruct (Z.ltb_spec (-53) (- s - 53 + 2)); simpl orb.
      * split; [intros _|done]. nia.
      * destruct (Z.eqb_spec (- s - 53 + 2) (-53)); simpl andb.
        -- split; [done|]. nia.
        -- split; [done|]. nia.
Qed.

(** The comparison [float64(p) / float64(t) >= 0.8], for integers below
    2^53, decides [p / t >= 4 / 5]; with [t = 0] the quotient is NaN and the
    comparison is false. *)
Lemma float_ratio_ge_0_8 (p t : Z) :
  0 ≤ p ≤ t → t < 2 ^ 53 →
  Float64.geb (Float64.div (Float64.of_int p) (Float64.of_int t)) Float64.lit_0_8 = true
  ↔ 0 < t ∧ 4 * t ≤ 5 * p.
Proof.
  intros Hpt Ht. destruct t as [|tp|tp]; [| |lia].
  - assert (p = 0) as -> by lia. split; [discriminate|lia].
  - destruct p as [|pp|pp]; [| |lia].
    + destruct (of_int_pos tp Ht) as (m2 & -> & _ & _).
      split; [discriminate|lia].
    + assert (Hp : Z.pos pp < 2 ^ 53) by lia.
      destruct (of_int_pos pp Hp) as (m1 & -> & Hm1 & Hd1).
      destruct (of_int_pos tp Ht) as (m2 & -> & Hm2 & Hd2).
      pose proof (digits_mono pp tp ltac:(lia)) as Hmono.
      assert (Hdp : 1 ≤ digits pp) by (unfold digits; lia).
      pose proof (digits_bounds tp) as [Hlo _].
      assert (Hdt : digits tp ≤ 53).
      { destruct (Z.le_gt_cases (digits tp) 53) as [|Hgt]; [done|].
        assert (2 ^ 53 ≤ 2 ^ (digits tp - 1)) by (apply Z.pow_le_mono_r; lia). lia. }
      rewrite div_normal_ge_0_8 by (done || lia).
      rewrite Hm1, Hm2.
      replace (digits tp - 53 - (digits pp - 53)) with (digits tp - digits pp) by lia.
      replace (14411518807585587 * (Z.pos tp * 2 ^ (53 - digits tp)) * 2 ^ (digits tp - digits pp))
        with (14411518807585587 * Z.pos tp * 2 ^ (53 - digits pp)).
      2: { replace (53 - digits pp) with ((53 - digits tp) + (digits tp - digits pp)) by lia.
           rewrite Z.pow_add_r by lia. ring. }
      replace (Z.pos pp * 2 ^ (53 - digits pp) * 2 ^ 54)
        with (Z.pos pp * 2 ^ 54 * 2 ^ (53 - digits pp)) by ring.
      rewrite <- Z.mul_le_mono_pos_r by (apply Z.pow_pos_nonneg; lia).
      change (2 ^ 54) with 18014398509481984.
      change (2 ^ 53) with 9007199254740992 in Ht.
      lia.
Qed.

(** ** Port preservation *)

Example lit_0_8_is_4_over_5 :
  Float64.div (Float64.of_int 4) (Float64.of_int 5) = Float64.lit_0_8.
Proof. reflexivity. Qed.

Example one_third :
  Float64.div (Float64.of_int 1) (Float64.of_int 3)
  = S754_finite false 6004799503160661 (-54).
Proof. reflexivity. Qed.

Lemma mappingPreservesSourcePort_loop_counts (ps : list MappingProbe) (total preserved : Z) :
  Forall mapped_if_replied ps →
  mappingPreservesSourcePort_loop ps total preserved
  = Some (total + Z.of_nat (length (replies ps)),
          preserved + Z.of_nat (length (List.filter port_preserved (replies ps)))).
Proof.
  intros Hwf. revert total preserved.
  induction Hwf as [|p ps Hp _ IH]; intros total preserved.
  - simpl. by rewrite !Z.add_0_r.
  - cbn [mappingPreservesSourcePort_loop]. destruct (Timeout p) eqn:Ht.
    + rewrite replies_cons_timeout by done. apply IH.
    + destruct (Hp Ht) as [m Hm]. rewrite (replies_cons_reply p m) by done.
      rewrite Hm, IH. cbn [List.filter port_preserved length].
      destruct (Port (Local p) =? Port m); cbn [length]; f_equal; f_equal; lia.
Qed.

Lemma filter_length_le {A : Type} (f : A → bool) (l : list A) :
  (length (List.filter f l) ≤ length l)%nat.
Proof.
  induction l as [|x l IH]; simpl; [lia|]. destruct (f x); simpl; lia.
Qed.

Lemma replies_length_le (ps : list MappingProbe) :
  (length (replies ps) ≤ length ps)%nat.
Proof.
  induction ps as [|p ps IH]; [done|]. unfold replies in *. cbn [omap list_omap].
  destruct (reply_of p); cbn [length]; lia.
Qed.

(** C5. On a result whose non-timeout probes carry their mapped endpoint
    (and with fewer than 2^53 probes, so that the counts convert to float64
    exactly), [mappingPreservesSourcePort] is true exactly when there is at
    least one non-timeout probe and the preserved ones are at least four
    fifths of them; with no non-timeout probe it is false. *)
Theorem mappingPreservesSourcePort_spec (r : Result)
    (Hwf : Forall mapped_if_replied (MappingProbes r))
    (Hlen : Z.of_nat (length (MappingProbes r)) < 2 ^ 53) :
  ∃ b : bool,
    mappingPreservesSourcePort r = Some b
    ∧ (b = true ↔ 0 < replied_total r ∧ 4 * replied_total r ≤ 5 * replied_preserved r)
    ∧ (replied_total r = 0 → b = false).
Proof.
  unfold mappingPreservesSourcePort, replied_total, replied_preserved.
  rewrite mappingPreservesSourcePort_loop_counts by done. rewrite !Z.add_0_l.
  pose proof (replies_length_le (MappingProbes r)) as Hle.
  pose proof (filter_length_le port_preserved (replies (MappingProbes r))) as Hle'.
  eexists. split; [reflexivity|].
  assert (Hspec := float_ratio_ge_0_8
            (Z.of_nat (length (List.filter port_preserved (replies (MappingProbes r)))))
            (Z.of_nat (length (replies (MappingProbes r)))) ltac:(lia) ltac:(lia)).
  split; [exact Hspec|].
  intros H0. apply not_true_is_false. intros Hb. apply Hspec in Hb. lia.
Qed.

Lemma mappingPreservesSourcePort_spec_witness :
  ∃ b : bool,
    mappingPreservesSourcePort two_sockets_example = Some b
    ∧ (b = true ↔ 0 < replied_total two_sockets_example
                  ∧ 4 * replied_total two_sockets_example
                    ≤ 5 * replied_preserved two_sockets_example)
    ∧ (replied_total two_sockets_example = 0 → b = false).
Proof.
  apply (mappingPreservesSourcePort_spec two_sockets_example two_sockets_example_wf).
  reflexivity.
Defined.

(* ------------------------------------------------------------------ *)
(** * Worked scenarios *)

(** Whatever analysis [Analyze] returns, a set [NoData] flag comes with a
    set [NoNAT] flag. *)
Corollary Analyze_NoData_implies_NoNAT (r : Result) (a : Analysis) :
  Analyze r = Some a → NoData a = true → NoNAT a = true.
Proof.
  unfold Analyze. intros Ha Hnd.
  destruct (noNAT r) as [nn|] eqn:Hnn; [|discriminate].
  destruct (mappingVariesByDestIP r); [|discriminate].
  destruct (mappingVariesByDestPort r); [|discriminate].
  destruct (mappingPreservesSourcePort r); [|discriminate].
  destruct (multiplePublicIPs r); [|discriminate].
  cbn in Ha. injection Ha as <-. cbn in Hnd |- *.
  apply noData_true_iff in Hnd.
  unfold noNAT in Hnn. rewrite noNAT_loop_timeouts in Hnn by done.
  by injection Hnn as <-.
Qed.

(** Two sockets, one of which is seen from two public addresses and gets no
    answer from port 5060. *)
Example two_sockets_analysis :
  Analyze two_sockets_example
  = Some {| NoData := false; NoNAT := false;
            MappingVariesByDestIP := true; MappingVariesByDestPort := false;
            FirewallEnforcesDestIP := false; FirewallEnforcesDestPort := false;
            MappingPreservesSourcePort := false;
            MultiplePublicIPs := true;
            FilteredEgress := [5060] |}.
Proof. vm_compute. reflexivity. Qed.

(** A result made of timeouts only. *)
Example all_timeouts_analysis :
  ∃ a, Analyze all_timeouts_example = Some a
       ∧ NoData a = true ∧ NoNAT a = true
       ∧ MappingPreservesSourcePort a = false.
Proof. eexists. split; [vm_compute; reflexivity|]. by cbn. Qed.

(* ------------------------------------------------------------------ *)
(** * Further properties of the analyzer *)

(** ** No NAT *)

Lemma noNAT_ips_spec (l : list net_IP) (m : gmap string bool) (k : string) :
  get_bool (foldl (fun ips ip => <[IP_String ip := true]> ips) m l) k = true
  ↔ get_bool m k = true ∨ k ∈ map IP_String l.
Proof.
  revert m. induction l as [|ip l IH]; intros m; simpl.
  - rewrite elem_of_nil. tauto.
  - rewrite IH, get_bool_insert, elem_of_cons. split.
    + intros [[->|?]|?]; auto.
    + intros [?|[->|?]]; auto.
Qed.

Lemma noNAT_loop_spec (ips : gmap string bool) (ps : list MappingProbe) :
  Forall mapped_if_replied ps →
  ∃ b : bool,
    noNAT_loop ips ps = Some b
    ∧ (b = true ↔ ∀ l m rm, (l, m, rm) ∈ replies ps →
                    get_bool ips (IP_String (IP m)) = true).
Proof.
  induction 1 as [|p ps Hp _ IH]; cbn [noNAT_loop].
  - exists true. split; [done|]. split; [|done]. intros _ l m rm Hin.
    by apply elem_of_nil in Hin.
  - destruct (Timeout p) eqn:Ht.
    + rewrite replies_cons_timeout by done. exact IH.
    + destruct (Hp Ht) as [mp Hm]. rewrite Hm.
      rewrite (replies_cons_reply p mp) by done.
      destruct (get_bool ips (IP_String (IP mp))) eqn:Hg; cbn [negb].
      * destruct IH as (b & Hb & Hiff). exists b. split; [done|].
        rewrite Hiff. split.
        -- intros H l m rm [Heq|Hin]%elem_of_cons; [|by eapply H].
           by injection Heq as -> -> ->.
        -- intros H l m rm Hin. eapply H. by right.
      * exists false. split; [done|]. split; [done|]. intros H.
        rewrite <- Hg. eapply (H (Local p) mp (Remote p)). by left.
Qed.

(** [noNAT] holds exactly when the mapped IP of every answered probe is,
    by its textual form, one of the local IPs. *)
Theorem noNAT_spec (r : Result)
    (Hwf : Forall mapped_if_replied (MappingProbes r)) :
  ∃ b : bool,
    noNAT r = Some b
    ∧ (b = true ↔ ∀ l m rm, (l, m, rm) ∈ replies (MappingProbes r) →
                    IP_String (IP m) ∈ map IP_String (LocalIPs r)).
Proof.
  unfold noNAT.
  destruct (noNAT_loop_spec
              (foldl (fun ips ip => <[IP_String ip := true]> ips) ∅ (LocalIPs r))
              (MappingProbes r) Hwf) as (b & Hb & Hiff).
  exists b. split; [exact Hb|]. rewrite Hiff.
  split; intros H l m rm Hin; specialize (H l m rm Hin).
  - apply noNAT_ips_spec in H as [H|H]; [|done].
    by rewrite get_bool_empty in H.
  - apply noNAT_ips_spec. by right.
Qed.

Lemma noNAT_spec_witness :
  ∃ b : bool,
    noNAT two_sockets_example = Some b
    ∧ (b = true ↔ ∀ l m rm, (l, m, rm) ∈ replies (MappingProbes two_sockets_example) →
                    IP_String (IP m) ∈ map IP_String (LocalIPs two_sockets_example)).
Proof. exact (noNAT_spec two_sockets_example two_sockets_example_wf). Defined.

(** ** Multiple public IPs *)

Lemma multiplePublicIPs_loop_spec (ips : gmap string bool) (ps : list MappingProbe) :
  Forall mapped_if_replied ps →
  ∃ ips' : gmap string bool,
    multiplePublicIPs_loop ips ps = Some ips'
    ∧ ∀ k, k ∈ dom ips' ↔ k ∈ dom ips ∨ ∃ l m rm, (l, m, rm) ∈ replies ps ∧ k = IP_String (IP m).
Proof.
  intros Hwf. revert ips.
  induction Hwf as [|p ps Hp _ IH]; intros ips; cbn [multiplePublicIPs_loop].
  - exists ips. split; [done|]. intros k. split; [auto|].
    intros [?|(l & m & rm & Hin & _)]; [done|]. by apply elem_of_nil in Hin.
  - destruct (Timeout p) eqn:Ht.
    + rewrite replies_cons_timeout by done. apply IH.
    + destruct (Hp Ht) as [mp Hm]. rewrite Hm.
      rewrite (replies_cons_reply p mp) by done.
      destruct (IH (<[IP_String (IP mp) := true]> ips)) as (ips' & Hr & Hdom).
      exists ips'. split; [done|]. intros k. rewrite Hdom, dom_insert, elem_of_union,
        elem_of_singleton. split.
      * intros [[->|?]|(l & m & rm & Hin & ->)]; auto.
        -- right. exists (Local p), mp, (Remote p). split; [by left|done].
        -- right. exists l, m, rm. split; [by right|done].
      * intros [?|(l & m & rm & [Heq|Hin]%elem_of_cons & ->)]; auto.
        -- injection Heq as -> -> ->. auto.
        -- right. by exists l, m, rm.
Qed.

Lemma size_gt_1_iff (X : gset string) :
  (1 < size X)%nat ↔ ∃ x y, x ∈ X ∧ y ∈ X ∧ x ≠ y.
Proof.
  split.
  - intros Hsz. destruct (set_choose_L X) as [x Hx].
    { intros ->. rewrite size_empty in Hsz. lia. }
    destruct (set_choose_L (X ∖ {[x]})) as [y Hy].
    { intros He. apply (f_equal size) in He.
      rewrite size_difference, size_singleton, size_empty in He
        by by apply singleton_subseteq_l.
      lia. }
    apply elem_of_difference in Hy as [Hy Hne]. rewrite elem_of_singleton in Hne.
    exists x, y. by split_and!.
  - intros (x & y & Hx & Hy & Hne).
    assert ({[x]} ∪ {[y]} ⊆ X) as Hsub.
    { apply union_subseteq. split; by apply singleton_subseteq_l. }
    apply subseteq_size in Hsub.
    rewrite size_union, !size_singleton in Hsub; [lia|].
    by apply disjoint_singleton_l, not_elem_of_singleton.
Qed.

Lemma multiplePublicIPs_two_texts (ps : list MappingProbe) :
  Forall mapped_if_replied ps →
  ∃ ips : gmap string bool,
    multiplePublicIPs_loop ∅ ps = Some ips
    ∧ ((1 <? Z.of_nat (size ips)) = true
       ↔ ∃ l1 m1 r1 l2 m2 r2,
           (l1, m1, r1) ∈ replies ps ∧ (l2, m2, r2) ∈ replies ps
           ∧ IP_String (IP m1) ≠ IP_String (IP m2)).
Proof.
  intros Hwf.
  destruct (multiplePublicIPs_loop_spec ∅ ps Hwf) as (ips' & -> & Hdom).
  eexists. split; [reflexivity|].
  rewrite Z.ltb_lt. rewrite <- size_dom.
  change 1 with (Z.of_nat 1). rewrite <- Nat2Z.inj_lt, size_gt_1_iff.
  split.
  - intros (x & y & Hx & Hy & Hne).
    apply Hdom in Hx as [Hx|(l1 & m1 & r1 & H1 & ->)]; [by rewrite dom_empty in Hx|].
    apply Hdom in Hy as [Hy|(l2 & m2 & r2 & H2 & ->)]; [by rewrite dom_empty in Hy|].
    by exists l1, m1, r1, l2, m2, r2.
  - intros (l1 & m1 & r1 & l2 & m2 & r2 & H1 & H2 & Hne).
    exists (IP_String (IP m1)), (IP_String (IP m2)). split_and!; [| |done].
    + apply Hdom. right. by exists l1, m1, r1.
    + apply Hdom. right. by exists l2, m2, r2.
Qed.

(** [multiplePublicIPs] holds exactly when two answered probes have mapped
    IPs with different textual forms. *)
Theorem multiplePublicIPs_spec (r : Result)
    (Hwf : Forall mapped_if_replied (MappingProbes r)) :
  ∃ b : bool,
    multiplePublicIPs r = Some b
    ∧ (b = true ↔ ∃ l1 m1 r1 l2 m2 r2,
                    (l1, m1, r1) ∈ replies (MappingProbes r)
                    ∧ (l2, m2, r2) ∈ replies (MappingProbes r)
                    ∧ IP_String (IP m1) ≠ IP_String (IP m2)).
Proof.
  unfold multiplePublicIPs.
  destruct (multiplePublicIPs_two_texts (MappingProbes r) Hwf) as (ips & -> & Hiff).
  by eexists.
Qed.

Lemma multiplePublicIPs_spec_witness :
  ∃ b : bool,
    multiplePublicIPs two_sockets_example = Some b
    ∧ (b = true ↔ ∃ l1 m1 r1 l2 m2 r2,
                    (l1, m1, r1) ∈ replies (MappingProbes two_sockets_example)
                    ∧ (l2, m2, r2) ∈ replies (MappingProbes two_sockets_example)
                    ∧ IP_String (IP m1) ≠ IP_String (IP m2)).
Proof. exact (multiplePublicIPs_spec two_sockets_example two_sockets_example_wf). Defined.

(** ** What a verdict of variation rests on *)

Lemma mappingVariesByDestIP_loop_sound (all ps : list MappingProbe)
    (local : string) (remoteIP mappedIP : net_IP) (mappedPort : Z) :
  (∀ p, p ∈ ps → p ∈ all) →
  (local = "" ∨ ∃ p0 m0, p0 ∈ all ∧ Timeout p0 = false ∧ Mapped p0 = Some m0
                        ∧ UDPAddr_String (Local p0) = local
                        ∧ IP (Remote p0) = remoteIP
                        ∧ IP m0 = mappedIP ∧ Port m0 = mappedPort) →
  mappingVariesByDestIP_loop ps local remoteIP mappedIP mappedPort = Some true →
  varies_evidence (fun a b => IP_Equal (IP b) (IP a)) all.
Proof.
  revert local remoteIP mappedIP mappedPort.
  induction ps as [|q ps IH]; intros local remoteIP mappedIP mappedPort Hsub Hanc;
    cbn [mappingVariesByDestIP_loop]; [discriminate|].
  assert (Hq : q ∈ all) by (apply Hsub; by left).
  assert (Hsub' : ∀ p, p ∈ ps → p ∈ all) by (intros p Hp; apply Hsub; by right).
  destruct (Timeout q) eqn:Ht; [by apply IH|].
  destruct (String.eqb (UDPAddr_String (Local q)) local) eqn:Hl; cbn [negb].
  - apply String.eqb_eq in Hl.
    destruct Hanc as [->|(p0 & m0 & Hp0 & Ht0 & Hm0 & Hl0 & Hr0 & Hi0 & Hpt0)].
    { by destruct (JoinHostPort_nonempty _ _ Hl). }
    destruct (IP_Equal (IP (Remote q)) remoteIP) eqn:Hre.
    { apply IH; [done|]. right. by exists p0, m0. }
    destruct (Mapped q) as [mq|] eqn:Hmq; [|discriminate].
    destruct (negb (IP_Equal (IP mq) mappedIP) || negb (Port mq =? mappedPort)) eqn:Hd.
    + intros _. exists p0, q, m0, mq. split_and!; try done.
      * congruence.
      * by rewrite Hr0.
      * apply orb_true_iff in Hd as [Hd|Hd]; apply negb_true_iff in Hd.
        -- left. by rewrite Hi0.
        -- right. apply Z.eqb_neq in Hd. congruence.
    + apply IH; [done|]. right. by exists p0, m0.
  - destruct (Mapped q) as [mq|] eqn:Hmq; [|discriminate].
    apply IH; [done|]. right. by exists q, mq.
Qed.

Lemma mappingVariesByDestPort_loop_sound (all ps : list MappingProbe)
    (local : string) (remotePort : Z) (mappedIP : net_IP) (mappedPort : Z) :
  (∀ p, p ∈ ps → p ∈ all) →
  (local = "" ∨ ∃ p0 m0, p0 ∈ all ∧ Timeout p0 = false ∧ Mapped p0 = Some m0
                        ∧ UDPAddr_String (Local p0) = local
                        ∧ Port (Remote p0) = remotePort
                        ∧ IP m0 = mappedIP ∧ Port m0 = mappedPort) →
  mappingVariesByDestPort_loop ps local remotePort mappedIP mappedPort = Some true →
  varies_evidence (fun a b => Port b =? Port a) all.
Proof.
  revert local remotePort mappedIP mappedPort.
  induction ps as [|q ps IH]; intros local remotePort mappedIP mappedPort Hsub Hanc;
    cbn [mappingVariesByDestPort_loop]; [discriminate|].
  assert (Hq : q ∈ all) by (apply Hsub; by left).
  assert (Hsub' : ∀ p, p ∈ ps → p ∈ all) by (intros p Hp; apply Hsub; by right).
  destruct (Timeout q) eqn:Ht; [by apply IH|].
  destruct (String.eqb (UDPAddr_String (Local q)) local) eqn:Hl; cbn [negb].
  - apply String.eqb_eq in Hl.
    destruct Hanc as [->|(p0 & m0 & Hp0 & Ht0 & Hm0 & Hl0 & Hr0 & Hi0 & Hpt0)].
    { by destruct (JoinHostPort_nonempty _ _ Hl). }
    destruct (Port (Remote q) =? remotePort) eqn:Hre.
    { apply IH; [done|]. right. by exists p0, m0. }
    destruct (Mapped q) as [mq|] eqn:Hmq; [|discriminate].
    destruct (negb (IP_Equal (IP mq) mappedIP) || negb (Port mq =? mappedPort)) eqn:Hd.
    + intros _. exists p0, q, m0, mq. split_and!; try done.
      * congruence.
      * by rewrite Hr0.
      * apply orb_true_iff in Hd as [Hd|Hd]; apply negb_true_iff in Hd.
        -- left. by rewrite Hi0.
        -- right. apply Z.eqb_neq in Hd. congruence.
    + apply IH; [done|]. right. by exists p0, m0.
  - destruct (Mapped q) as [mq|] eqn:Hmq; [|discriminate].
    apply IH; [done|]. right. by exists q, mq.
Qed.

(** A verdict of variation is never without evidence: when
    [mappingVariesByDestIP] (or [mappingVariesByDestPort]) returns true, two
    answered probes from the same local endpoint to destinations with
    different IPs (ports) carry different mapped endpoints. *)
Theorem mappingVaries_sound (r : Result) :
  (mappingVariesByDestIP r = Some true →
     varies_evidence (fun a b => IP_Equal (IP b) (IP a)) (MappingProbes r))
  ∧ (mappingVariesByDestPort r = Some true →
     varies_evidence (fun a b => Port b =? Port a) (MappingProbes r)).
Proof.
  split; intros H.
  - eapply mappingVariesByDestIP_loop_sound; [|by left|exact H]. done.
  - eapply mappingVariesByDestPort_loop_sound; [|by left|exact H]. done.
Qed.

Example mappingVariesByDestIP_two_sockets :
  mappingVariesByDestIP two_sockets_example = Some true.
Proof. reflexivity. Qed.

(** ** The generic scan *)

Lemma mappingVariesBy_loop_anchored (keyFunc : MappingProbe → string)
    (ps : list MappingProbe) (key : string) (mappedIP : net_IP) (mappedPort : Z) :
  mappedIP ≠ [] →
  Forall mapped_if_replied ps →
  mappingVariesBy_loop keyFunc ps key mappedIP mappedPort
  = Some (existsb (fun p => negb (String.eqb (keyFunc p) key)
                            && differs_from mappedIP mappedPort p) (answered ps)).
Proof.
  intros Hne. induction 1 as [|p ps Hp _ IH]; [reflexivity|].
  cbn [mappingVariesBy_loop answered List.filter].
  fold (answered ps).
  destruct (Timeout p) eqn:Ht; cbn [negb]; [exact IH|].
  destruct mappedIP as [|b0 mappedIP]; [done|].
  change (Z.of_nat (length (b0 :: mappedIP)) =? 0) with false. cbv iota.
  cbn [existsb]. unfold differs_from at 1.
  destruct (Hp Ht) as [m Hm]. rewrite Hm.
  destruct (String.eqb (keyFunc p) key); cbn [negb andb orb]; [exact IH|].
  destruct (negb (IP_Equal (b0 :: mappedIP) (IP m)) || negb (Port m =? mappedPort));
    [reflexivity|exact IH].
Qed.

(** The unused generic scan [mappingVariesBy] anchors itself on the first
    answered probe and never moves: it returns true exactly when a later
    answered probe has another key and another mapped endpoint than that
    first one. *)
Theorem mappingVariesBy_spec (keyFunc : MappingProbe → string) (r : Result)
    (Hwf : Forall (fun p => Timeout p = false → ∃ m, Mapped p = Some m ∧ IP m ≠ [])
                  (MappingProbes r)) :
  mappingVariesBy r keyFunc
  = Some match answered (MappingProbes r) with
         | [] => false
         | p0 :: rest =>
             existsb (fun p => negb (String.eqb (keyFunc p) (keyFunc p0))
                               && mapped_differs p0 p) rest
         end.
Proof.
  unfold mappingVariesBy. induction Hwf as [|p ps Hp Hps IH]; [reflexivity|].
  cbn [mappingVariesBy_loop answered List.filter]. fold (answered ps).
  destruct (Timeout p) eqn:Ht; cbn [negb]; [exact IH|].
  change (Z.of_nat (length (@nil byte)) =? 0) with true. cbv iota.
  destruct (Hp eq_refl) as (m & Hm & Hne). rewrite Hm.
  rewrite mappingVariesBy_loop_anchored; [|done|].
  - unfold mapped_differs. by rewrite Hm.
  - eapply Forall_impl; [exact Hps|]. intros q Hq Htq.
    destruct (Hq Htq) as (mq & -> & _). by eexists.
Qed.

Lemma mappingVariesBy_spec_witness :
  mappingVariesBy two_sockets_example (fun p => IP_String (IP (Remote p)))
  = Some match answered (MappingProbes two_sockets_example) with
         | [] => false
         | p0 :: rest =>
             existsb (fun p => negb (String.eqb (IP_String (IP (Remote p)))
                                                (IP_String (IP (Remote p0))))
                               && mapped_differs p0 p) rest
         end.
Proof.
  apply (mappingVariesBy_spec (fun p => IP_String (IP (Remote p))) two_sockets_example).
  repeat constructor; simpl; intros; try discriminate; eexists; (split; [reflexivity|discriminate]).
Defined.

(* ------------------------------------------------------------------ *)
(** * The client's options and destinations *)

(** ** Destinations *)

Lemma dests_inner (ip : net_IP) (ports : list Z) (ret : list UDPAddr) :
  foldl (fun ret port => ret ++ [ {| IP := ip; Port := port |} ]) ret ports
  = ret ++ map (fun port => {| IP := ip; Port := port |}) ports.
Proof.
  revert ret. induction ports as [|port ports IH]; intros ret; simpl.
  - by rewrite app_nil_r.
  - rewrite IH. by rewrite <- app_assoc.
Qed.

Lemma dests_outer (ips : list net_IP) (ports : list Z) (ret : list UDPAddr) :
  foldl (fun ret ip =>
           foldl (fun ret port => ret ++ [ {| IP := ip; Port := port |} ]) ret ports)
        ret ips
  = ret ++ flat_map (fun ip => map (fun port => {| IP := ip; Port := port |}) ports) ips.
Proof.
  revert ret. induction ips as [|ip ips IH]; intros ret; simpl.
  - by rewrite app_nil_r.
  - rewrite IH, dests_inner. by rewrite <- app_assoc.
Qed.

Lemma grid_length (ips : list net_IP) (ports : list Z) :
  length (flat_map (fun ip => map (fun port => {| IP := ip; Port := port |}) ports) ips)
  = (length ips * length ports)%nat.
Proof.
  induction ips as [|ip ips IH]; simpl; [reflexivity|].
  rewrite length_app, length_map, IH. reflexivity.
Qed.

Lemma grid_lookup (ips : list net_IP) (ports : list Z) (i j : nat) (ip : net_IP) (port : Z) :
  ips !! i = Some ip → ports !! j = Some port →
  flat_map (fun ip => map (fun port => {| IP := ip; Port := port |}) ports) ips
    !! (i * length ports + j)%nat
  = Some {| IP := ip; Port := port |}.
Proof.
  revert i. induction ips as [|ip0 ips IH]; intros i Hi Hj; [done|].
  simpl. destruct i as [|i].
  - simpl in Hi. injection Hi as ->. simpl.
    rewrite lookup_app_l by (rewrite length_map; by eapply lookup_lt_Some).
    by rewrite list_lookup_fmap, Hj.
  - simpl in Hi. rewrite lookup_app_r by (rewrite length_map; lia).
    rewrite length_map.
    replace (S i * length ports + j - length ports)%nat
      with (i * length ports + j)%nat by lia.
    by apply IH.
Qed.

Lemma grid_elem_of (ips : list net_IP) (ports : list Z) (a : UDPAddr) :
  a ∈ flat_map (fun ip => map (fun port => {| IP := ip; Port := port |}) ports) ips
  ↔ IP a ∈ ips ∧ Port a ∈ ports.
Proof.
  rewrite list_elem_of_In, in_flat_map. split.
  - intros (ip & Hip & Hin). apply in_map_iff in Hin as (port & <- & Hport).
    simpl. by rewrite !list_elem_of_In.
  - intros [Hip Hport]. exists (IP a). rewrite <- list_elem_of_In. split; [done|].
    apply in_map_iff. exists (Port a). rewrite <- list_elem_of_In. by destruct a.
Qed.

Lemma dests_grid (ips : list net_IP) (ports : list Z) :
  dests ips ports
  = flat_map (fun ip => map (fun port => {| IP := ip; Port := port |}) ports) ips.
Proof. unfold dests. by rewrite dests_outer. Qed.

(** [dests] lists every pair of a resolved IP and a port exactly in
    IP-major order: there are [len(ips) * len(ports)] destinations, and the
    one for the [i]-th IP and the [j]-th port sits at index
    [i * len(ports) + j]. *)
Theorem dests_spec (ips : list net_IP) (ports : list Z) :
  length (dests ips ports) = (length ips * length ports)%nat
  ∧ (∀ i j ip port, ips !! i = Some ip → ports !! j = Some port →
       dests ips ports !! (i * length ports + j)%nat = Some {| IP := ip; Port := port |})
  ∧ (∀ a, a ∈ dests ips ports ↔ IP a ∈ ips ∧ Port a ∈ ports).
Proof.
  rewrite dests_grid. split_and!.
  - apply grid_length.
  - intros i j ip port. apply grid_lookup.
  - apply grid_elem_of.
Qed.

(** ** Default options *)

Lemma if_Options (c : bool) (o1 o2 : Options) :
  (if c then o1 else o2)
  = {| ServerAddrs := if c then ServerAddrs o1 else ServerAddrs o2;
       Ports := if c then Ports o1 else Ports o2;
       ResolveDuration := if c then ResolveDuration o1 else ResolveDuration o2;
       MappingDuration := if c then MappingDuration o1 else MappingDuration o2;
       MappingTransmitInterval :=
         if c then MappingTransmitInterval o1 else MappingTransmitInterval o2;
       MappingSockets := if c then MappingSockets o1 else MappingSockets o2;
       FirewallDuration := if c then FirewallDuration o1 else FirewallDuration o2;
       FirewallTransmitInterval :=
         if c then FirewallTransmitInterval o1 else FirewallTransmitInterval o2 |}.
Proof. destruct c, o1, o2; reflexivity. Qed.

Lemma if_same {A : Type} (c : bool) (x : A) : (if c then x else x) = x.
Proof. by destruct c. Qed.

Ltac Options_fields :=
  cbv beta iota delta [ServerAddrs Ports ResolveDuration MappingDuration
                       MappingTransmitInterval MappingSockets
                       FirewallDuration FirewallTransmitInterval].

(** The statements of [addDefaults] do not interfere: each option gets its
    default exactly when it was at its zero value. *)
Lemma addDefaults_filled (o : Options) : addDefaults o = filled o.
Proof.
  destruct o as [sa po rd md mt ms fd ft]. unfold addDefaults, filled. cbv zeta.
  unfold addDefaults_ServerAddrs. rewrite if_Options. Options_fields. rewrite ?if_same.
  unfold addDefaults_Ports. rewrite if_Options. Options_fields. rewrite ?if_same.
  unfold addDefaults_ResolveDuration. rewrite if_Options. Options_fields. rewrite ?if_same.
  unfold addDefaults_MappingDuration. rewrite if_Options. Options_fields. rewrite ?if_same.
  unfold addDefaults_MappingTransmitInterval. rewrite if_Options. Options_fields.
  rewrite ?if_same.
  unfold addDefaults_MappingSockets. rewrite if_Options. Options_fields. rewrite ?if_same.
  unfold addDefaults_FirewallDuration. rewrite if_Options. Options_fields. rewrite ?if_same.
  unfold addDefaults_FirewallTransmitInterval. rewrite if_Options. Options_fields.
  rewrite ?if_same.
  reflexivity.
Qed.

Lemma filled_all_set (o : Options) : all_set (filled o).
Proof.
  destruct o as [sa po rd md mt ms fd ft]. unfold all_set, filled. Options_fields.
  split_and!.
  - destruct sa; by vm_compute.
  - destruct po; by vm_compute.
  - destruct (Z.eqb_spec rd 0); [by vm_compute|done].
  - destruct (Z.eqb_spec md 0); [by vm_compute|done].
  - destruct (Z.eqb_spec mt 0); [by vm_compute|done].
  - destruct (Z.eqb_spec ms 0); [by vm_compute|done].
  - destruct (Z.eqb_spec fd 0); [by vm_compute|done].
  - destruct (Z.eqb_spec ft 0); [by vm_compute|done].
Qed.

Lemma filled_id (o : Options) : all_set o → filled o = o.
Proof.
  destruct o as [sa po rd md mt ms fd ft]. unfold all_set, filled. Options_fields.
  intros (H1 & H2 & H3 & H4 & H5 & H6 & H7 & H8).
  destruct sa; [done|]. destruct po; [done|].
  cbn [length]. rewrite !Nat2Z.inj_succ.
  repeat match goal with
         | |- context [?x =? 0] =>
             let E := fresh in destruct (Z.eqb_spec x 0) as [E|E]; [exfalso; lia|]
         end.
  reflexivity.
Qed.

(** [addDefaults] leaves no option at its zero value, keeps every option
    that is set ([addDefaults o] is [filled o]), changes nothing in options
    that are all set, and so does nothing when applied twice. *)
Theorem addDefaults_spec (o : Options) :
  all_set (addDefaults o)
  ∧ addDefaults o = filled o
  ∧ (all_set o → addDefaults o = o)
  ∧ addDefaults (addDefaults o) = addDefaults o.
Proof.
  rewrite !addDefaults_filled. split_and!.
  - apply filled_all_set.
  - reflexivity.
  - apply filled_id.
  - apply filled_id, filled_all_set.
Qed.

(** ** Resolving the servers *)

Lemma To4_length (ip : net_IP) : To4 ip = [] ∨ length (To4 ip) = 4%nat.
Proof.
  unfold To4. destruct (Z.eqb_spec (Z.of_nat (length ip)) 4) as [H4|H4]; [right; lia|].
  destruct (Z.eqb_spec (Z.of_nat (length ip)) 16) as [H16|H16]; cbn [andb]; [|by left].
  destruct (isZeros (firstn 10 ip) && byte_eqb (nth 10 ip x00) xff
            && byte_eqb (nth 11 ip x00) xff); [|by left].
  right. rewrite length_take, length_drop. lia.
Qed.

Lemma resolve_results_spec (results ips : list net_IP) :
  foldl (fun ips result =>
           let ip := To4 result in
           if (Z.of_nat (length ip) =? 0) then ips else ips ++ [ip]) ips results
  = ips ++ List.filter (fun ip => negb (Z.of_nat (length ip) =? 0)) (map To4 results).
Proof.
  revert ips. induction results as [|x results IH]; intros ips; simpl.
  - by rewrite app_nil_r.
  - rewrite IH. destruct (Z.of_nat (length (To4 x)) =? 0); simpl; [done|].
    by rewrite <- app_assoc.
Qed.

Lemma resolveServerAddrs_loop_spec (lookup : string → option (list net_IP))
    (addrs : list string) (ips : list net_IP) :
  match resolveServerAddrs_loop lookup addrs ips with
  | Some ips' =>
      ∃ results : list (list net_IP),
        map lookup addrs = map Some results
        ∧ ips' = ips ++ List.filter (fun ip => negb (Z.of_nat (length ip) =? 0))
                          (map To4 (concat results))
  | None => ∃ addr, addr ∈ addrs ∧ lookup addr = None
  end.
Proof.
  revert ips. induction addrs as [|addr addrs IH]; intros ips; simpl.
  - exists []. by rewrite app_nil_r.
  - destruct (lookup addr) as [results|] eqn:Hl.
    + specialize (IH (foldl (fun ips result =>
                               let ip := To4 result in
                               if (Z.of_nat (length ip) =? 0) then ips else ips ++ [ip])
                            ips results)).
      destruct (resolveServerAddrs_loop lookup addrs _) as [ips'|].
      * destruct IH as (rs & Hrs & ->). exists (results :: rs). split.
        -- simpl. by rewrite Hrs.
        -- rewrite resolve_results_spec. simpl.
           by rewrite map_app, List.filter_app, <- app_assoc.
      * destruct IH as (a & Ha & Hn). exists a. split; [by right|done].
    + exists addr. split; [by left|done].
Qed.

(** [resolveServerAddrs] fails as soon as one name fails to resolve, and
    otherwise returns, in order, the 4-byte form of every IPv4 address the
    names resolved to: every IP it returns is 4 bytes long. *)
Theorem resolveServerAddrs_spec (lookup : string → option (list net_IP))
    (addrs : list string) :
  match resolveServerAddrs lookup addrs with
  | Some ips =>
      (∃ results : list (list net_IP),
         map lookup addrs = map Some results
         ∧ ips = List.filter (fun ip => negb (Z.of_nat (length ip) =? 0))
                   (map To4 (concat results)))
      ∧ Forall (fun ip => length ip = 4%nat) ips
  | None => ∃ addr, addr ∈ addrs ∧ lookup addr = None
  end.
Proof.
  unfold resolveServerAddrs.
  pose proof (resolveServerAddrs_loop_spec lookup addrs []) as H.
  destruct (resolveServerAddrs_loop lookup addrs []) as [ips|]; [|exact H].
  destruct H as (results & Hrs & ->). cbn [app]. split; [by exists results|].
  apply Forall_forall. intros ip Hin. apply list_elem_of_In, filter_In in Hin as [Hin Hne].
  apply in_map_iff in Hin as (x & <- & _).
  destruct (To4_length x) as [H0|H4]; [|done].
  rewrite H0 in Hne. discriminate.
Qed.

(* ------------------------------------------------------------------ *)
(** * The server *)

(** ** Private addresses *)

Lemma land_240 (b : byte) :
  (Z.land (byte_val b) 240 =? 16) = (16 <=? byte_val b) && (byte_val b <=? 31).
Proof. destruct b; reflexivity. Qed.

Lemma To4_idem (ip : net_IP) : To4 (To4 ip) = To4 ip.
Proof.
  destruct (To4_length ip) as [->|H4]; [reflexivity|].
  unfold To4 at 1. by rewrite H4.
Qed.

(** [isrfc1918] panics exactly on an address that is not IPv4, and
    otherwise tells whether the address lies in 10.0.0.0/8, 172.16.0.0/12
    or 192.168.0.0/16. *)
Theorem isrfc1918_spec (ip : net_IP) :
  match To4 ip with
  | [a; b; c; d] =>
      ∃ r : bool,
        isrfc1918 ip = Some r
        ∧ (r = true ↔ byte_val a = 10
                      ∨ (byte_val a = 172 ∧ 16 ≤ byte_val b ≤ 31)
                      ∨ (byte_val a = 192 ∧ byte_val b = 168))
  | _ => isrfc1918 ip = None
  end.
Proof.
  unfold isrfc1918. destruct (To4_length ip) as [->|H4]; [reflexivity|].
  destruct (To4 ip) as [|a [|b [|c [|d [|e l]]]]]; try discriminate.
  eexists. split; [reflexivity|].
  rewrite land_240, !orb_true_iff, !andb_true_iff, !Z.eqb_eq, !Z.leb_le. tauto.
Qed.

(** ** The public addresses of the host *)

Lemma publicIPs_addrs_spec (IsGlobalUnicast : net_IP → bool)
    (addrs : list (option net_IP)) (ret : list net_IP) :
  Forall (fun ip => length ip = 4%nat ∧ isrfc1918 ip = Some false) ret →
  ∃ ret', publicIPs_addrs IsGlobalUnicast addrs ret = Some ret'
          ∧ Forall (fun ip => length ip = 4%nat ∧ isrfc1918 ip = Some false) ret'.
Proof.
  revert ret. induction addrs as [|[ip|] addrs IH]; intros ret Hret; simpl.
  - by exists ret.
  - destruct (Z.eqb_spec (Z.of_nat (length (To4 ip))) 0) as [H0|H0]; [by apply IH|].
    destruct (IsGlobalUnicast ip); cbn [negb]; [|by apply IH].
    destruct (To4_length ip) as [He|H4]; [rewrite He in H0; done|].
    assert (Hrfc : isrfc1918 (To4 ip) = isrfc1918 ip).
    { unfold isrfc1918. by rewrite To4_idem. }
    destruct (isrfc1918 ip) as [[|]|] eqn:Hr.
    + by apply IH.
    + apply IH. apply Forall_app. split; [done|]. by repeat constructor.
    + exfalso. unfold isrfc1918 in Hr.
      destruct (To4 ip) as [|a [|b l]]; simpl in H4; try lia; discriminate.
  - by apply IH.
Qed.

Lemma publicIPs_ifaces_spec (IsGlobalUnicast : net_IP → bool)
    (ifaces : list (option (list (option net_IP)))) (ret : list net_IP) :
  Forall (fun ip => length ip = 4%nat ∧ isrfc1918 ip = Some false) ret →
  match publicIPs_ifaces IsGlobalUnicast ifaces ret with
  | Returned ips =>
      Forall (fun ip => length ip = 4%nat ∧ isrfc1918 ip = Some false) ips
      ∧ None ∉ ifaces
  | Failed => None ∈ ifaces
  | Panicked => False
  end.
Proof.
  revert ret. induction ifaces as [|[addrs|] ifaces IH]; intros ret Hret; simpl.
  - split; [done|]. apply not_elem_of_nil.
  - destruct (publicIPs_addrs_spec IsGlobalUnicast addrs ret Hret) as (ret' & -> & Hret').
    specialize (IH ret' Hret').
    destruct (publicIPs_ifaces IsGlobalUnicast ifaces ret') as [ips| |].
    + destruct IH as [Hips Hnone]. split; [done|].
      intros [Heq|Hin]%elem_of_cons; [discriminate|done].
    + by right.
    + done.
  - by left.
Qed.

(** [publicIPs] never panics: [isrfc1918] is only reached for an IPv4
    address.  It fails exactly when the interfaces, or the addresses of
    one of them, cannot be listed; every IP it returns is 4 bytes long and
    not a private address. *)
Theorem publicIPs_spec (IsGlobalUnicast : net_IP → bool)
    (interfaces : option (list (option (list (option net_IP))))) :
  match publicIPs IsGlobalUnicast interfaces with
  | Returned ips =>
      Forall (fun ip => length ip = 4%nat ∧ isrfc1918 ip = Some false) ips
      ∧ ∃ ifaces, interfaces = Some ifaces ∧ None ∉ ifaces
  | Failed => interfaces = None ∨ ∃ ifaces, interfaces = Some ifaces ∧ None ∈ ifaces
  | Panicked => False
  end.
Proof.
  unfold publicIPs. destruct interfaces as [ifaces|]; [|by left].
  pose proof (publicIPs_ifaces_spec IsGlobalUnicast ifaces [] (Forall_nil_2 _)) as H.
  destruct (publicIPs_ifaces IsGlobalUnicast ifaces []) as [ips| |].
  - destruct H as [Hips Hnone]. split; [done|]. by exists ifaces.
  - right. by exists ifaces.
  - done.
Qed.

(** ** The listening sockets *)

Lemma newServer_ports_spec (listen : UDPAddr → bool) (ip : net_IP) (ports : list Z)
    (conns conns' : list UDPAddr) :
  newServer_ports listen ip ports conns = Some conns'
  ↔ conns' = conns ++ map (fun port => {| IP := ip; Port := port |}) ports
    ∧ Forall (fun port => listen {| IP := ip; Port := port |} = true) ports.
Proof.
  revert conns. induction ports as [|port ports IH]; intros conns; simpl.
  - rewrite app_nil_r. split.
    + intros [= <-]. by split.
    + by intros [-> _].
  - destruct (listen {| IP := ip; Port := port |}) eqn:Hl.
    + rewrite IH, <- app_assoc. simpl. split.
      * intros [-> Hf]. split; [done|]. by constructor.
      * intros [-> Hf]. split; [done|]. by inversion Hf.
    + split; [done|]. intros [_ Hf]. inversion Hf; congruence.
Qed.

Lemma newServer_ips_spec (listen : UDPAddr → bool) (ips : list net_IP) (ports : list Z)
    (conns conns' : list UDPAddr) :
  newServer_ips listen ips ports conns = Some conns'
  ↔ conns' = conns ++ flat_map (fun ip => map (fun port => {| IP := ip; Port := port |}) ports) ips
    ∧ Forall (fun ip => Forall (fun port => listen {| IP := ip; Port := port |} = true) ports) ips.
Proof.
  revert conns. induction ips as [|ip ips IH]; intros conns; simpl.
  - rewrite app_nil_r. split.
    + intros [= <-]. by split.
    + by intros [-> _].
  - destruct (newServer_ports listen ip ports conns) as [c|] eqn:Hp.
    + apply newServer_ports_spec in Hp as [-> Hf].
      rewrite IH, <- app_assoc. split.
      * intros [-> Hfs]. split; [done|]. by constructor.
      * intros [-> Hfs]. split; [done|]. by inversion Hfs.
    + split; [done|]. intros [_ Hfs]. inversion Hfs as [|? ? Hf _]; subst.
      assert (newServer_ports listen ip ports conns
              = Some (conns ++ map (fun port => {| IP := ip; Port := port |}) ports)) as He
        by by apply newServer_ports_spec.
      congruence.
Qed.

Lemma Forall_grid (P : UDPAddr → Prop) (ips : list net_IP) (ports : list Z) :
  Forall P (flat_map (fun ip => map (fun port => {| IP := ip; Port := port |}) ports) ips)
  ↔ Forall (fun ip => Forall (fun port => P {| IP := ip; Port := port |}) ports) ips.
Proof.
  induction ips as [|ip ips IH]; simpl.
  - split; constructor.
  - rewrite Forall_app, Forall_cons, IH, Forall_fmap. done.
Qed.

Lemma newServer_dests (ips : option (list net_IP)) (ports : option (list Z))
    (listen : UDPAddr → bool) (conns : list UDPAddr) :
  newServer ips ports listen = Some conns
  ↔ ∃ ips' ports',
      ips = Some ips' ∧ ports = Some ports'
      ∧ (2 ≤ length ips')%nat
      ∧ conns = dests ips' ports'
      ∧ Forall (fun addr => listen addr = true) conns.
Proof.
  unfold newServer. split.
  - destruct ips as [ips'|]; [|done].
    destruct (Z.ltb_spec (Z.of_nat (length ips')) 2) as [Hlt|Hge]; [done|].
    destruct ports as [ports'|]; [|done].
    rewrite newServer_ips_spec. intros [-> Hf]. exists ips', ports'.
    rewrite dests_grid. split_and!; try done; [lia|].
    cbn [app]. by apply (Forall_grid (fun addr => listen addr = true)).
  - intros (ips' & ports' & -> & -> & Hlen & -> & Hf).
    destruct (Z.ltb_spec (Z.of_nat (length ips')) 2) as [Hlt|Hge]; [lia|].
    rewrite dests_grid in *. apply newServer_ips_spec. split; [done|].
    by apply (Forall_grid (fun addr => listen addr = true)).
Qed.

(** [newServer] succeeds exactly when there are at least two public IPs,
    the ports parse, and every address can be listened on; it then listens
    on every IP and port, in the order in which the client's [dests] lists
    its destinations. *)
Theorem newServer_spec (ips : option (list net_IP)) (ports : option (list Z))
    (listen : UDPAddr → bool) (conns : list UDPAddr) :
  newServer ips ports listen = Some conns
  ↔ ∃ ips' ports',
      ips = Some ips' ∧ ports = Some ports'
      ∧ (2 ≤ length ips')%nat
      ∧ conns = dests ips' ports'
      ∧ Forall (fun addr => listen addr = true) conns.
Proof. apply newServer_dests. Qed.

(** ** The connection a request is answered from *)

Lemma respConn_from_spec (conns : list UDPAddr) (myaddr : UDPAddr) (buf : list byte)
    (i : nat) :
  match respConn_from conns myaddr (varyAddr buf) (varyPort buf) i with
  | Some k =>
      ∃ j u, k = (i + j)%nat ∧ conns !! j = Some u
             ∧ answers_from myaddr buf u = true
             ∧ ∀ j' u', (j' < j)%nat → conns !! j' = Some u' →
                        answers_from myaddr buf u' = false
  | None => ∀ u, u ∈ conns → answers_from myaddr buf u = false
  end.
Proof.
  revert i. induction conns as [|c conns IH]; intros i; cbn [respConn_from].
  - intros u Hu. by apply elem_of_nil in Hu.
  - assert (Hc : answers_from myaddr buf c
                 = negb (Bool.eqb (IP_Equal (IP c) (IP myaddr)) (varyAddr buf))
                   && negb (Bool.eqb (Port c =? Port myaddr) (varyPort buf))).
    { unfold answers_from.
      by destruct (IP_Equal (IP c) (IP myaddr)), (varyAddr buf),
           (Port c =? Port myaddr), (varyPort buf). }
    destruct (Bool.eqb (IP_Equal (IP c) (IP myaddr)) (varyAddr buf)) eqn:Ha;
      [|destruct (Bool.eqb (Port c =? Port myaddr) (varyPort buf)) eqn:Hp].
    1,2: specialize (IH (S i));
      destruct (respConn_from conns myaddr (varyAddr buf) (varyPort buf) (S i)) as [k|];
      [ destruct IH as (j & u & -> & Hj & Hu & Hmin); exists (S j), u;
        split_and!; [lia|done|done|];
        intros [|j'] u' Hlt Hj'; [injection Hj' as <-; rewrite Hc;
                                    by rewrite ?andb_false_r|];
        apply (Hmin j' u'); [lia|done]
      | intros u [->|Hin]%elem_of_cons; [rewrite Hc; by rewrite ?andb_false_r|by apply IH] ].
    exists 0%nat, c. split_and!; [lia|done|by rewrite Hc|]. intros j' u' Hlt. lia.
Qed.

(** [handle] answers from the first connection, in the order of [s.conns],
    whose address has the same IP as the receiving one exactly when no
    other address is asked for, and the same port exactly when no other
    port is asked for; [respConn] stays nil exactly when there is none. *)
Theorem respConn_spec (conns : list UDPAddr) (myaddr : UDPAddr) (buf : list byte) :
  match respConn conns myaddr buf with
  | Some i =>
      ∃ u, conns !! i = Some u
           ∧ answers_from myaddr buf u = true
           ∧ ∀ j u', (j < i)%nat → conns !! j = Some u' →
                     answers_from myaddr buf u' = false
  | None => ∀ u, u ∈ conns → answers_from myaddr buf u = false
  end.
Proof.
  unfold respConn. pose proof (respConn_from_spec conns myaddr buf 0) as H.
  destruct (respConn_from conns myaddr (varyAddr buf) (varyPort buf) 0) as [k|]; [|done].
  destruct H as (j & u & -> & Hj & Hu & Hmin). by exists u.
Qed.

Lemma NoDup_other `{EqDecision A} (l : list A) (x : A) :
  NoDup l → (2 ≤ length l)%nat → ∃ y, y ∈ l ∧ y ≠ x.
Proof.
  intros Hnd Hlen. destruct l as [|a [|b l]]; simpl in Hlen; try lia.
  apply NoDup_cons in Hnd as [Hab _].
  destruct (decide (a = x)) as [->|Hne].
  - exists b. split; [by right; left|]. intros ->. apply Hab. by left.
  - exists a. split; [by left|done].
Qed.

Lemma IP_Equal_4 (x y : net_IP) :
  length x = 4%nat → length y = 4%nat → IP_Equal x y = bool_decide (x = y).
Proof.
  intros Hx Hy. unfold IP_Equal. rewrite Hx, Hy. cbn [Nat.eqb].
  destruct (bytes_eqb x y) eqn:He.
  - apply bytes_eqb_eq in He. by rewrite bool_decide_eq_true_2.
  - rewrite bool_decide_eq_false_2; [done|]. intros ->.
    by rewrite bytes_eqb_refl in He.
Qed.

(** On a server that [newServer] built from distinct IPv4 addresses and at
    least two distinct ports, every request finds a connection to be
    answered from, whatever variation it asks for. *)
Theorem respConn_complete (ips : list net_IP) (ports : list Z) (listen : UDPAddr → bool)
    (conns : list UDPAddr) (myaddr : UDPAddr) (buf : list byte)
    (Hserver : newServer (Some ips) (Some ports) listen = Some conns)
    (Hv4 : Forall (fun ip => length ip = 4%nat) ips)
    (Hips : NoDup ips)
    (Hports : NoDup ports)
    (Hlen : (2 ≤ length ports)%nat)
    (Hmy : myaddr ∈ conns) :
  ∃ i u, respConn conns myaddr buf = Some i
         ∧ conns !! i = Some u
         ∧ answers_from myaddr buf u = true.
Proof.
  apply newServer_dests in Hserver
    as (ips' & ports' & [= <-] & [= <-] & Hlen' & -> & _).
  rewrite dests_grid in *.
  set (conns := flat_map _ ips) in *.
  pose proof (respConn_from_spec conns myaddr buf 0) as H. unfold respConn.
  destruct (respConn_from conns myaddr (varyAddr buf) (varyPort buf) 0) as [i|].
  { destruct H as (j & u & -> & Hi & Hu & _). by exists j, u. }
  exfalso.
  apply grid_elem_of in Hmy as [Hmyip Hmyport].
  assert (∃ ip, ip ∈ ips ∧ IP_Equal ip (IP myaddr) = negb (varyAddr buf))
    as (ip & Hip & Heq).
  { destruct (varyAddr buf); cbn [negb].
    - destruct (NoDup_other ips (IP myaddr) Hips Hlen') as (ip & Hip & Hne).
      exists ip. split; [done|].
      rewrite Forall_forall in Hv4.
      rewrite IP_Equal_4 by by apply Hv4. by apply bool_decide_eq_false_2.
    - exists (IP myaddr). split; [done|].
      rewrite Forall_forall in Hv4.
      rewrite IP_Equal_4 by by apply Hv4. by apply bool_decide_eq_true_2. }
  assert (∃ port, port ∈ ports ∧ (port =? Port myaddr) = negb (varyPort buf))
    as (port & Hport & Hpeq).
  { destruct (varyPort buf); cbn [negb].
    - destruct (NoDup_other ports (Port myaddr) Hports Hlen) as (port & Hport & Hne).
      exists port. split; [done|]. by apply Z.eqb_neq.
    - exists (Port myaddr). split; [done|]. apply Z.eqb_refl. }
  specialize (H {| IP := ip; Port := port |}).
  unfold conns in H. rewrite grid_elem_of in H.
  specialize (H (conj Hip Hport)).
  unfold answers_from in H. cbn [IP Port] in H. rewrite Heq, Hpeq in H.
  by destruct (varyAddr buf), (varyPort buf).
Qed.

Lemma respConn_complete_witness :
  ∃ i u, respConn two_servers_conns
           {| IP := [x08; x08; x08; x08]; Port := 80 |} [x03] = Some i
         ∧ two_servers_conns !! i = Some u
         ∧ answers_from {| IP := [x08; x08; x08; x08]; Port := 80 |} [x03] u = true.
Proof.
  apply (respConn_complete two_servers [80; 443] (fun _ => true)).
  - reflexivity.
  - repeat constructor.
  - apply NoDup_cons. split; [|apply NoDup_singleton].
    intros H%list_elem_of_singleton. discriminate H.
  - apply NoDup_cons. split; [|apply NoDup_singleton].
    intros H%list_elem_of_singleton. discriminate H.
  - simpl. lia.
  - by left.
Defined.

(** ** What the client's requests ask of the server *)

Lemma vary_byte0 (buf : list byte) :
  (varyAddr buf, varyPort buf)
  = (negb (Z.land (byte0 buf) 1 =? 0), negb (Z.land (byte0 buf) 2 =? 0)).
Proof. reflexivity. Qed.

(** The requests of the firewall phase ask, in turn and starting with the
    first one, for an answer from another address, another port, both and
    neither; the requests of the mapping phase always ask for an answer
    from the very address they were sent to. *)
Theorem requests_variations (dest : UDPAddr) (n : nat) (turns : list UDPAddr) :
  map (fun tx => (varyAddr tx.2, varyPort tx.2)) (transmit true (replicate n dest))
  = map (fun k => nth (k mod 4) firewall_variations (false, false)) (seq 0 n)
  ∧ Forall (fun tx => varyAddr tx.2 = false ∧ varyPort tx.2 = false)
           (transmit false turns).
Proof.
  split.
  - unfold transmit.
    transitivity (map (fun v => (negb (Z.land v 1 =? 0), negb (Z.land v 2 =? 0)))
                      (map (fun tx => byte0 tx.2)
                           (transmit_from true (repeat x00 180) (replicate n dest)))).
    { rewrite map_map. apply map_ext. intros tx. apply vary_byte0. }
    rewrite transmit_from_cycle_byte0; [|simpl; lia|by vm_compute].
    rewrite map_map. apply map_ext. intros k.
    change (byte0 (repeat x00 180)) with 0.
    replace ((0 + 1 + Z.of_nat k) mod 4) with ((Z.of_nat (k mod 4) + 1) mod 4).
    + assert (k mod 4 < 4)%nat as Hlt by (apply Nat.mod_upper_bound; lia).
      destruct (k mod 4)%nat as [|[|[|[|m]]]]; try reflexivity. lia.
    + rewrite Nat2Z.inj_mod. change (Z.of_nat 4) with 4.
      rewrite Z.add_mod_idemp_l by lia. f_equal. lia.
  - unfold transmit. eapply Forall_impl; [apply transmit_from_no_cycle|].
    intros tx ->. split; reflexivity.
Qed.

(* ------------------------------------------------------------------ *)
(** * The identity of a probe *)

(** ** The characters of the textual forms *)

Lemma chars_in_app (A s t : string) :
  chars_in A (s +:+ t) = chars_in A s && chars_in A t.
Proof.
  induction s as [|c s IH]; [reflexivity|].
  change (chars_in A (String c (s +:+ t)) = chars_in A (String c s) && chars_in A t).
  cbn [chars_in]. by rewrite IH, andb_assoc.
Qed.

Lemma chars_in_uint (d : Decimal.uint) :
  chars_in addr_alphabet (NilEmpty.string_of_uint d) = true.
Proof.
  induction d; [reflexivity|cbn [NilEmpty.string_of_uint chars_in]..];
    by rewrite IHd.
Qed.

Lemma chars_in_itoa (z : Z) : chars_in addr_alphabet (itoa z) = true.
Proof.
  unfold itoa, NilZero.string_of_int, NilZero.string_of_uint.
  destruct (Z.to_int z) as [d|d].
  - destruct d; try reflexivity; apply chars_in_uint.
  - cbn [chars_in]. destruct d; try reflexivity;
      change (mem_char "-" addr_alphabet) with true; cbn [andb]; apply chars_in_uint.
Qed.

Lemma chars_in_hexdigit (n : Z) : chars_in addr_alphabet (hexdigit n) = true.
Proof.
  unfold hexdigit. generalize (Z.to_nat n). intros k.
  do 16 (destruct k as [|k]; [reflexivity|]). by destruct k.
Qed.

Lemma chars_in_hexString (p : list byte) : chars_in addr_alphabet (hexString p) = true.
Proof.
  induction p as [|b p IH]; [reflexivity|].
  cbn [hexString]. by rewrite !chars_in_app, !chars_in_hexdigit, IH.
Qed.

Lemma chars_in_appendHex (v : Z) : chars_in addr_alphabet (appendHex v) = true.
Proof.
  unfold appendHex. destruct (v =? 0); [reflexivity|].
  rewrite !chars_in_app, chars_in_hexdigit.
  destruct (4096 <=? v), (256 <=? v), (16 <=? v);
    rewrite ?chars_in_hexdigit; reflexivity.
Qed.

Lemma chars_in_string6_from (ip : net_IP) (zs ze i n : nat) :
  chars_in addr_alphabet (string6_from ip zs ze i n) = true.
Proof.
  revert i. induction n as [|n IH]; intros i; [reflexivity|].
  cbn [string6_from]. destruct (8 <=? i)%nat; [reflexivity|].
  destruct (i =? zs)%nat.
  - rewrite chars_in_app. destruct (8 <=? ze)%nat; [reflexivity|].
    by rewrite chars_in_app, chars_in_appendHex, IH.
  - rewrite !chars_in_app, chars_in_appendHex, IH. by destruct (0 <? i)%nat.
Qed.

Lemma chars_in_IP_String (ip : net_IP) : chars_in addr_alphabet (IP_String ip) = true.
Proof.
  unfold IP_String. destruct (Z.of_nat (length ip) =? 0); [reflexivity|].
  destruct (negb (Z.of_nat (length ip) =? 4) && negb (Z.of_nat (length ip) =? 16)).
  { by rewrite chars_in_app, chars_in_hexString. }
  assert (Hs6 : chars_in addr_alphabet (string6 ip) = true).
  { unfold string6. destruct (longest_zero_run ip 0 8 (255%nat, 255%nat)).
    apply chars_in_string6_from. }
  destruct (To4 ip) as [|a [|b [|c [|d [|e l]]]]]; try exact Hs6.
  unfold byte_dec. by rewrite !chars_in_app, !chars_in_itoa.
Qed.

Lemma chars_in_UDPAddr_String (a : UDPAddr) :
  chars_in addr_alphabet (UDPAddr_String a) = true.
Proof.
  unfold UDPAddr_String, JoinHostPort, ipEmptyString.
  assert (chars_in addr_alphabet
            (if Z.of_nat (length (IP a)) =? 0 then "" else IP_String (IP a)) = true) as H.
  { destruct (Z.of_nat (length (IP a)) =? 0); [reflexivity|apply chars_in_IP_String]. }
  destruct (has_colon _); rewrite !chars_in_app, H, chars_in_itoa; reflexivity.
Qed.

Lemma chars_in_UDPAddr_ptr_String (a : option UDPAddr) :
  chars_in addr_alphabet (UDPAddr_ptr_String a) = true.
Proof. destruct a; [apply chars_in_UDPAddr_String|reflexivity]. Qed.

(** ** Splitting at a separator *)

Lemma separator_split (A : string) (c : ascii) (s1 s2 t1 t2 : string) :
  mem_char c A = false →
  chars_in A s1 = true → chars_in A s2 = true →
  s1 +:+ String c EmptyString +:+ t1 = s2 +:+ String c EmptyString +:+ t2 →
  s1 = s2 ∧ t1 = t2.
Proof.
  intros Hc. revert s2.
  induction s1 as [|c1 s1 IH]; intros [|c2 s2] H1 H2 E.
  - change (String c t1 = String c t2) in E. by injection E as ->.
  - change (String c t1 = String c2 (s2 +:+ String c EmptyString +:+ t2)) in E.
    injection E as <- _. cbn [chars_in] in H2. by rewrite Hc in H2.
  - change (String c1 (s1 +:+ String c EmptyString +:+ t1) = String c t2) in E.
    injection E as -> _. cbn [chars_in] in H1. by rewrite Hc in H1.
  - change (String c1 (s1 +:+ String c EmptyString +:+ t1)
            = String c2 (s2 +:+ String c EmptyString +:+ t2)) in E.
    injection E as -> E. cbn [chars_in] in H1, H2.
    apply andb_true_iff in H1 as [_ H1]. apply andb_true_iff in H2 as [_ H2].
    by destruct (IH s2 H1 H2 E) as [-> ->].
Qed.

(** The key of a probe tells apart exactly what the textual forms of its
    three endpoints and its timeout flag tell apart: deduplication by key
    merges two probes only when they print alike. *)
Theorem key_inj (p q : MappingProbe) :
  key p = key q
  ↔ UDPAddr_String (Local p) = UDPAddr_String (Local q)
    ∧ UDPAddr_ptr_String (Mapped p) = UDPAddr_ptr_String (Mapped q)
    ∧ UDPAddr_String (Remote p) = UDPAddr_String (Remote q)
    ∧ Timeout p = Timeout q.
Proof.
  unfold key. split.
  - intros E.
    apply (separator_split addr_alphabet) in E as [EL E];
      [|reflexivity|apply chars_in_UDPAddr_String..].
    apply (separator_split addr_alphabet) in E as [EM E];
      [|reflexivity|apply chars_in_UDPAddr_ptr_String..].
    apply (separator_split addr_alphabet) in E as [ER E];
      [|reflexivity|apply chars_in_UDPAddr_String..].
    split_and!; try done. by destruct (Timeout p), (Timeout q).
  - intros (-> & -> & -> & ->). reflexivity.
Qed.

(* ------------------------------------------------------------------ *)
(** * The receive loops *)

Lemma recorded_once_init {B : Type} (item : datagram → B) (keyf : B → string) :
  recorded_once item keyf [] ∅ [].
Proof.
  unfold recorded_once. split_and!.
  - intros k. rewrite get_bool_empty. split; [done|]. by intros ?%elem_of_nil.
  - constructor.
  - by intros p ?%elem_of_nil.
  - by intros d ?%elem_of_nil.
  - constructor.
Qed.

Lemma recorded_once_skip {B : Type} (item : datagram → B) (keyf : B → string)
    (processed : list datagram) (seen : gmap string bool) (ret : list B) (x : datagram) :
  recorded_once item keyf processed seen ret →
  is_reflection x = false ∨ get_bool seen (keyf (item x)) = true →
  recorded_once item keyf (processed ++ [x]) seen ret.
Proof.
  intros (Hseen & Hnd & Hsound & Hcompl & Hsub) Hx. unfold recorded_once. split_and!.
  - done.
  - done.
  - intros p Hp. destruct (Hsound p Hp) as (d & Hd & Hr & ->).
    exists d. split; [|done]. apply elem_of_app. by left.
  - intros d [Hd|Hd%list_elem_of_singleton]%elem_of_app Hr; [by apply Hcompl|].
    subst d. destruct Hx as [Hx|Hx]; [congruence|]. by apply Hseen.
  - rewrite List.filter_app, map_app. by apply sublist_inserts_r.
Qed.

Lemma recorded_once_add {B : Type} (item : datagram → B) (keyf : B → string)
    (processed : list datagram) (seen : gmap string bool) (ret : list B) (x : datagram) :
  recorded_once item keyf processed seen ret →
  is_reflection x = true → get_bool seen (keyf (item x)) = false →
  recorded_once item keyf (processed ++ [x])
    (<[keyf (item x) := true]> seen) (ret ++ [item x]).
Proof.
  intros (Hseen & Hnd & Hsound & Hcompl & Hsub) Hr Hx. unfold recorded_once.
  rewrite map_app. cbn [map]. split_and!.
  - intros k. rewrite get_bool_insert, Hseen, elem_of_app, list_elem_of_singleton.
    split; intros [?|?]; auto.
  - apply NoDup_app. split_and!; [done| |apply NoDup_singleton].
    intros k Hk ->%list_elem_of_singleton. apply Hseen in Hk. congruence.
  - intros p [Hp | ->%list_elem_of_singleton]%elem_of_app.
    + destruct (Hsound p Hp) as (d & Hd & Hrd & ->).
      exists d. split; [|done]. apply elem_of_app. by left.
    + exists x. split; [|done]. apply elem_of_app. right. by left.
  - intros d [Hd | ->%list_elem_of_singleton]%elem_of_app Hrd; apply elem_of_app.
    + left. by apply Hcompl.
    + right. by left.
  - rewrite List.filter_app, map_app. cbn [List.filter]. rewrite Hr. cbn [map].
    by apply sublist_app.
Qed.

Lemma copyUDPAddr_id (a : UDPAddr) : copyUDPAddr a = a.
Proof. by destruct a. Qed.

(** ** The mapping prober *)



(** ** The firewall prober *)

Lemma firewall_receive_loop (reads : list datagram) (local remote : UDPAddr) :
  let v := foldl (fun v d => firewall_receive d v)
             {| fw_ret := {| FLocal := local; FRemote := remote; Received := [] |};
                fw_seen := ∅ |} reads in
  FLocal (fw_ret v) = local ∧ FRemote (fw_ret v) = remote
  ∧ recorded_once source UDPAddr_String reads (fw_seen v) (Received (fw_ret v)).
Proof.
  induction reads as [|x reads IH] using rev_ind.
  { split_and!; [done..|apply recorded_once_init]. }
  cbn zeta in *. rewrite foldl_app. cbn [foldl].
  set (v := foldl (fun v d => firewall_receive d v) _ reads) in *.
  destruct IH as (HL & HR & IH).
  unfold firewall_receive. fold (is_reflection x).
  destruct (is_reflection x) eqn:Hr; cbn [negb].
  - destruct (get_bool (fw_seen v) (UDPAddr_String (source x))) eqn:Hs; cbn [negb].
    + split_and!; [done..|]. apply recorded_once_skip; [done|by right].
    + split_and!; [done..|]. cbn [fw_ret fw_seen Received].
      by apply recorded_once_add.
  - split_and!; [done..|]. apply recorded_once_skip; [done|by left].
Qed.


(* ------------------------------------------------------------------ *)
(** * The analysis as a whole *)

Lemma Analyze_fields (r : Result) (a : Analysis) :
  Analyze r = Some a ↔
  noNAT r = Some (NoNAT a)
  ∧ mappingVariesByDestIP r = Some (MappingVariesByDestIP a)
  ∧ mappingVariesByDestPort r = Some (MappingVariesByDestPort a)
  ∧ mappingPreservesSourcePort r = Some (MappingPreservesSourcePort a)
  ∧ multiplePublicIPs r = Some (MultiplePublicIPs a)
  ∧ NoData a = noData r
  ∧ FirewallEnforcesDestIP a = firewallEnforcesDestIP r
  ∧ FirewallEnforcesDestPort a = firewallEnforcesDestPort r
  ∧ FilteredEgress a = filteredEgress r.
Proof.
  unfold Analyze. split.
  - intros H.
    destruct (noNAT r); [|discriminate].
    destruct (mappingVariesByDestIP r); [|discriminate].
    destruct (mappingVariesByDestPort r); [|discriminate].
    destruct (mappingPreservesSourcePort r); [|discriminate].
    destruct (multiplePublicIPs r); [|discriminate].
    cbn in H. injection H as <-. by split_and!.
  - intros (-> & -> & -> & -> & -> & H1 & H2 & H3 & H4). cbn.
    destruct a. cbn in *. by subst.
Qed.

Lemma mappingPreservesSourcePort_loop_panics (ps : list MappingProbe) (total preserved : Z) :
  Exists (fun p => Timeout p = false ∧ Mapped p = None) ps →
  mappingPreservesSourcePort_loop ps total preserved = None.
Proof.
  intros H. revert total preserved.
  induction H as [p ps [Ht Hm]|p ps _ IH]; intros total preserved;
    cbn [mappingPreservesSourcePort_loop].
  - by rewrite Ht, Hm.
  - destruct (Timeout p); [apply IH|]. destruct (Mapped p); [apply IH|done].
Qed.

Lemma mapped_if_replied_dec (ps : list MappingProbe) :
  Forall mapped_if_replied ps ∨ Exists (fun p => Timeout p = false ∧ Mapped p = None) ps.
Proof.
  induction ps as [|p ps [IH|IH]].
  - left. constructor.
  - destruct (Timeout p) eqn:Ht; [left; constructor; [|done]; intros ?; congruence|].
    destruct (Mapped p) eqn:Hm.
    + left. constructor; [|done]. intros _. by rewrite Hm.
    + right. by left.
  - right. by right.
Qed.

Lemma Analyze_defined (r : Result) :
  Forall mapped_if_replied (MappingProbes r) → is_Some (Analyze r).
Proof.
  intros Hwf. unfold Analyze.
  destruct (noNAT_loop_spec
              (foldl (fun ips ip => <[IP_String ip := true]> ips) ∅ (LocalIPs r))
              (MappingProbes r) Hwf) as (nn & Hnn & _).
  unfold noNAT. rewrite Hnn.
  unfold mappingVariesByDestIP, mappingVariesByDestPort.
  rewrite mappingVariesByDestIP_loop_initial, mappingVariesByDestPort_loop_initial by done.
  unfold mappingPreservesSourcePort.
  rewrite mappingPreservesSourcePort_loop_counts by done.
  unfold multiplePublicIPs.
  destruct (multiplePublicIPs_loop_spec ∅ (MappingProbes r) Hwf) as (ips' & -> & _).
  cbn. by eexists.
Qed.

(** [Analyze] returns an analysis exactly for the results in which every
    probe that is not a timeout carries a mapped endpoint; on any other
    result it panics. *)
Theorem Analyze_defined_iff (r : Result) :
  is_Some (Analyze r) ↔ Forall mapped_if_replied (MappingProbes r).
Proof.
  split; [|apply Analyze_defined].
  intros [a Ha]. apply Analyze_fields in Ha as (_ & _ & _ & Hp & _).
  destruct (mapped_if_replied_dec (MappingProbes r)) as [Hwf|Hex]; [done|].
  unfold mappingPreservesSourcePort in Hp.
  by rewrite (mappingPreservesSourcePort_loop_panics _ 0 0 Hex) in Hp.
Qed.

Lemma replies_nil_iff (ps : list MappingProbe) :
  Forall mapped_if_replied ps →
  replies ps = [] ↔ Forall (fun p => Timeout p = true) ps.
Proof.
  induction 1 as [|p ps Hp _ IH]; [by split; [constructor|]|].
  destruct (Timeout p) eqn:Ht.
  - rewrite replies_cons_timeout, IH by done. split.
    + intros H. by constructor.
    + intros H. by inversion H.
  - destruct (Hp Ht) as [m Hm]. rewrite (replies_cons_reply p m) by done.
    split; [done|]. intros H. inversion H. congruence.
Qed.

Lemma Analysis_String_NoData (a : Analysis) :
  NoData a = true → Analysis_String a = msg_no_data.
Proof. intros H. unfold Analysis_String. by rewrite H. Qed.

Lemma Analysis_String_NoNAT (a : Analysis) :
  NoData a = false → NoNAT a = true → Analysis_String a = msg_no_nat.
Proof. intros H H'. unfold Analysis_String. by rewrite H, H'. Qed.

(** What [Analyze] and [String] print together.  A result without any
    answered probe yields the text that probing got no data; a result
    with answered probes, all of whose mapped IPs are local IPs by their
    textual form, yields the text that there is no NAT. *)
Theorem Analysis_String_verdict (r : Result)
    (Hwf : Forall mapped_if_replied (MappingProbes r)) :
  ∃ a : Analysis,
    Analyze r = Some a
    ∧ (replies (MappingProbes r) = [] → Analysis_String a = msg_no_data)
    ∧ (replies (MappingProbes r) ≠ [] →
       (∀ l m rm, (l, m, rm) ∈ replies (MappingProbes r) →
                  IP_String (IP m) ∈ map IP_String (LocalIPs r)) →
       Analysis_String a = msg_no_nat).
Proof.
  destruct (Analyze_defined r Hwf) as [a Ha]. exists a. split; [done|].
  apply Analyze_fields in Ha as (Hnn & _ & _ & _ & _ & Hnd & _).
  split.
  - intros Hnil. apply replies_nil_iff in Hnil; [|done].
    apply Analysis_String_NoData. rewrite Hnd. by apply noData_true_iff.
  - intros Hne Hlocal.
    assert (Hd : noData r = false).
    { apply not_true_is_false. intros Hd.
      apply noData_true_iff, replies_nil_iff in Hd; done. }
    apply Analysis_String_NoNAT; [congruence|].
    unfold noNAT in Hnn.
    destruct (noNAT_loop_spec
                (foldl (fun ips ip => <[IP_String ip := true]> ips) ∅ (LocalIPs r))
                (MappingProbes r) Hwf) as (nn & Hnn' & Hiff).
    assert (nn = NoNAT a) as <- by congruence.
    apply Hiff. intros l m rm Hin. apply noNAT_ips_spec. right. by eapply Hlocal.
Qed.

Lemma Analysis_String_verdict_witness :
  ∃ a : Analysis,
    Analyze all_timeouts_example = Some a
    ∧ (replies (MappingProbes all_timeouts_example) = [] → Analysis_String a = msg_no_data)
    ∧ (replies (MappingProbes all_timeouts_example) ≠ [] →
       (∀ l m rm, (l, m, rm) ∈ replies (MappingProbes all_timeouts_example) →
                  IP_String (IP m) ∈ map IP_String (LocalIPs all_timeouts_example)) →
       Analysis_String a = msg_no_nat).
Proof.
  apply (Analysis_String_verdict all_timeouts_example).
  repeat constructor. intros H. discriminate H.
Defined.

(* ------------------------------------------------------------------ *)
(** * The probe as a whole *)

Lemma probeMapping_collect_spec (dests : list UDPAddr) (sockets : list socket_run)
    (acc probes : list MappingProbe) :
  probeMapping_collect dests sockets acc = Some probes →
  Forall (fun s => final s = ReadTimeout) sockets
  ∧ probes = acc ++ flat_map (fun s =>
                       ret (foldl (fun v d => receive (conn_local s) d v)
                              {| seenByDest := ∅; ret := []; seen := ∅ |} (reads s)))
                     sockets.
Proof.
  revert acc. induction sockets as [|s sockets IH]; intros acc; simpl.
  - intros [= <-]. by rewrite app_nil_r.
  - unfold probeOneMapping, probeOneMapping_run. cbn [fst].
    destruct (final s) eqn:Hf; [|done].
    intros [Hfs ->]%IH. split; [by constructor|]. by rewrite <- app_assoc.
Qed.

Lemma receive_loop_mapped (local : UDPAddr) (ds : list datagram) (v : mapping_vars) :
  Forall (fun p => is_Some (Mapped p)) (ret v) →
  Forall (fun p => is_Some (Mapped p)) (ret (foldl (fun v d => receive local d v) v ds)).
Proof.
  revert v. induction ds as [|d ds IH]; intros v H; simpl; [done|].
  apply IH. unfold receive.
  destruct (negb (Z.of_nat (length (payload d)) =? 18)); [done|].
  match goal with |- context [if ?c then _ else _] => destruct c end; [|done].
  simpl. apply Forall_app. split; [done|]. by repeat constructor.
Qed.

Lemma Probe_localIPs_IPv4 (addrs : list (option net_IP)) :
  Forall (fun ip => To4 ip ≠ []) (Probe_localIPs addrs).
Proof.
  unfold Probe_localIPs.
  assert (∀ acc, Forall (fun ip => To4 ip ≠ []) acc →
            Forall (fun ip => To4 ip ≠ [])
              (foldl (fun localIPs addr =>
                        match addr with
                        | Some ip =>
                            if negb (Z.of_nat (length (To4 ip)) =? 0) then localIPs ++ [ip]
                            else localIPs
                        | None => localIPs
                        end) acc addrs)) as H.
  { induction addrs as [|[ip|] addrs IH]; intros acc Hacc; simpl; [done| |by apply IH].
    apply IH. destruct (Z.eqb_spec (Z.of_nat (length (To4 ip))) 0) as [H0|H0]; [done|].
    cbn [negb]. apply Forall_app. split; [done|]. constructor; [|done].
    intros He. by rewrite He in H0. }
  apply H. constructor.
Qed.

Lemma probeFirewall_spec_remote (dest listen : option UDPAddr) (reads : list datagram)
    (final : read_error) (fw : FirewallProbe) :
  probeFirewall dest listen reads final = Some fw → dest = Some (FRemote fw).
Proof.
  unfold probeFirewall. destruct dest as [dest|]; [|done].
  destruct listen as [local|]; [|done]. destruct final; [|done].
  rewrite !copyUDPAddr_id. intros [= <-].
  by destruct (firewall_receive_loop reads local dest) as (_ & -> & _).
Qed.

Lemma answered_probes (dests : list UDPAddr) (sockets : list socket_run)
    (dest listen : option UDPAddr) (fw_reads : list datagram) (fw_final : read_error)
    (probes : list MappingProbe) (fw : FirewallProbe) :
  working_address sockets dest →
  probeMapping dests sockets = Some probes →
  probeFirewall dest listen fw_reads fw_final = Some fw →
  (∃ p, p ∈ probes ∧ Remote p = FRemote fw)
  ∧ Forall (fun p => Timeout p = false ∧ is_Some (Mapped p)) probes.
Proof.
  intros Hworking Hprobes Hfw.
  assert (Hnt : Forall (fun p => Timeout p = false) probes)
    by (eapply probeMapping_no_timeouts; exact Hprobes).
  apply probeMapping_collect_spec in Hprobes as [_ Hprobes]. cbn [app] in Hprobes.
  assert (Hmapped : Forall (fun p => is_Some (Mapped p)) probes).
  { subst probes. apply Forall_forall. intros p Hp.
    apply list_elem_of_In, in_flat_map in Hp as (s & _ & Hp).
    pose proof (receive_loop_mapped (conn_local s) (reads s)
                  {| seenByDest := ∅; ret := []; seen := ∅ |} (Forall_nil_2 _)) as H.
    rewrite Forall_forall in H. by apply H, list_elem_of_In. }
  split.
  - destruct dest as [a|]; [|discriminate Hfw].
    inversion Hworking as [|s a' rest Hs Hoff]; subst a'.
    unfold offers in Hoff.
    destruct (ret (foldl (fun v d => receive (conn_local s) d v)
                     {| seenByDest := ∅; ret := []; seen := ∅ |} (reads s)))
      as [|p ps] eqn:Hret; [discriminate Hoff|].
    injection Hoff as Hp _. exists p. split.
    + rewrite Hprobes. apply list_elem_of_In, in_flat_map. exists s.
      split; [by apply list_elem_of_In|]. rewrite Hret. by left.
    + pose proof (probeFirewall_spec_remote _ _ _ _ _ Hfw) as Hr.
      injection Hr as ->. done.
  - apply Forall_forall. intros p Hp. rewrite Forall_forall in Hnt, Hmapped. auto.
Qed.

(** Whenever [Probe] returns a result, some mapping probe was answered:
    the result holds at least one mapping probe, none of its probes is a
    timeout, each carries a mapped endpoint, and the firewall probe is
    there and was sent to the remote address of one of the mapping probes;
    so [noData] is false and [Analyze] does not panic.  Its local IPs are
    all IPv4 addresses.  When no socket gets any answer, [Probe] fails. *)
Theorem Probe_result (env : probe_env) (opts : option Options) (r : Result)
    (Hworking : working_address (Probe_sockets env opts) (env_working env))
    (Hr : Probe env opts = Some r) :
  MappingProbes r ≠ []
  ∧ Forall (fun p => Timeout p = false ∧ is_Some (Mapped p)) (MappingProbes r)
  ∧ (∃ fw p, FirewallProbes r = Some fw ∧ p ∈ MappingProbes r ∧ Remote p = FRemote fw)
  ∧ noData r = false
  ∧ is_Some (Analyze r)
  ∧ Forall (fun ip => To4 ip ≠ []) (LocalIPs r).
Proof.
  unfold Probe in Hr. revert Hworking Hr.
  generalize (Probe_sockets env opts). generalize (Probe_opts opts).
  intros o sockets Hworking Hr.
  destruct (env_interface_addrs env) as [addrs|]; [|discriminate Hr].
  destruct (resolveServerAddrs (env_lookup env) (ServerAddrs o)) as [ips|];
    [|discriminate Hr].
  cbv zeta in Hr.
  destruct (probeMapping (dests ips (Ports o)) sockets) as [probes|] eqn:Hprobes;
    [|discriminate Hr].
  destruct (probeFirewall (env_working env) (env_fw_listen env) (env_fw_reads env)
              (env_fw_final env)) as [fw|] eqn:Hfw; [|discriminate Hr].
  injection Hr as <-. cbn [MappingProbes FirewallProbes LocalIPs].
  destruct (answered_probes _ _ _ _ _ _ _ _ Hworking Hprobes Hfw)
    as [(p0 & Hp0 & Hr0) Hall].
  clear Hworking Hprobes Hfw.
  assert (Hwf : Forall mapped_if_replied probes).
  { eapply Forall_impl; [exact Hall|]. by intros p [_ Hp] _. }
  split_and!.
  - intros ->. by apply elem_of_nil in Hp0.
  - exact Hall.
  - by exists fw, p0.
  - unfold noData. cbn [MappingProbes].
    destruct probes as [|p ps]; [by apply elem_of_nil in Hp0|].
    change (Z.of_nat (length (p :: ps)) =? 0) with false. cbv iota.
    apply Forall_cons in Hall as [[Hp _] _]. cbn [forallb]. by rewrite Hp.
  - by apply Analyze_defined.
  - apply Probe_localIPs_IPv4.
Qed.

Lemma Probe_result_witness :
  ∃ r : Result,
    Probe answered_env None = Some r
    ∧ MappingProbes r ≠ []
    ∧ Forall (fun p => Timeout p = false ∧ is_Some (Mapped p)) (MappingProbes r)
    ∧ (∃ fw p, FirewallProbes r = Some fw ∧ p ∈ MappingProbes r ∧ Remote p = FRemote fw)
    ∧ noData r = false
    ∧ is_Some (Analyze r)
    ∧ Forall (fun ip => To4 ip ≠ []) (LocalIPs r).
Proof.
  assert (H : is_Some (Probe answered_env None)) by (vm_compute; by eexists).
  destruct H as [r Hr]. exists r. split; [exact Hr|].
  apply (Probe_result answered_env None r); [|exact Hr].
  apply (working_first _ (env_sockets answered_env 0) answering_server []).
  - vm_compute. by left.
  - vm_compute. reflexivity.
Defined.

(* ------------------------------------------------------------------ *)
(** * The server's ports *)

(** ** Reading a number back *)

(** The value of a digit character, computed. *)
Ltac Atoi_digit :=
  match goal with
  | |- context [Z.of_nat (nat_of_ascii ?c) - 48] =>
      let v := eval vm_compute in (Z.of_nat (nat_of_ascii c) - 48) in
      change (Z.of_nat (nat_of_ascii c) - 48) with v
  end;
  cbv beta zeta iota delta [Z.leb Z.compare Pos.compare Pos.compare_cont andb].

Lemma Atoi_digits_acc (d : Decimal.uint) (acc : positive) :
  Atoi_digits (NilEmpty.string_of_uint d) (Z.pos acc)
  = Some (Z.pos (Pos.of_uint_acc d acc)).
Proof.
  revert acc. induction d; intros acc;
    cbn [NilEmpty.string_of_uint Atoi_digits Pos.of_uint_acc]; [reflexivity|..];
    Atoi_digit; rewrite <- IHd; f_equal; lia.
Qed.

Lemma Atoi_digits_uint (d : Decimal.uint) :
  Atoi_digits (NilEmpty.string_of_uint d) 0 = Some (Z.of_N (Pos.of_uint d)).
Proof.
  induction d; cbn [NilEmpty.string_of_uint Atoi_digits Pos.of_uint]; [reflexivity|..];
    Atoi_digit; [exact IHd|..]; cbn [Z.mul Z.add Z.of_N]; apply Atoi_digits_acc.
Qed.

Lemma string_of_uint_digit (d : Decimal.uint) :
  d ≠ Decimal.Nil →
  ∃ c s, NilEmpty.string_of_uint d = String c s
         ∧ Ascii.eqb c "-" = false ∧ Ascii.eqb c "+" = false.
Proof. intros H. destruct d; [done|..]; by eexists _, _. Qed.

Lemma Atoi_itoa (z : Z) : - 2 ^ 63 ≤ z ≤ 2 ^ 63 - 1 → Atoi (itoa z) = Some z.
Proof.
  intros Hz. unfold itoa. destruct z as [|p|p]; cbn [Z.to_int NilZero.string_of_int].
  - reflexivity.
  - unfold NilZero.string_of_uint.
    pose proof (DecimalPos.Unsigned.to_uint_nonnil p) as Hnil.
    pose proof (DecimalPos.Unsigned.of_to p) as Hp.
    pose proof (Atoi_digits_uint (Pos.to_uint p)) as Hd. rewrite Hp in Hd.
    destruct (Pos.to_uint p) as [|u|u|u|u|u|u|u|u|u|u] eqn:E; [done|..];
      unfold Atoi; cbn [NilEmpty.string_of_uint Ascii.eqb Bool.eqb orb];
      cbn [NilEmpty.string_of_uint] in Hd; rewrite Hd; cbv zeta; cbn [Z.of_N];
      (destruct (Z.leb_spec (- 2 ^ 63) (Z.pos p)); [|lia]);
      (destruct (Z.leb_spec (Z.pos p) (2 ^ 63 - 1)); [|lia]); reflexivity.
  - unfold NilZero.string_of_uint.
    pose proof (DecimalPos.Unsigned.to_uint_nonnil p) as Hnil.
    pose proof (DecimalPos.Unsigned.of_to p) as Hp.
    pose proof (Atoi_digits_uint (Pos.to_uint p)) as Hd. rewrite Hp in Hd.
    unfold Atoi. change (Ascii.eqb "-" "-") with true. cbn [orb]. cbv zeta.
    destruct (Pos.to_uint p) as [|u|u|u|u|u|u|u|u|u|u] eqn:E; [done|..];
      cbn [NilEmpty.string_of_uint] in Hd |- *; rewrite Hd; cbn [Z.of_N];
      change (- Z.pos p) with (Z.neg p);
      (destruct (Z.leb_spec (- 2 ^ 63) (Z.neg p)); [|lia]);
      (destruct (Z.leb_spec (Z.neg p) (2 ^ 63 - 1)); [|lia]); reflexivity.
Qed.

(** ** Splitting what was joined *)

Lemma mem_char_neq (A : string) (a c : ascii) :
  mem_char a A = true → mem_char c A = false → Ascii.eqb a c = false.
Proof.
  intros Ha Hc. destruct (Ascii.eqb_spec a c) as [->|]; [congruence|done].
Qed.

Lemma Split_nonempty (s : string) (c : ascii) : Split s c ≠ [].
Proof.
  destruct s as [|a s]; cbn [Split]; [done|].
  destruct (Ascii.eqb a c); [done|]. by destruct (Split s c).
Qed.

Lemma Split_field (A : string) (c : ascii) (f rest : string) :
  mem_char c A = false → chars_in A f = true →
  Split (f +:+ String c EmptyString +:+ rest) c = f :: Split rest c.
Proof.
  intros Hc. induction f as [|a f IH]; intros Hf.
  - change (Split (String c rest) c = "" :: Split rest c).
    cbn [Split]. by rewrite Ascii.eqb_refl.
  - change (Split (String a (f +:+ String c EmptyString +:+ rest)) c
            = String a f :: Split rest c).
    cbn [chars_in] in Hf. apply andb_true_iff in Hf as [Ha Hf].
    cbn [Split]. rewrite (mem_char_neq A a c Ha Hc), IH by done. reflexivity.
Qed.

Lemma Split_last (A : string) (c : ascii) (f : string) :
  mem_char c A = false → chars_in A f = true → Split f c = [f].
Proof.
  intros Hc. induction f as [|a f IH]; intros Hf; [reflexivity|].
  cbn [chars_in] in Hf. apply andb_true_iff in Hf as [Ha Hf].
  cbn [Split]. rewrite (mem_char_neq A a c Ha Hc), IH by done. reflexivity.
Qed.

Lemma Split_Join (A : string) (c : ascii) (fields : list string) :
  mem_char c A = false → fields ≠ [] →
  Forall (fun f => chars_in A f = true) fields →
  Split (Join fields (String c EmptyString)) c = fields.
Proof.
  intros Hc Hne Hall. induction Hall as [|f fields Hf Hall IH]; [done|].
  destruct fields as [|g fields].
  - cbn [Join]. by eapply Split_last.
  - cbn [Join] in *. rewrite (Split_field A) by done. f_equal. by apply IH.
Qed.

Lemma itoa_nonempty (z : Z) : itoa z ≠ "".
Proof.
  unfold itoa, NilZero.string_of_int, NilZero.string_of_uint.
  destruct (Z.to_int z) as [d|d]; [|done]. by destruct d.
Qed.

Lemma Join_nonempty (f : string) (fields : list string) (sep : string) :
  f ≠ "" → Join (f :: fields) sep ≠ "".
Proof.
  intros Hf. cbn [Join]. destruct fields; [done|]. by destruct f.
Qed.

Lemma parsePorts_loop_itoa (ports ret : list Z) :
  Forall (fun p => - 2 ^ 63 ≤ p ≤ 2 ^ 63 - 1) ports →
  parsePorts_loop (map itoa ports) ret = Some (ret ++ ports).
Proof.
  intros H. revert ret. induction H as [|p ports Hp _ IH]; intros ret; cbn [map parsePorts_loop].
  - by rewrite app_nil_r.
  - rewrite Atoi_itoa by done. rewrite IH, <- app_assoc. reflexivity.
Qed.

(** The [-ports] flag reads back what [strconv.Itoa] and [strings.Join]
    write: a non-empty list of ports, each in the range of [int], written
    in decimal and joined by commas, is parsed into the same list. *)
Theorem parsePorts_roundtrip (ports : list Z)
    (Hne : ports ≠ [])
    (Hrange : Forall (fun p => - 2 ^ 63 ≤ p ≤ 2 ^ 63 - 1) ports) :
  parsePorts (Join (map itoa ports) ",") = Some ports.
Proof.
  unfold parsePorts.
  destruct ports as [|p ports]; [done|].
  destruct (String.eqb_spec (Join (map itoa (p :: ports)) ",") "") as [He|_].
  { exfalso. revert He. apply Join_nonempty, itoa_nonempty. }
  rewrite (Split_Join addr_alphabet); [|reflexivity|done|].
  - by apply parsePorts_loop_itoa.
  - apply Forall_forall. intros f Hf. apply list_elem_of_In, in_map_iff in Hf as (z & <- & _).
    apply chars_in_itoa.
Qed.

Lemma parsePorts_roundtrip_witness :
  parsePorts (Join (map itoa [80; 443; 60000]) ",") = Some [80; 443; 60000].
Proof.
  apply (parsePorts_roundtrip [80; 443; 60000]); [done|].
  repeat constructor; done.
Defined.

(** ** What the flag parses to *)

Lemma parsePorts_loop_spec (fields : list string) (ret : list Z) :
  match parsePorts_loop fields ret with
  | Some ports => ∃ l, ports = ret ++ l ∧ map Some l = map Atoi fields
  | None => ∃ f, f ∈ fields ∧ Atoi f = None
  end.
Proof.
  revert ret. induction fields as [|f fields IH]; intros ret; cbn [parsePorts_loop].
  - exists []. by rewrite app_nil_r.
  - destruct (Atoi f) as [i|] eqn:Hf.
    + specialize (IH (ret ++ [i])).
      destruct (parsePorts_loop fields (ret ++ [i])) as [ports|].
      * destruct IH as (l & -> & Hl). exists (i :: l). rewrite <- app_assoc.
        split; [done|]. cbn [map]. by rewrite Hf, Hl.
      * destruct IH as (g & Hg & Hn). exists g. split; [by right|done].
    + exists f. split; [by left|done].
Qed.

Lemma Split_separator (s t : string) (c : ascii) :
  ∃ l, l ≠ [] ∧ Split (s +:+ String c EmptyString +:+ t) c = l ++ Split t c.
Proof.
  induction s as [|a s (l & Hl & IH)].
  - exists [""]. split; [done|].
    change (Split (String c t) c = "" :: Split t c). cbn [Split].
    by rewrite Ascii.eqb_refl.
  - change (∃ l', l' ≠ [] ∧ Split (String a (s +:+ String c EmptyString +:+ t)) c
                            = l' ++ Split t c).
    cbn [Split]. rewrite IH. destruct (Ascii.eqb a c).
    + by exists ("" :: l).
    + destruct l as [|f l]; [done|]. by exists (String a f :: l).
Qed.

(** [parsePorts] returns the default ports for an empty flag, and otherwise
    the numbers of the comma-separated fields of the flag; it fails when
    one of the fields is not a number, so in particular on a flag that
    ends in a comma; the list it returns is never empty. *)
Theorem parsePorts_spec (flag : string) :
  match parsePorts flag with
  | Some ports =>
      ports ≠ []
      ∧ (flag = "" ∧ ports = internal.Ports
         ∨ flag ≠ "" ∧ map Some ports = map Atoi (Split flag ","%char))
  | None => flag ≠ "" ∧ ∃ f, f ∈ Split flag ","%char ∧ Atoi f = None
  end
  ∧ parsePorts (flag +:+ ",") = None.
Proof.
  split.
  - unfold parsePorts. destruct (String.eqb_spec flag "") as [->|Hne].
    { split; [done|]. by left. }
    pose proof (parsePorts_loop_spec (Split flag ","%char) []) as H.
    destruct (parsePorts_loop (Split flag ","%char) []) as [ports|]; [|done].
    destruct H as (l & -> & Hl). cbn [app]. split; [|by right].
    intros ->. pose proof (Split_nonempty flag ","%char) as Hs.
    by destruct (Split flag ","%char).
  - unfold parsePorts.
    destruct (String.eqb_spec (flag +:+ ",") "") as [He|_].
    { by destruct flag. }
    pose proof (parsePorts_loop_spec (Split (flag +:+ ",") ","%char) []) as H.
    destruct (parsePorts_loop (Split (flag +:+ ",") ","%char) []) as [ports|]; [|done].
    destruct H as (l & _ & Hl). exfalso.
    destruct (Split_separator flag "" ","%char) as (l' & _ & Hs).
    assert (flag +:+ "," +:+ "" = flag +:+ ",") as Hflag.
    { clear. induction flag as [|a flag IH]; [reflexivity|].
      change (String a (flag +:+ "," +:+ "") = String a (flag +:+ ",")). by rewrite IH. }
    rewrite Hflag in Hs. rewrite Hs in Hl. cbn [Split] in Hl.
    rewrite map_app in Hl. cbn [map Atoi] in Hl.
    apply (f_equal (fun x => last x)) in Hl. rewrite last_snoc in Hl.
    destruct l as [|i l _] using rev_ind; [done|].
    rewrite map_app in Hl. cbn [map] in Hl. rewrite last_snoc in Hl. done.
Qed.

(* ------------------------------------------------------------------ *)
(** * The analysis of an anonymised result *)

(** ** Texts of IPv4 addresses and of their endpoints *)

Lemma itoa_inj (a b : Z) : itoa a = itoa b → a = b.
Proof.
  unfold itoa. intros H.
  assert (Hnil : ∀ z, Z.to_int z ≠ Decimal.Pos Decimal.Nil
                      ∧ Z.to_int z ≠ Decimal.Neg Decimal.Nil).
  { intros [|p|p]; cbn [Z.to_int]; split; try discriminate;
      intros [= E]; by apply DecimalPos.Unsigned.to_uint_nonnil in E. }
  apply (f_equal NilZero.int_of_string) in H.
  rewrite !NilZero.isi in H by apply Hnil.
  injection H as H. apply (f_equal Z.of_int) in H.
  by rewrite !DecimalZ.of_to in H.
Qed.

Lemma chars_in_byte_dec (b : byte) : chars_in dotted_alphabet (byte_dec b) = true.
Proof. destruct b; reflexivity. Qed.

Lemma byte_dec_head (b : byte) :
  ∃ c s, byte_dec b = String c s ∧ Ascii.eqb c "<" = false.
Proof. destruct b; by eexists _, _. Qed.

Lemma chars_in_IPv4_String (ip : net_IP) :
  is_IPv4 ip → chars_in dotted_alphabet (IP_String ip) = true.
Proof.
  intros H. destruct (is_IPv4_forms ip H) as (a & b & c & d & [-> | ->]);
    rewrite ?IP_String_4, ?IP_String_IPv4;
    by rewrite !chars_in_app, !chars_in_byte_dec.
Qed.

Lemma IPv4_String_head (ip : net_IP) :
  is_IPv4 ip → ∃ c s, IP_String ip = String c s ∧ Ascii.eqb c "<" = false.
Proof.
  intros H. destruct (is_IPv4_forms ip H) as (a & b & c & d & [-> | ->]);
    rewrite ?IP_String_4, ?IP_String_IPv4;
    destruct (byte_dec_head a) as (ch & s & -> & Hch); by eexists _, _.
Qed.

Lemma is_IPv4_nonempty (ip : net_IP) : is_IPv4 ip → ip ≠ [].
Proof. intros H ->. discriminate H. Qed.

Lemma IP_Equal_nil_l (y : net_IP) : IP_Equal [] y = true ↔ y = [].
Proof. destruct y; [done|]. split; discriminate. Qed.

Lemma IP_Equal_nil_r (x : net_IP) : IP_Equal x [] = true ↔ x = [].
Proof.
  destruct x as [|a x]; [done|]. split; [|discriminate].
  unfold IP_Equal. cbn [length Nat.eqb].
  change (Z.of_nat (length (@nil byte)) =? 16) with false.
  change (Z.of_nat (length (@nil byte)) =? 4) with false.
  by rewrite !andb_false_r.
Qed.

(** On IPv4 addresses and the empty address, the texts agree exactly when
    [IP.Equal] holds. *)
Lemma v4_or_empty_Equal_String (x y : net_IP) :
  v4_or_empty x → v4_or_empty y →
  IP_Equal x y = true ↔ IP_String x = IP_String y.
Proof.
  intros [->|Hx] [->|Hy].
  - done.
  - rewrite IP_Equal_nil_l. split; [by intros ->|].
    destruct (IPv4_String_head y Hy) as (c & s & -> & Hc).
    intros [= <-]. discriminate Hc.
  - rewrite IP_Equal_nil_r. split; [by intros ->|].
    destruct (IPv4_String_head x Hx) as (c & s & -> & Hc).
    intros [= ->]. discriminate Hc.
  - by apply IPv4_Equal_String.
Qed.

Lemma has_colon_chars_in (A s : string) :
  mem_char ":" A = false → chars_in A s = true → has_colon s = false.
Proof.
  intros HA. induction s as [|c s IH]; [done|]. cbn [chars_in has_colon].
  intros [Hc Hs]%andb_true_iff. rewrite IH by done.
  by rewrite (mem_char_neq A c ":" Hc HA).
Qed.

Lemma chars_in_ipEmptyString (ip : net_IP) :
  v4_or_empty ip → chars_in dotted_alphabet (ipEmptyString ip) = true.
Proof.
  intros [->|H]; [reflexivity|]. unfold ipEmptyString.
  destruct (Z.of_nat (length ip) =? 0); [reflexivity|by apply chars_in_IPv4_String].
Qed.

Lemma ipEmptyString_inj (x y : net_IP) :
  v4_or_empty x → v4_or_empty y →
  ipEmptyString x = ipEmptyString y ↔ IP_Equal x y = true.
Proof.
  intros Hx Hy. rewrite (v4_or_empty_Equal_String x y Hx Hy).
  unfold ipEmptyString. destruct Hx as [->|Hx], Hy as [->|Hy].
  - done.
  - destruct y as [|b y]; [by apply is_IPv4_nonempty in Hy|].
    change (Z.of_nat (length (b :: y)) =? 0) with false.
    change (Z.of_nat (length (@nil byte)) =? 0) with true. cbv iota.
    destruct (IPv4_String_head _ Hy) as (c & s & -> & Hc).
    split; [done|]. intros [= <-]. discriminate Hc.
  - destruct x as [|a x]; [by apply is_IPv4_nonempty in Hx|].
    change (Z.of_nat (length (a :: x)) =? 0) with false.
    change (Z.of_nat (length (@nil byte)) =? 0) with true. cbv iota.
    destruct (IPv4_String_head _ Hx) as (c & s & -> & Hc).
    split; [done|]. intros [= ->]. discriminate Hc.
  - destruct x as [|a x]; [by apply is_IPv4_nonempty in Hx|].
    destruct y as [|b y]; [by apply is_IPv4_nonempty in Hy|].
    done.
Qed.

(** Two endpoints with IPv4 or empty addresses print alike exactly when
    their addresses are equal under [IP.Equal] and their ports agree. *)
Lemma UDPAddr_String_v4_inj (a b : UDPAddr) :
  v4_or_empty (IP a) → v4_or_empty (IP b) →
  UDPAddr_String a = UDPAddr_String b ↔ IP_Equal (IP a) (IP b) = true ∧ Port a = Port b.
Proof.
  intros Ha Hb. unfold UDPAddr_String, JoinHostPort.
  pose proof (chars_in_ipEmptyString _ Ha) as Hca.
  pose proof (chars_in_ipEmptyString _ Hb) as Hcb.
  rewrite (has_colon_chars_in dotted_alphabet _ eq_refl Hca).
  rewrite (has_colon_chars_in dotted_alphabet _ eq_refl Hcb).
  rewrite <- (ipEmptyString_inj _ _ Ha Hb). split.
  - intros E. apply (separator_split dotted_alphabet) in E as [E1 E2]; [|done..].
    split; [done|]. by apply itoa_inj.
  - by intros [-> ->].
Qed.

(** ** The verdicts under a faithful renaming *)

Lemma replies_cons_unmapped (p : MappingProbe) (ps : list MappingProbe) :
  Timeout p = false → Mapped p = None → replies (p :: ps) = replies ps.
Proof. intros H Hm. unfold replies, reply_of. simpl. by rewrite H, Hm. Qed.

Section Renaming.
Variable f : net_IP → net_IP.
Variable D : list net_IP.
Hypothesis Hv4 : Forall v4_or_empty D.
Hypothesis Hren : renames f D.

Lemma renames_v4 (x : net_IP) : x ∈ D → v4_or_empty x ∧ v4_or_empty (f x).
Proof.
  intros Hx. split; [by eapply Forall_forall in Hv4|]. by apply Hren.
Qed.

Lemma renames_Equal (x y : net_IP) :
  x ∈ D → y ∈ D → IP_Equal (f x) (f y) = IP_Equal x y.
Proof. apply Hren. Qed.

Lemma renames_String (x y : net_IP) :
  x ∈ D → y ∈ D → IP_String (f x) = IP_String (f y) ↔ IP_String x = IP_String y.
Proof.
  intros Hx Hy.
  destruct (renames_v4 x Hx) as [Hx4 Hfx4]. destruct (renames_v4 y Hy) as [Hy4 Hfy4].
  rewrite <- !v4_or_empty_Equal_String by done. by rewrite renames_Equal.
Qed.

Lemma renames_endpoint (a b : UDPAddr) :
  IP a ∈ D → IP b ∈ D →
  String.eqb (UDPAddr_String (map_addr f a)) (UDPAddr_String (map_addr f b))
  = String.eqb (UDPAddr_String a) (UDPAddr_String b).
Proof.
  intros Ha Hb.
  destruct (renames_v4 _ Ha) as [Ha4 Hfa4]. destruct (renames_v4 _ Hb) as [Hb4 Hfb4].
  apply eq_true_iff_eq. rewrite !String.eqb_eq.
  rewrite !UDPAddr_String_v4_inj by done. cbn [map_addr IP Port].
  by rewrite renames_Equal.
Qed.

(** The probes whose IPs are all renamed. *)
Let covered (p : MappingProbe) : Prop := ∀ ip, ip ∈ probe_IPs p → ip ∈ D.

Lemma covered_Local (p : MappingProbe) : covered p → IP (Local p) ∈ D.
Proof. intros H. apply H. by left. Qed.

Lemma covered_Remote (p : MappingProbe) : covered p → IP (Remote p) ∈ D.
Proof.
  intros H. apply H. unfold probe_IPs. right. apply elem_of_app. right. by left.
Qed.

Lemma covered_Mapped (p : MappingProbe) (m : UDPAddr) :
  covered p → Mapped p = Some m → IP m ∈ D.
Proof.
  intros H Hm. apply H. unfold probe_IPs. rewrite Hm. right. by left.
Qed.

Lemma noNAT_loop_renamed (ips ips' : gmap string bool) (ps : list MappingProbe) :
  Forall covered ps →
  (∀ x, x ∈ D → get_bool ips' (IP_String (f x)) = get_bool ips (IP_String x)) →
  noNAT_loop ips' (map (map_probe f) ps) = noNAT_loop ips ps.
Proof.
  intros Hps Hips. induction Hps as [|p ps Hp _ IH]; [reflexivity|].
  cbn [map noNAT_loop map_probe Timeout Mapped].
  destruct (Timeout p); [exact IH|].
  destruct (Mapped p) as [m|] eqn:Hm; [|reflexivity].
  cbn [fmap option_fmap option_map map_addr IP].
  rewrite Hips by by eapply covered_Mapped. by rewrite IH.
Qed.

Lemma noNAT_ips_renamed (locals : list net_IP) (x : net_IP) :
  (∀ l, l ∈ locals → l ∈ D) → x ∈ D →
  get_bool (foldl (fun ips ip => <[IP_String ip := true]> ips) ∅ (map f locals))
    (IP_String (f x))
  = get_bool (foldl (fun ips ip => <[IP_String ip := true]> ips) ∅ locals) (IP_String x).
Proof.
  intros Hl Hx. apply eq_true_iff_eq.
  etrans; [apply noNAT_ips_spec|]. symmetry. etrans; [apply noNAT_ips_spec|]. symmetry.
  rewrite !get_bool_empty.
  rewrite map_map, !list_elem_of_In, !in_map_iff. split.
  - intros [?|(l & E & Hin)]; [done|]. right. exists l. split; [|done].
    apply list_elem_of_In in Hin. by apply (proj1 (renames_String l x (Hl l Hin) Hx)).
  - intros [?|(l & E & Hin)]; [done|]. right. exists l. split; [|done].
    apply list_elem_of_In in Hin. by apply (proj2 (renames_String l x (Hl l Hin) Hx)).
Qed.

Lemma replies_renamed (ps : list MappingProbe) :
  replies (map (map_probe f) ps)
  = map (fun t => (map_addr f t.1.1, map_addr f t.1.2, map_addr f t.2)) (replies ps).
Proof.
  induction ps as [|p ps IH]; [reflexivity|]. cbn [map].
  destruct (Timeout p) eqn:Ht.
  - by rewrite (replies_cons_timeout (map_probe f p)), (replies_cons_timeout p).
  - destruct (Mapped p) as [m|] eqn:Hm.
    + rewrite (replies_cons_reply (map_probe f p) (map_addr f m));
        [|done|by cbn [map_probe Mapped]; rewrite Hm].
      rewrite (replies_cons_reply p m) by done.
      cbn [map]. by rewrite IH.
    + rewrite (replies_cons_unmapped (map_probe f p));
        [|done|by cbn [map_probe Mapped]; rewrite Hm].
      by rewrite (replies_cons_unmapped p).
Qed.

Lemma replies_covered (ps : list MappingProbe) (l m rm : UDPAddr) :
  Forall covered ps → (l, m, rm) ∈ replies ps → IP l ∈ D ∧ IP m ∈ D ∧ IP rm ∈ D.
Proof.
  intros Hps Hin. unfold replies in Hin. apply list_elem_of_omap in Hin as (p & Hp & Hr).
  rewrite Forall_forall in Hps. specialize (Hps p Hp).
  unfold reply_of in Hr. destruct (Timeout p); [done|].
  destruct (Mapped p) as [mp|] eqn:Hm; [|done]. injection Hr as <- <- <-.
  split_and!; [by apply covered_Local|by eapply covered_Mapped|by apply covered_Remote].
Qed.

Lemma mapped_if_replied_renamed (ps : list MappingProbe) :
  Forall mapped_if_replied ps → Forall mapped_if_replied (map (map_probe f) ps).
Proof.
  intros H. apply Forall_fmap. eapply Forall_impl; [exact H|].
  intros p Hp Ht. cbn in *. destruct (Hp Ht) as [m ->]. by eexists.
Qed.

Lemma multiplePublicIPs_renamed (r : Result) :
  Forall covered (MappingProbes r) → Forall mapped_if_replied (MappingProbes r) →
  multiplePublicIPs (map_Result f r) = multiplePublicIPs r.
Proof.
  intros Hcov Hwf. unfold multiplePublicIPs. cbn [map_Result MappingProbes].
  destruct (multiplePublicIPs_two_texts _ (mapped_if_replied_renamed _ Hwf))
    as (ips' & -> & Hiff').
  destruct (multiplePublicIPs_two_texts _ Hwf) as (ips & -> & Hiff).
  f_equal. apply eq_true_iff_eq. rewrite Hiff', Hiff, replies_renamed. split.
  - intros (l1 & m1 & r1 & l2 & m2 & r2 & H1 & H2 & Hne).
    apply list_elem_of_fmap in H1 as ([[l1' m1'] r1'] & [= -> -> ->] & H1).
    apply list_elem_of_fmap in H2 as ([[l2' m2'] r2'] & [= -> -> ->] & H2).
    exists l1', m1', r1', l2', m2', r2'. split_and!; [done..|].
    intros E. apply Hne. cbn [map_addr IP fst snd].
    destruct (replies_covered _ _ _ _ Hcov H1) as (_ & Hm1 & _).
    destruct (replies_covered _ _ _ _ Hcov H2) as (_ & Hm2 & _).
    by apply (proj2 (renames_String _ _ Hm1 Hm2)).
  - intros (l1 & m1 & r1 & l2 & m2 & r2 & H1 & H2 & Hne).
    exists (map_addr f l1), (map_addr f m1), (map_addr f r1),
           (map_addr f l2), (map_addr f m2), (map_addr f r2).
    split_and!.
    + apply list_elem_of_fmap. by exists (l1, m1, r1).
    + apply list_elem_of_fmap. by exists (l2, m2, r2).
    + intros E. apply Hne. cbn [map_addr IP] in E.
      destruct (replies_covered _ _ _ _ Hcov H1) as (_ & Hm1 & _).
      destruct (replies_covered _ _ _ _ Hcov H2) as (_ & Hm2 & _).
      by apply (proj1 (renames_String _ _ Hm1 Hm2)).
Qed.

Lemma mappingVariesByDestIP_loop_renamed (ps : list MappingProbe) (a0 : UDPAddr)
    (remoteIP mappedIP : net_IP) (mappedPort : Z) :
  Forall covered ps → IP a0 ∈ D → remoteIP ∈ D → mappedIP ∈ D →
  mappingVariesByDestIP_loop (map (map_probe f) ps)
    (UDPAddr_String (map_addr f a0)) (f remoteIP) (f mappedIP) mappedPort
  = mappingVariesByDestIP_loop ps (UDPAddr_String a0) remoteIP mappedIP mappedPort.
Proof.
  intros Hps. revert a0 remoteIP mappedIP mappedPort.
  induction Hps as [|p ps Hp _ IH]; intros a0 remoteIP mappedIP mappedPort Ha Hr Hm;
    [reflexivity|].
  cbn [map mappingVariesByDestIP_loop map_probe Timeout Mapped Local Remote].
  destruct (Timeout p); [by apply IH|].
  rewrite renames_endpoint by (done || by apply covered_Local).
  destruct (String.eqb (UDPAddr_String (Local p)) (UDPAddr_String a0)); cbn [negb].
  - cbn [map_addr IP]. rewrite renames_Equal by (done || by apply covered_Remote).
    destruct (IP_Equal (IP (Remote p)) remoteIP); [by apply IH|].
    destruct (Mapped p) as [mp|] eqn:Hmp; [|reflexivity].
    cbn [fmap option_fmap option_map map_addr IP Port].
    rewrite renames_Equal by (done || by eapply covered_Mapped).
    destruct (negb (IP_Equal (IP mp) mappedIP) || negb (Port mp =? mappedPort));
      [reflexivity|by apply IH].
  - destruct (Mapped p) as [mp|] eqn:Hmp; [|reflexivity].
    cbn [fmap option_fmap option_map].
    apply (IH (Local p)); [by apply covered_Local|by apply covered_Remote|
                            by eapply covered_Mapped].
Qed.

Lemma mappingVariesByDestIP_renamed (r : Result) :
  Forall covered (MappingProbes r) →
  mappingVariesByDestIP (map_Result f r) = mappingVariesByDestIP r.
Proof.
  unfold mappingVariesByDestIP. cbn [map_Result MappingProbes].
  generalize (@nil byte) at 1 2 as x. generalize (@nil byte) at 1 as y.
  generalize (@nil byte) at 1 as x'. generalize (@nil byte) as y'.
  generalize 0 at 1 as z. generalize 0 as z'.
  intros z' z y' x' y x Hps. revert x y x' y' z z'.
  induction Hps as [|p ps Hp Hps IH]; intros x y x' y' z z'; [reflexivity|].
  cbn [map mappingVariesByDestIP_loop map_probe Timeout Mapped Local Remote].
  destruct (Timeout p); [by apply IH|].
  rewrite !UDPAddr_String_nonempty. cbn [negb].
  destruct (Mapped p) as [mp|] eqn:Hmp; [|reflexivity].
  cbn [fmap option_fmap option_map].
  apply (mappingVariesByDestIP_loop_renamed ps (Local p));
    [done|by apply covered_Local|by apply covered_Remote|by eapply covered_Mapped].
Qed.

Lemma mappingVariesByDestPort_loop_renamed (ps : list MappingProbe) (a0 : UDPAddr)
    (remotePort : Z) (mappedIP : net_IP) (mappedPort : Z) :
  Forall covered ps → IP a0 ∈ D → mappedIP ∈ D →
  mappingVariesByDestPort_loop (map (map_probe f) ps)
    (UDPAddr_String (map_addr f a0)) remotePort (f mappedIP) mappedPort
  = mappingVariesByDestPort_loop ps (UDPAddr_String a0) remotePort mappedIP mappedPort.
Proof.
  intros Hps. revert a0 remotePort mappedIP mappedPort.
  induction Hps as [|p ps Hp _ IH]; intros a0 remotePort mappedIP mappedPort Ha Hm;
    [reflexivity|].
  cbn [map mappingVariesByDestPort_loop map_probe Timeout Mapped Local Remote].
  destruct (Timeout p); [by apply IH|].
  rewrite renames_endpoint by (done || by apply covered_Local).
  destruct (String.eqb (UDPAddr_String (Local p)) (UDPAddr_String a0)); cbn [negb].
  - cbn [map_addr Port].
    destruct (Port (Remote p) =? remotePort); [by apply IH|].
    destruct (Mapped p) as [mp|] eqn:Hmp; [|reflexivity].
    cbn [fmap option_fmap option_map map_addr IP Port].
    rewrite renames_Equal by (done || by eapply covered_Mapped).
    destruct (negb (IP_Equal (IP mp) mappedIP) || negb (Port mp =? mappedPort));
      [reflexivity|by apply IH].
  - destruct (Mapped p) as [mp|] eqn:Hmp; [|reflexivity].
    cbn [fmap option_fmap option_map].
    apply (IH (Local p)); [by apply covered_Local|by eapply covered_Mapped].
Qed.

Lemma mappingVariesByDestPort_renamed (r : Result) :
  Forall covered (MappingProbes r) →
  mappingVariesByDestPort (map_Result f r) = mappingVariesByDestPort r.
Proof.
  unfold mappingVariesByDestPort. cbn [map_Result MappingProbes].
  generalize (@nil byte) at 1 as x. generalize (@nil byte) as x'.
  generalize 0 at 1 2 as y. generalize 0 at 1 as z. generalize 0 at 1 as y'.
  generalize 0 as z'.
  intros z' y' z y x' x Hps. revert x x' y y' z z'.
  induction Hps as [|p ps Hp Hps IH]; intros x x' y y' z z'; [reflexivity|].
  cbn [map mappingVariesByDestPort_loop map_probe Timeout Mapped Local Remote].
  destruct (Timeout p); [by apply IH|].
  rewrite !UDPAddr_String_nonempty. cbn [negb].
  destruct (Mapped p) as [mp|] eqn:Hmp; [|reflexivity].
  cbn [fmap option_fmap option_map].
  apply (mappingVariesByDestPort_loop_renamed ps (Local p));
    [done|by apply covered_Local|by eapply covered_Mapped].
Qed.

Lemma firewallEnforcesDestIP_renamed (r : Result) :
  (∀ fw, FirewallProbes r = Some fw → ∀ ip, ip ∈ firewall_IPs fw → ip ∈ D) →
  firewallEnforcesDestIP (map_Result f r) = firewallEnforcesDestIP r.
Proof.
  intros Hfw. unfold firewallEnforcesDestIP. cbn [map_Result FirewallProbes].
  destruct (FirewallProbes r) as [fw|]; [|reflexivity].
  specialize (Hfw fw eq_refl).
  cbn [fmap option_fmap option_map map_firewall FRemote Received map_addr IP].
  assert (Hout : IP (FRemote fw) ∈ D) by (apply Hfw; right; by left).
  assert (Hrecv : ∀ a, a ∈ Received fw → IP a ∈ D).
  { intros a Ha. apply Hfw. do 2 right. apply list_elem_of_fmap. by exists a. }
  induction (Received fw) as [|a l IH]; [reflexivity|].
  cbn [map forallb map_addr IP].
  rewrite renames_Equal by (done || apply Hrecv; by left).
  rewrite IH; [done|]. intros b Hb. apply Hrecv. by right.
Qed.

End Renaming.

(** ** The verdicts that only read ports and timeouts *)

Lemma noData_map_Result (f : net_IP → net_IP) (r : Result) :
  noData (map_Result f r) = noData r.
Proof.
  unfold noData. cbn [map_Result MappingProbes]. rewrite length_map.
  destruct (Z.of_nat (length (MappingProbes r)) =? 0); [reflexivity|].
  induction (MappingProbes r) as [|p ps IH]; [reflexivity|].
  cbn [map forallb map_probe Timeout]. by rewrite IH.
Qed.

Lemma filteredEgress_working_map (f : net_IP → net_IP) (ps : list MappingProbe)
    (w : gmap Z bool) :
  foldl (fun working probe =>
           if negb (Timeout probe) then <[Port (Remote probe) := true]> working
           else working) w (map (map_probe f) ps)
  = foldl (fun working probe =>
             if negb (Timeout probe) then <[Port (Remote probe) := true]> working
             else working) w ps.
Proof.
  revert w. induction ps as [|p ps IH]; intros w; [reflexivity|].
  cbn [map foldl map_probe Timeout Remote map_addr Port]. apply IH.
Qed.

Lemma filteredEgress_loop_map (f : net_IP → net_IP) (ps : list MappingProbe)
    (w : gmap Z bool) (ret : list Z) :
  filteredEgress_loop (map (map_probe f) ps) w ret = filteredEgress_loop ps w ret.
Proof.
  revert w ret. induction ps as [|p ps IH]; intros w ret; [reflexivity|].
  cbn [map filteredEgress_loop map_probe Timeout Remote map_addr Port].
  destruct (Timeout p && negb (get_bool w (Port (Remote p)))); apply IH.
Qed.

Lemma filteredEgress_map_Result (f : net_IP → net_IP) (r : Result) :
  filteredEgress (map_Result f r) = filteredEgress r.
Proof.
  unfold filteredEgress, filteredEgress_working. cbn [map_Result MappingProbes].
  by rewrite filteredEgress_working_map, filteredEgress_loop_map.
Qed.

Lemma firewallEnforcesDestPort_map_Result (f : net_IP → net_IP) (r : Result) :
  firewallEnforcesDestPort (map_Result f r) = firewallEnforcesDestPort r.
Proof.
  unfold firewallEnforcesDestPort. cbn [map_Result FirewallProbes].
  destruct (FirewallProbes r) as [fw|]; [|reflexivity].
  cbn [fmap option_fmap option_map map_firewall FRemote Received map_addr Port].
  induction (Received fw) as [|a l IH]; [reflexivity|].
  cbn [map forallb map_addr Port]. by rewrite IH.
Qed.

Lemma mappingPreservesSourcePort_loop_map (f : net_IP → net_IP) (ps : list MappingProbe)
    (total preserved : Z) :
  mappingPreservesSourcePort_loop (map (map_probe f) ps) total preserved
  = mappingPreservesSourcePort_loop ps total preserved.
Proof.
  revert total preserved. induction ps as [|p ps IH]; intros total preserved; [reflexivity|].
  cbn [map mappingPreservesSourcePort_loop map_probe Timeout Mapped Local map_addr Port].
  destruct (Timeout p); [apply IH|].
  destruct (Mapped p) as [m|]; [|reflexivity].
  cbn [fmap option_fmap option_map map_addr Port]. apply IH.
Qed.

Lemma mappingPreservesSourcePort_map_Result (f : net_IP → net_IP) (r : Result) :
  mappingPreservesSourcePort (map_Result f r) = mappingPreservesSourcePort r.
Proof.
  unfold mappingPreservesSourcePort. cbn [map_Result MappingProbes].
  by rewrite mappingPreservesSourcePort_loop_map.
Qed.

(** ** The analysis under a faithful renaming *)

Lemma Result_IPs_probe (r : Result) (p : MappingProbe) (ip : net_IP) :
  p ∈ MappingProbes r → ip ∈ probe_IPs p → ip ∈ Result_IPs r.
Proof.
  intros Hp Hip. unfold Result_IPs. apply elem_of_app. right. apply elem_of_app. left.
  apply list_elem_of_In, in_flat_map. exists p. by rewrite <- !list_elem_of_In.
Qed.

Lemma Analyze_renamed (f : net_IP → net_IP) (r : Result) :
  Forall v4_or_empty (Result_IPs r) →
  renames f (Result_IPs r) →
  Forall mapped_if_replied (MappingProbes r) →
  Analyze (map_Result f r) = Analyze r.
Proof.
  intros Hv4 Hren Hwf.
  assert (Hcov : Forall (fun p => ∀ ip, ip ∈ probe_IPs p → ip ∈ Result_IPs r)
                        (MappingProbes r)).
  { apply Forall_forall. intros p Hp ip Hip. by eapply Result_IPs_probe. }
  unfold Analyze.
  rewrite (mappingVariesByDestIP_renamed f (Result_IPs r)) by done.
  rewrite (mappingVariesByDestPort_renamed f (Result_IPs r)) by done.
  rewrite (multiplePublicIPs_renamed f (Result_IPs r)) by done.
  rewrite mappingPreservesSourcePort_map_Result, noData_map_Result,
    filteredEgress_map_Result, firewallEnforcesDestPort_map_Result.
  rewrite (firewallEnforcesDestIP_renamed f (Result_IPs r)); [|done..|].
  2:{ intros fw Hfw ip Hip. unfold Result_IPs. rewrite Hfw.
      apply elem_of_app. right. apply elem_of_app. by right. }
  assert (noNAT (map_Result f r) = noNAT r) as ->; [|reflexivity].
  unfold noNAT. cbn [map_Result LocalIPs MappingProbes].
  apply (noNAT_loop_renamed f (Result_IPs r)); [done|].
  intros x Hx. apply (noNAT_ips_renamed f (Result_IPs r)); try done.
  intros l Hl. unfold Result_IPs. apply elem_of_app. by left.
Qed.

(** ** The substitution of [Anonymize] is a faithful renaming *)

Lemma IP_Equal_refl (x : net_IP) : IP_Equal x x = true.
Proof. unfold IP_Equal. rewrite Nat.eqb_refl. apply bytes_eqb_refl. Qed.

Lemma IsUnspecified_IPv4 (a : net_IP) :
  is_IPv4 a → IsUnspecified a = IP_Equal a IPv4zero.
Proof.
  intros H. unfold IsUnspecified.
  destruct (is_IPv4_forms a H) as (b0 & b1 & b2 & b3 & [-> | ->]).
  - by rewrite orb_false_r.
  - assert (IP_Equal (IPv4 b0 b1 b2 b3) IPv6unspecified = false) as ->
      by reflexivity.
    by rewrite orb_false_r.
Qed.

Lemma anonymizable_v4 (a : net_IP) :
  is_IPv4 a → anonymizable a = negb (IP_Equal a IPv4zero).
Proof.
  intros H. unfold anonymizable. rewrite IsUnspecified_IPv4 by done.
  destruct a as [|b a]; [by apply is_IPv4_nonempty in H|]. reflexivity.
Qed.

Lemma anonymizable_Equal (a b : net_IP) :
  v4_or_empty a → v4_or_empty b → IP_Equal a b = true →
  anonymizable a = anonymizable b.
Proof.
  intros Ha Hb E.
  destruct Ha as [->|Ha].
  { apply IP_Equal_nil_l in E. by subst. }
  destruct Hb as [->|Hb].
  { apply IP_Equal_nil_r in E. by subst. }
  rewrite !anonymizable_v4 by done. f_equal. apply eq_true_iff_eq.
  rewrite !IPv4_Equal_String by done.
  apply IPv4_Equal_String in E; [|done..]. by rewrite E.
Qed.

Lemma substitute_renames (D : list net_IP) :
  Forall v4_or_empty D →
  Z.of_nat (length (first_keys D)) ≤ 65279 →
  renames (substitute (first_keys D)) D.
Proof.
  intros Hv4 Hlen. rewrite Forall_forall in Hv4.
  assert (Hgen : ∀ x, x ∈ D → anonymizable x = true →
            ∃ n, substitute (first_keys D) x = generated n
                 ∧ first_keys D !! n = Some (IP_String x)
                 ∧ Z.of_nat n < 65279).
  { intros x Hx Ha.
    destruct (substitute_covered (first_keys D) x Ha) as (n & Hi & Hl & Hs).
    { unfold first_keys. by apply note_keys_cover. }
    exists n. split_and!; [done..|]. apply index_of_lt in Hi. lia. }
  split.
  - intros x Hx. destruct (anonymizable x) eqn:Ha.
    + destruct (Hgen x Hx Ha) as (n & -> & _ & _). split.
      * right. apply generated_is_IPv4.
      * split; [discriminate|]. intros ->. discriminate Ha.
    + rewrite substitute_not_anonymizable by done. split; [by apply Hv4|done].
  - intros x y Hx Hy.
    destruct (anonymizable x) eqn:Hax, (anonymizable y) eqn:Hay.
    + destruct (Hgen x Hx Hax) as (n & -> & Hn & Hnlt).
      destruct (Hgen y Hy Hay) as (m & -> & Hm & Hmlt).
      destruct (decide (n = m)) as [->|Hne].
      * rewrite IP_Equal_refl. symmetry.
        apply v4_or_empty_Equal_String; [by apply Hv4..|]. congruence.
      * assert (IP_Equal (generated n) (generated m) = false) as ->.
        { apply not_true_is_false. intros E.
          apply IPv4_Equal_String in E; [|apply generated_is_IPv4..].
          apply generated_String_inj in E; [done|lia..]. }
        symmetry. apply not_true_is_false. intros E.
        apply v4_or_empty_Equal_String in E; [|by apply Hv4..].
        pose proof (first_keys_NoDup D) as Hnd.
        rewrite E in Hn. by pose proof (NoDup_lookup _ _ _ _ Hnd Hn Hm).
    + destruct (Hgen x Hx Hax) as (n & -> & Hn & Hnlt).
      rewrite (substitute_not_anonymizable _ y) by done.
      assert (IP_Equal (generated n) y = false) as ->.
      { apply not_true_is_false. intros E.
        apply anonymizable_Equal in E;
          [|right; apply generated_is_IPv4|by apply Hv4].
        rewrite generated_anonymizable_lt in E by done. congruence. }
      symmetry. apply not_true_is_false. intros E.
      apply anonymizable_Equal in E; [congruence|by apply Hv4..].
    + destruct (Hgen y Hy Hay) as (m & -> & Hm & Hmlt).
      rewrite (substitute_not_anonymizable _ x) by done.
      assert (IP_Equal x (generated m) = false) as ->.
      { apply not_true_is_false. intros E.
        apply anonymizable_Equal in E;
          [|by apply Hv4|right; apply generated_is_IPv4].
        rewrite generated_anonymizable_lt in E by done. congruence. }
      symmetry. apply not_true_is_false. intros E.
      apply anonymizable_Equal in E; [congruence|by apply Hv4..].
    + by rewrite !substitute_not_anonymizable.
Qed.

Lemma all_mapped_if_replied (ps : list MappingProbe) :
  Forall (fun p => is_Some (Mapped p)) ps → Forall mapped_if_replied ps.
Proof. intros H. eapply Forall_impl; [exact H|]. by intros p Hp _. Qed.

Lemma Anonymize_keeps_analysis (r : Result) :
  Forall (fun probe => is_Some (Mapped probe)) (MappingProbes r) →
  Forall v4_or_empty (Result_IPs r) →
  Z.of_nat (length (first_keys (Result_IPs r))) ≤ 65279 →
  ∃ r', Anonymize r = Some r' ∧ Analyze r' = Analyze r.
Proof.
  intros Hm Hv4 Hlen. eexists. split; [by apply Anonymize_substitutes|].
  apply Analyze_renamed; [done|by apply substitute_renames|by apply all_mapped_if_replied].
Qed.

(** Anonymising a result does not change its analysis: for a result whose
    mapping probes all carry a mapped endpoint and whose IPs are IPv4
    addresses or empty, with at most 65279 distinct IP texts to replace,
    [Analyze] returns the same analysis after [Anonymize] as before. *)
Theorem Analyze_Anonymize (r : Result)
    (Hm : Forall (fun probe => is_Some (Mapped probe)) (MappingProbes r))
    (Hv4 : Forall v4_or_empty (Result_IPs r))
    (Hlen : Z.of_nat (length (first_keys (Result_IPs r))) ≤ 65279) :
  ∃ r' a, Anonymize r = Some r' ∧ Analyze r = Some a ∧ Analyze r' = Some a.
Proof.
  destruct (Anonymize_keeps_analysis r Hm Hv4 Hlen) as (r' & Hr' & Ha).
  destruct (Analyze_defined r (all_mapped_if_replied _ Hm)) as [a Har].
  exists r', a. split_and!; [done..|congruence].
Qed.

Lemma many_locals_probed_2_wf :
  Forall (fun probe => is_Some (Mapped probe)) (MappingProbes (many_locals_probed 2))
  ∧ Forall v4_or_empty (Result_IPs (many_locals_probed 2))
  ∧ Z.of_nat (length (first_keys (Result_IPs (many_locals_probed 2)))) ≤ 65279.
Proof.
  split_and!.
  - repeat constructor. by eexists.
  - repeat constructor; by right.
  - vm_compute. discriminate.
Defined.

Lemma Analyze_Anonymize_witness :
  ∃ r' a, Anonymize (many_locals_probed 2) = Some r'
          ∧ Analyze (many_locals_probed 2) = Some a ∧ Analyze r' = Some a.
Proof.
  apply (Analyze_Anonymize (many_locals_probed 2));
    [exact (proj1 many_locals_probed_2_wf)
    |exact (proj1 (proj2 many_locals_probed_2_wf))
    |exact (proj2 (proj2 many_locals_probed_2_wf))].
Defined.

(** ** The command *)

(** What [run] prints without [--print-results] does not depend on
    [--anonymize-results], for the results described above: the analysis
    of the anonymised result is printed, and it is the analysis of the
    result. *)
Theorem run_anonymize (format : string) (print_analysis : bool)
    (json_Result : Result → string) (json_Analysis : Analysis → string) (r : Result)
    (Hm : Forall (fun probe => is_Some (Mapped probe)) (MappingProbes r))
    (Hv4 : Forall v4_or_empty (Result_IPs r))
    (Hlen : Z.of_nat (length (first_keys (Result_IPs r))) ≤ 65279) :
  run format true false print_analysis json_Result json_Analysis (Some r)
  = run format false false print_analysis json_Result json_Analysis (Some r).
Proof.
  destruct (Anonymize_keeps_analysis r Hm Hv4 Hlen) as (r' & Hr' & Ha).
  unfold run. rewrite Hr'.
  destruct (String.eqb format "text"); [by rewrite Ha|].
  destruct (String.eqb format "json"); [by rewrite Ha|done].
Qed.

Lemma run_anonymize_witness :
  run "text" true false true (fun _ => "") (fun _ => "") (Some (many_locals_probed 2))
  = run "text" false false true (fun _ => "") (fun _ => "") (Some (many_locals_probed 2)).
Proof.
  apply (run_anonymize "text" true (fun _ => "") (fun _ => "") (many_locals_probed 2));
    [exact (proj1 many_locals_probed_2_wf)
    |exact (proj1 (proj2 many_locals_probed_2_wf))
    |exact (proj2 (proj2 many_locals_probed_2_wf))].
Defined.

(* ------------------------------------------------------------------ *)
(** * One exchange of the mapping phase *)

Lemma decode_mapped_frame (ip : net_IP) (port : Z) :
  length ip = 16%nat → 0 ≤ port ≤ 65535 →
  decode_mapped (ip ++ PutUint16 (uint16 port)) = {| IP := ip; Port := port |}.
Proof.
  intros H16 Hport. unfold decode_mapped.
  rewrite take_app_length', drop_app_length' by done.
  f_equal. change (firstn 2 (PutUint16 (uint16 port))) with (PutUint16 (uint16 port) ++ []).
  unfold uint16. rewrite Z.mod_small by lia. apply Uint16_PutUint16. lia.
Qed.

(** A request of the mapping phase that reaches the server from the
    address [addr] (the client's public endpoint) on the connection bound
    to [myaddr] is answered from that same connection, and the client
    records the answer as a probe of [myaddr] with [addr], in its 16-byte
    form, as the mapped endpoint. *)
Theorem mapping_exchange (conns : list UDPAddr) (myaddr addr local : UDPAddr)
    (dest : UDPAddr) (turns : list UDPAddr) (req : list byte)
    (Hconns : Forall (fun u => length (IP u) = 4%nat) conns)
    (Hmy : myaddr ∈ conns)
    (Hreq : (dest, req) ∈ transmit false turns)
    (Hip : length (IP addr) = 4%nat ∨ length (IP addr) = 16%nat)
    (Hport : 0 ≤ Port addr ≤ 65535) :
  ∃ d : datagram,
    handle_datagram conns myaddr req addr = Some d
    ∧ source d = myaddr
    ∧ is_reflection d = true
    ∧ probe_of local d
      = {| Local := local;
           Mapped := Some {| IP := To16 (IP addr); Port := Port addr |};
           Remote := myaddr;
           Timeout := false |}.
Proof.
  assert (req = repeat x00 180) as ->.
  { pose proof (transmit_from_no_cycle (repeat x00 180) turns) as H.
    rewrite Forall_forall in H. by apply (H (dest, _)). }
  unfold handle_datagram.
  rewrite handle_payload_frame by done.
  pose proof (respConn_from_spec conns myaddr (repeat x00 180) 0) as H.
  unfold respConn.
  destruct (respConn_from conns myaddr _ _ 0) as [k|].
  - destruct H as (j & u & -> & Hj & Hu & _). cbn [Nat.add]. rewrite Hj.
    assert (u = myaddr) as ->.
    { unfold answers_from in Hu.
      change (varyAddr (repeat x00 180)) with false in Hu.
      change (varyPort (repeat x00 180)) with false in Hu. cbn [negb] in Hu.
      apply andb_true_iff in Hu as [Hi Hp].
      apply Bool.eqb_prop in Hi, Hp. apply Z.eqb_eq in Hp.
      rewrite Forall_forall in Hconns.
      rewrite IP_Equal_4 in Hi;
        [|apply Hconns; by eapply list_elem_of_lookup_2|by apply Hconns].
      apply bool_decide_eq_true_1 in Hi. destruct u, myaddr. cbn in *. by subst. }
    eexists. split; [reflexivity|]. cbn [source payload].
    pose proof (To16_length _ Hip) as H16.
    split_and!; [done| |].
    + unfold is_reflection. cbn [payload]. by rewrite length_app, H16.
    + unfold probe_of. cbn [payload source].
      rewrite decode_mapped_frame, !copyUDPAddr_id by done. reflexivity.
  - exfalso. specialize (H myaddr Hmy). unfold answers_from in H.
    rewrite IP_Equal_refl, Z.eqb_refl in H. discriminate H.
Qed.

Lemma mapping_exchange_witness :
  ∃ d : datagram,
    handle_datagram two_servers_conns {| IP := [x08; x08; x04; x04]; Port := 80 |}
      (repeat x00 180) {| IP := [xcb; x00; x71; x07]; Port := 51820 |} = Some d
    ∧ source d = {| IP := [x08; x08; x04; x04]; Port := 80 |}
    ∧ is_reflection d = true
    ∧ probe_of {| IP := [x00; x00; x00; x00]; Port := 40000 |} d
      = {| Local := {| IP := [x00; x00; x00; x00]; Port := 40000 |};
           Mapped := Some {| IP := To16 [xcb; x00; x71; x07]; Port := 51820 |};
           Remote := {| IP := [x08; x08; x04; x04]; Port := 80 |};
           Timeout := false |}.
Proof.
  apply (mapping_exchange two_servers_conns
           {| IP := [x08; x08; x04; x04]; Port := 80 |}
           {| IP := [xcb; x00; x71; x07]; Port := 51820 |}
           {| IP := [x00; x00; x00; x00]; Port := 40000 |}
           {| IP := [x08; x08; x04; x04]; Port := 80 |}
           [ {| IP := [x08; x08; x04; x04]; Port := 80 |} ]).
  - repeat constructor.
  - do 2 right. by left.
  - by left.
  - by left.
  - cbn. lia.
Defined.

(* ------------------------------------------------------------------ *)
(** * Failing sockets *)



(* ------------------------------------------------------------------ *)
(** * A probe without sockets *)

(** With a negative number of mapping sockets, which [addDefaults] leaves
    alone, no socket is opened, no working address is ever offered, and
    [Probe] fails. *)
Theorem Probe_negative_sockets (env : probe_env) (o : Options)
    (Hneg : MappingSockets o < 0)
    (Hworking : working_address (Probe_sockets env (Some o)) (env_working env)) :
  Probe env (Some o) = None.
Proof.
  assert (Hs : Probe_sockets env (Some o) = []).
  { unfold Probe_sockets, Probe_opts.
    change (default Options_zero (Some o)) with o.
    rewrite addDefaults_filled. unfold filled. cbn [MappingSockets].
    destruct (Z.eqb_spec (MappingSockets o) 0) as [H0|_]; [lia|].
    rewrite Z2Nat.nonpos by lia. reflexivity. }
  rewrite Hs in Hworking.
  assert (Hw : env_working env = None).
  { inversion Hworking as [Hnone Hw|s a rest Hin]; [done|by apply elem_of_nil in Hin]. }
  unfold Probe. rewrite Hs, Hw. generalize (Probe_opts (Some o)). intros o'.
  destruct (env_interface_addrs env) as [addrs|]; [|reflexivity].
  destruct (resolveServerAddrs (env_lookup env) (ServerAddrs o')) as [ips|];
    reflexivity.
Qed.

Lemma Probe_negative_sockets_witness :
  Probe unanswered_env (Some negative_sockets_options) = None.
Proof.
  apply (Probe_negative_sockets unanswered_env negative_sockets_options).
  - reflexivity.
  - apply working_none.
    assert (Probe_sockets unanswered_env (Some negative_sockets_options) = []) as ->
      by (vm_compute; reflexivity).
    constructor.
Defined.

(* ------------------------------------------------------------------ *)
(** * The lines of a printed result *)

Lemma count_lines_app (s t : string) :
  count_lines (s +:+ t) = (count_lines s + count_lines t)%nat.
Proof.
  induction s as [|c s IH]; [reflexivity|].
  change (count_lines (String c (s +:+ t))
          = (count_lines (String c s) + count_lines t)%nat).
  cbn [count_lines]. rewrite IH. lia.
Qed.

Lemma count_lines_chars_in (s : string) :
  chars_in addr_alphabet s = true → count_lines s = 0%nat.
Proof.
  induction s as [|c s IH]; [reflexivity|]. cbn [chars_in count_lines].
  intros [Hc Hs]%andb_true_iff. rewrite IH by done.
  by rewrite (mem_char_neq addr_alphabet c "010" Hc eq_refl).
Qed.

Lemma count_lines_write_lines {A : Type} (line : A → string) (l : list A) :
  (∀ x, count_lines (line x) = 1%nat) →
  count_lines (write_lines line l) = length l.
Proof.
  intros H. induction l as [|x l IH]; [reflexivity|].
  cbn [write_lines length]. by rewrite count_lines_app, H, IH.
Qed.

Lemma count_lines_MappingProbe_line (p : MappingProbe) :
  count_lines (MappingProbe_line p) = 1%nat.
Proof.
  unfold MappingProbe_line. destruct (Timeout p);
    rewrite !count_lines_app,
      ?(count_lines_chars_in _ (chars_in_UDPAddr_String _)),
      ?(count_lines_chars_in _ (chars_in_UDPAddr_ptr_String _)); reflexivity.
Qed.

(** The text of a result without mapping probes is a single line without
    a newline.  Any other result is printed with one line for each local
    IP, each mapping probe and each address the firewall probe received
    from, and three more: two headings, and the line on the firewall
    probe. *)
Theorem Result_String_lines (r : Result) :
  count_lines (Result_String r)
  = match MappingProbes r with
    | [] => 0%nat
    | _ :: _ =>
        (3 + length (LocalIPs r) + length (MappingProbes r)
         + match FirewallProbes r with
           | None => 0
           | Some fw => length (Received fw)
           end)%nat
    end.
Proof.
  unfold Result_String. destruct (MappingProbes r) as [|p ps] eqn:E; [reflexivity|].
  change (Z.of_nat (length (p :: ps)) =? 0) with false. cbv iota.
  rewrite !count_lines_app.
  rewrite (count_lines_write_lines (fun ip => "    " +:+ IP_String ip +:+ nl)).
  2:{ intros ip. rewrite !count_lines_app,
        (count_lines_chars_in _ (chars_in_IP_String ip)). reflexivity. }
  rewrite (count_lines_write_lines MappingProbe_line)
    by apply count_lines_MappingProbe_line.
  destruct (FirewallProbes r) as [fw|].
  - rewrite !count_lines_app.
    rewrite (count_lines_write_lines (fun addr => "    " +:+ UDPAddr_String addr +:+ nl)).
    2:{ intros a. rewrite !count_lines_app,
          (count_lines_chars_in _ (chars_in_UDPAddr_String a)). reflexivity. }
    rewrite !(count_lines_chars_in _ (chars_in_UDPAddr_String _)).
    change (count_lines nl) with 1%nat.
    change (count_lines "Local IPs on the client:") with 0%nat.
    change (count_lines "Mapping probes:") with 0%nat.
    change (count_lines "Firewall probe with outbound traffic ") with 0%nat.
    change (count_lines " -> ") with 0%nat.
    lia.
  - rewrite !count_lines_app.
    change (count_lines nl) with 1%nat.
    change (count_lines "Local IPs on the client:") with 0%nat.
    change (count_lines "Mapping probes:") with 0%nat.
    change (count_lines "No firewall probe data.") with 0%nat.
    lia.
Qed.

(* ------------------------------------------------------------------ *)
(** * The verdict on the firewall *)

(** On the probe that [probeFirewall] returns, the two verdicts on the
    firewall speak of every reflection that was read, although each sender
    is listed only once: [firewallEnforcesDestIP] holds exactly when every
    reflection came from the IP of the destination, and
    [firewallEnforcesDestPort] exactly when every reflection came from its
    port.  The addresses are those of a udp4 socket: IPv4. *)
Theorem firewall_verdict (dest local : UDPAddr) (reads : list datagram)
    (localIPs : list net_IP) (probes : list MappingProbe)
    (Hdest : v4_or_empty (IP dest))
    (Hreads : Forall (fun d => v4_or_empty (IP (source d))) reads) :
  ∃ fw : FirewallProbe,
    probeFirewall (Some dest) (Some local) reads ReadTimeout = Some fw
    ∧ (firewallEnforcesDestIP
         {| LocalIPs := localIPs; MappingProbes := probes; FirewallProbes := Some fw |}
       = true
       ↔ ∀ d, d ∈ reads → is_reflection d = true →
              IP_Equal (IP (source d)) (IP dest) = true)
    ∧ (firewallEnforcesDestPort
         {| LocalIPs := localIPs; MappingProbes := probes; FirewallProbes := Some fw |}
       = true
       ↔ ∀ d, d ∈ reads → is_reflection d = true → Port (source d) = Port dest).
Proof.
  unfold probeFirewall. rewrite !copyUDPAddr_id.
  destruct (firewall_receive_loop reads local dest)
    as (HL & HR & _ & _ & Hsound & Hcompl & _).
  eexists. split; [reflexivity|].
  unfold firewallEnforcesDestIP, firewallEnforcesDestPort. cbn [FirewallProbes].
  rewrite HR. rewrite !forallb_forall. rewrite Forall_forall in Hreads.
  assert (Hrecv : ∀ d, d ∈ reads → is_reflection d = true →
            ∃ a, List.In a (Received (fw_ret (foldl (fun v d => firewall_receive d v)
                   {| fw_ret := {| FLocal := local; FRemote := dest; Received := [] |};
                      fw_seen := ∅ |} reads)))
                 ∧ IP_Equal (IP (source d)) (IP a) = true ∧ Port (source d) = Port a).
  { intros d Hd Hrefl. specialize (Hcompl d Hd Hrefl).
    apply list_elem_of_fmap in Hcompl as (a & Ha & Hin).
    exists a. split; [by apply list_elem_of_In|].
    apply UDPAddr_String_v4_inj; [by apply Hreads| |done].
    destruct (Hsound a Hin) as (d' & Hd' & _ & ->). by apply Hreads. }
  split; split.
  - intros H d Hd Hrefl. destruct (Hrecv d Hd Hrefl) as (a & Ha & Hi & _).
    specialize (H a Ha).
    assert (Ha4 : v4_or_empty (IP a)).
    { apply list_elem_of_In in Ha. destruct (Hsound a Ha) as (d' & Hd' & _ & ->).
      by apply Hreads. }
    apply v4_or_empty_Equal_String; [by apply Hreads|done|].
    apply v4_or_empty_Equal_String in Hi; [|by apply Hreads|done].
    apply v4_or_empty_Equal_String in H; [|done..]. congruence.
  - intros H a Ha. apply list_elem_of_In in Ha.
    destruct (Hsound a Ha) as (d & Hd & Hrefl & ->). by apply H.
  - intros H d Hd Hrefl. destruct (Hrecv d Hd Hrefl) as (a & Ha & _ & Hp).
    specialize (H a Ha). apply Z.eqb_eq in H. congruence.
  - intros H a Ha. apply list_elem_of_In in Ha.
    destruct (Hsound a Ha) as (d & Hd & Hrefl & ->). apply Z.eqb_eq. by apply H.
Qed.

Lemma firewall_verdict_witness :
  ∃ fw : FirewallProbe,
    probeFirewall (Some answering_server)
      (Some {| IP := [x00; x00; x00; x00]; Port := 40100 |})
      (reads (env_sockets answered_env 0)) ReadTimeout = Some fw
    ∧ (firewallEnforcesDestIP
         {| LocalIPs := []; MappingProbes := []; FirewallProbes := Some fw |} = true
       ↔ ∀ d, d ∈ reads (env_sockets answered_env 0) → is_reflection d = true →
              IP_Equal (IP (source d)) (IP answering_server) = true)
    ∧ (firewallEnforcesDestPort
         {| LocalIPs := []; MappingProbes := []; FirewallProbes := Some fw |} = true
       ↔ ∀ d, d ∈ reads (env_sockets answered_env 0) → is_reflection d = true →
              Port (source d) = Port answering_server).
Proof.
  apply (firewall_verdict answering_server {| IP := [x00; x00; x00; x00]; Port := 40100 |}
           (reads (env_sockets answered_env 0)) [] []).
  - by right.
  - constructor; [by right|constructor].
Defined.
